(** * cncjs-pendant-gamepad: the joystick decoder/filter and the pendant engine

    A shallow embedding of [joystick.js] (the [Joystick] class: [parse] and
    [onRead]) and of [index.js] (the [ButtonState], [AxisState] and [Selector]
    classes, the control dispatch tables, the jog throttle and the periodic
    drivers), followed by the properties established about them.

    Conventions.
    - JavaScript integers (event fields, thresholds, indices, clock values in
      milliseconds) are [Z].
    - JavaScript numbers that go through a division or [toFixed] are exact
      rationals, [Q], and the rounding [toFixed] performs is written out.
      The operands are 16-bit stick values and constants; the rounding of
      the double-precision division is many orders of magnitude below the
      distance of any such quotient from a rounding tie of [toFixed(2)], so
      the printed decimals are the same.  [Math.sqrt] is the real square
      root, on [R].
    - The sparse arrays [lastAxisValue] / [lastAxisEmittedValue] and the
      tables [BUTTONS] / [AXES] are [gmap Z _] (a missing key is
      [undefined]).
    - An uncaught JavaScript exception is the [Throw] case of [result].
    - Time is a clock in milliseconds that moves when the event loop is told
      that time has passed; a [setTimeout] callback runs when the clock has
      reached its due time, and the [setInterval] callbacks are inputs of
      the event loop.
    - The socket is taken to stay connected: [socket.emit] appends to the
      list of outputs. *)

From Stdlib Require Import ZArith QArith Qround Qabs Reals Qreals Lra Lia List Bool.
From Stdlib Require Import Strings.String Strings.Byte.
From stdpp Require Import base option list functions gmap strings.

Local Open Scope Z_scope.

(** JavaScript truthiness of a number: everything but [0] (and [NaN]). *)
Definition truthy (z : Z) : bool := negb (z =? 0).

(* ===================================================================== *)
(** * joystick.js *)
(* ===================================================================== *)

Module Joystick.

(** ** Buffer reads (Node's [Buffer] API) *)

Definition Buffer := list byte.

(** The number a byte of the buffer reads as. *)
Definition unsigned (b : byte) : Z := Z.of_N (Byte.to_N b).

(** [buffer[i]]. *)
Definition byte_at (buffer : Buffer) (i : nat) : option Z :=
  unsigned <$> buffer !! i.

(** [buf.readUInt32LE(offset)]: [first + b1 * 2^8 + b2 * 2^16 + last * 2^24];
    a read past the end raises [RangeError] ([None]). *)
Definition readUInt32LE (buffer : Buffer) (offset : nat) : option Z :=
  first ← byte_at buffer offset;
  b1 ← byte_at buffer (offset + 1);
  b2 ← byte_at buffer (offset + 2);
  last ← byte_at buffer (offset + 3);
  Some (first + b1 * 2 ^ 8 + b2 * 2 ^ 16 + last * 2 ^ 24).

(** The 32-bit signed wrap-around of JavaScript's bitwise operators. *)
Definition to_int32 (z : Z) : Z := (z + 2 ^ 31) mod 2 ^ 32 - 2 ^ 31.

(** [buf.readInt16LE(offset)]: [val = first + last * 2^8] and then
    [val | (val & 2^15) * 0x1fffe], the sign extension as Node writes it. *)
Definition readInt16LE (buffer : Buffer) (offset : nat) : option Z :=
  first ← byte_at buffer offset;
  last ← byte_at buffer (offset + 1);
  let val := first + last * 2 ^ 8 in
  Some (to_int32 (Z.lor val (Z.land val (2 ^ 15) * 0x1fffe))).

(** The two's complement reading of a 16-bit value, for comparison with
    what [readInt16LE] computes. *)
Definition int16 (val : Z) : Z := if val <? 2 ^ 15 then val else val - 2 ^ 16.

(** ** Events *)

Inductive EventType := button | axis.

#[global] Instance EventType_eq_dec : EqDecision EventType.
Proof. solve_decision. Defined.

(** The object [parse] builds.  [init] is [true] or absent ([false]);
    [type] is ['button'], ['axis'] or absent ([None]). *)
Record Event := mkEvent {
  time : Z;
  value : Z;
  number : Z;
  init : bool;
  type : option EventType;
  id : Z
}.

Definition set_value (e : Event) (v : Z) : Event :=
  {| time := time e; value := v; number := number e;
     init := init e; type := type e; id := id e |}.

Section Instance.

(** The constructor's parameters. *)
Variables (joy_id deadzone sensitivity : Z).

(** [parse]: the two flag tests on [type] run in source order, so the
    ['axis'] assignment, which comes last, overrides the ['button'] one.
    Indexing a byte the buffer does not have yields [undefined] in
    JavaScript; the program only ever parses its own 8-byte buffer, and the
    model reports every short buffer as [None]. *)
Definition parse (buffer : Buffer) : option Event :=
  t ← readUInt32LE buffer 0;
  v ← readInt16LE buffer 4;
  n ← byte_at buffer 7;
  ty ← byte_at buffer 6;
  let init := truthy (Z.land ty 0x80) in
  let type0 := if truthy (Z.land ty 0x01) then Some button else None in
  let type1 := if truthy (Z.land ty 0x02) then Some axis else type0 in
  Some {| time := t; value := v; number := n; init := init;
          type := type1; id := joy_id |}.

(** ** The filter state and [onRead] *)

(** The two closure variables of the constructor. *)
Record FilterState := mkFilter {
  lastAxisValue : gmap Z Z;
  lastAxisEmittedValue : gmap Z Z
}.

Definition initial : FilterState :=
  {| lastAxisValue := ∅; lastAxisEmittedValue := ∅ |}.

(** What [onRead] hands to [this.emit]. *)
Inductive Emitted :=
| EmitError (err : string)
| EmitEvent (ty : option EventType) (e : Event).

(** The [if (sensitivity) { ... }] block: the squelch flag it leaves and
    the new [lastAxisValue].  [lastAxisValue[n] && ...] is a truthiness
    test, so a missing entry and a stored [0] both fall to the [else]. *)
Definition sensitivity_stage (lav : gmap Z Z) (e : Event) : bool * gmap Z Z :=
  if truthy sensitivity then
    if match lav !! number e with
       | Some l => truthy l && (Z.abs (l - value e) <? sensitivity)
                   && negb (value e =? 0)
       | None => false
       end
    then (true, lav)
    else (false, <[number e := value e]> lav)
  else (false, lav).

(** When that block squelches: the stored raw value is present and
    nonzero, the new value is nonzero and closer to it than [sensitivity]. *)
Definition within_sensitivity (lav : gmap Z Z) (e : Event) : Prop :=
  exists l, lav !! number e = Some l /\ l <> 0
            /\ Z.abs (l - value e) < sensitivity /\ value e <> 0.

(** [if (deadzone && Math.abs(event.value) < deadzone) event.value = 0]. *)
Definition deadzone_stage (e : Event) : Event :=
  if truthy deadzone && (Z.abs (value e) <? deadzone) then set_value e 0 else e.

(** The [lastAxisEmittedValue] test.  It runs whatever the first stage
    decided, and stores the value whenever it differs from the stored one. *)
Definition emitted_stage (squelch : bool) (laev : gmap Z Z) (e : Event)
  : bool * gmap Z Z :=
  if bool_decide (laev !! number e = Some (value e))
  then (true, laev)
  else (squelch, <[number e := value e]> laev).

(** The body of [onRead] after [parse]. *)
Definition on_event (st : FilterState) (e : Event)
  : FilterState * option Emitted :=
  match type e with
  | Some axis =>
      let '(squelch1, lav) := sensitivity_stage (lastAxisValue st) e in
      let e' := deadzone_stage e in
      let '(squelch2, laev) := emitted_stage squelch1 (lastAxisEmittedValue st) e' in
      ({| lastAxisValue := lav; lastAxisEmittedValue := laev |},
       if squelch2 then None else Some (EmitEvent (type e') e'))
  | _ => (st, Some (EmitEvent (type e) e))
  end.

(** [onRead(err, bytesRead)]; [None] is the [RangeError] of a short buffer. *)
Definition onRead (st : FilterState) (err : option string) (buffer : Buffer)
  : option (FilterState * option Emitted) :=
  match err with
  | Some msg => Some (st, Some (EmitError msg))
  | None => e ← parse buffer; Some (on_event st e)
  end.

(** Successive device reads: each completed read schedules the next one. *)
Fixpoint feed (st : FilterState) (es : list Event)
  : FilterState * list Emitted :=
  match es with
  | [] => (st, [])
  | e :: es' =>
      let '(st1, out) := on_event st e in
      let '(st2, outs) := feed st1 es' in
      (st2, match out with Some o => o :: outs | None => outs end)
  end.

(** The states [onRead] can reach from a fresh [Joystick]. *)
Inductive reachable : FilterState -> Prop :=
| reach_initial : reachable initial
| reach_event st e : reachable st -> reachable (fst (on_event st e)).

(** An axis event as the device reports it for control [n]. *)
Definition axis_event (n v : Z) : Event :=
  {| time := 0; value := v; number := n; init := false;
     type := Some axis; id := joy_id |}.

(** The values forwarded to the ['axis'] listeners. *)
Definition forwarded (outs : list Emitted) : list (Z * Z) :=
  omap (fun o => match o with
                 | EmitEvent (Some axis) e => Some (number e, value e)
                 | _ => None
                 end) outs.

(** ** Reading a stream of events *)

(** What the deadzone test makes of a raw value. *)
Definition clamped (v : Z) : Z :=
  if truthy deadzone && (Z.abs v <? deadzone) then 0 else v.

(** The events of a stream that are axis events for control [n]. *)
Definition for_axis (n : Z) (es : list Event) : list Event :=
  List.filter (fun e => match type e with
                        | Some axis => number e =? n
                        | _ => false
                        end) es.

(** A list of values without the ones that repeat their predecessor;
    [prev] is the value before the first. *)
Fixpoint drop_repeats (prev : option Z) (vs : list Z) : list Z :=
  match vs with
  | [] => []
  | v :: vs' =>
      if bool_decide (prev = Some v) then drop_repeats prev vs'
      else v :: drop_repeats (Some v) vs'
  end.

(** Two filter states that hold the same entries for control [n]. *)
Definition agree_on (n : Z) (st st' : FilterState) : Prop :=
  lastAxisValue st !! n = lastAxisValue st' !! n
  /\ lastAxisEmittedValue st !! n = lastAxisEmittedValue st' !! n.

End Instance.

End Joystick.

(* ===================================================================== *)
(** * The event loop: one-shot timers and uncaught exceptions *)
(* ===================================================================== *)

(** A handler either runs to completion or raises an uncaught exception. *)
Inductive result (A : Type) :=
| Ok (a : A)
| Throw (error : string).
Arguments Ok {A} a.
Arguments Throw {A} error.

#[global] Instance result_ret : MRet result := fun A a => Ok a.
#[global] Instance result_bind : MBind result := fun A B f m =>
  match m with
  | Ok a => f a
  | Throw e => Throw e
  end.

Definition TypeError : string := "TypeError".

Module Timers.

Section Queue.

(** [A] names the callbacks that can be scheduled. *)
Context {A : Type}.

Record Timer := mkTimer { tid : Z; due : Z; action : A }.

(** The clock in milliseconds and the timers [setTimeout] has armed. *)
Record Queue := mkQueue {
  clock : Z;
  next_id : Z;
  armed : list Timer
}.

Definition empty : Queue := {| clock := 0; next_id := 1; armed := [] |}.

(** What a caller can pass to [clearTimeout]: the handle [setTimeout]
    returned, or any other value, which [clearTimeout] ignores. *)
Inductive Handle :=
| TimerHandle (id : Z)
| OtherValue.

(** Node arms a timer whose delay is below 1 or above [2^31 - 1] with a
    delay of 1. *)
Definition effective_delay (delay : Z) : Z :=
  if (delay <? 1) || (2147483647 <? delay) then 1 else delay.

(** [setTimeout(action, delay)]: the new queue and the handle. *)
Definition setTimeout (q : Queue) (a : A) (delay : Z) : Queue * Z :=
  ({| clock := clock q; next_id := next_id q + 1;
      armed := armed q ++ [{| tid := next_id q;
                              due := clock q + effective_delay delay;
                              action := a |}] |},
   next_id q).

Definition clearTimeout (q : Queue) (h : Handle) : Queue :=
  match h with
  | TimerHandle i =>
      {| clock := clock q; next_id := next_id q;
         armed := List.filter (fun t => negb (tid t =? i)) (armed q) |}
  | OtherValue => q
  end.

(** The armed timer that fires next: the earliest due one, the first
    armed among equals. *)
Fixpoint earliest (ts : list Timer) : option Timer :=
  match ts with
  | [] => None
  | t :: ts' =>
      match earliest ts' with
      | Some t' => if due t' <? due t then Some t' else Some t
      | None => Some t
      end
  end.

Definition set_clock (q : Queue) (c : Z) : Queue :=
  {| clock := c; next_id := next_id q; armed := armed q |}.

(** The next timer due at or before [target], removed from the queue, with
    the clock moved to its due time. *)
Definition pop_due (target : Z) (q : Queue) : option (Timer * Queue) :=
  match earliest (armed q) with
  | Some t =>
      if due t <=? target
      then Some (t, set_clock (clearTimeout q (TimerHandle (tid t)))
                              (Z.max (clock q) (due t)))
      else None
  | None => None
  end.

End Queue.

Arguments Timer : clear implicits.
Arguments Queue : clear implicits.

Section Loop.

(** A program state [S] that holds a timer queue, and what firing a timer
    does to it. *)
Context {A S : Type}.
Variable get_queue : S -> Queue A.
Variable put_queue : Queue A -> S -> S.
Variable fire : A -> S -> result S.

(** Fire the due timers in order until none is due at [target]. *)
Fixpoint fire_due (fuel : nat) (target : Z) (st : S) : result S :=
  match fuel with
  | O => Ok st
  | Datatypes.S fuel' =>
      match pop_due target (get_queue st) with
      | Some (t, q) =>
          st' ← fire (action t) (put_queue q st);
          fire_due fuel' target st'
      | None => Ok st
      end
  end.

(** [dt] milliseconds pass.  A firing timer arms at most one further timer
    in this program, so twice the number of armed timers is fuel enough. *)
Definition elapse (dt : Z) (st : S) : result S :=
  let target := clock (get_queue st) + dt in
  st' ← fire_due (2 * length (armed (get_queue st))) target st;
  Ok (put_queue (set_clock (get_queue st') (Z.max (clock (get_queue st')) target)) st').

End Loop.

End Timers.

(* ===================================================================== *)
(** * index.js: the classes *)
(* ===================================================================== *)

Module ButtonState.

(** The three callbacks handed to the constructor. *)
Inductive Callback := onShortPressed | onLongPressed | onLongCanceled.

#[global] Instance Callback_eq_dec : EqDecision Callback.
Proof. solve_decision. Defined.

Record t := mk {
  pending : bool;
  long_pressed : bool;
  timeout : Z;
  timeout_id : Z
}.

Definition new (timeout : Z) : t :=
  {| pending := false; long_pressed := false; timeout := timeout;
     timeout_id := 0 |}.

Section Methods.

(** [A] names the timer callbacks of the program; [self] is the name of
    this instance's [this.onTimeout.bind(this)]. *)
Context {A : Type}.

(** [press()]. *)
Definition press (b : t) (self : A) (q : Timers.Queue A) : t * Timers.Queue A :=
  if negb (pending b) then
    let '(q', handle) := Timers.setTimeout q self (timeout b) in
    ({| pending := true; long_pressed := long_pressed b;
        timeout := timeout b; timeout_id := handle |}, q')
  else (b, q).

(** [unpress()]: the new state, the queue, and the callback it ends by
    invoking, if any. *)
Definition unpress (b : t) (q : Timers.Queue A)
  : t * Timers.Queue A * option Callback :=
  if pending b then
    if negb (long_pressed b) then
      ({| pending := false; long_pressed := long_pressed b;
          timeout := timeout b; timeout_id := timeout_id b |},
       Timers.clearTimeout q (Timers.TimerHandle (timeout_id b)),
       Some onShortPressed)
    else
      ({| pending := false; long_pressed := false;
          timeout := timeout b; timeout_id := timeout_id b |},
       q, Some onLongCanceled)
  else (b, q, None).

(** [onTimeout()]: the new state and the callback it invokes. *)
Definition onTimeout (b : t) : t * Callback :=
  ({| pending := pending b; long_pressed := true;
      timeout := timeout b; timeout_id := timeout_id b |},
   onLongPressed).

End Methods.

(** *** One button on its own event loop

    A [ButtonState] whose three callbacks only record that they ran, driven
    by presses, releases and the passing of time. *)

Record World := mkWorld {
  button : t;
  queue : Timers.Queue unit;
  calls : list Callback
}.

(** An idle button (whatever handle it last stored) on a quiet event loop. *)
Definition idle (timeout handle now next : Z) : World :=
  {| button := {| pending := false; long_pressed := false;
                  timeout := timeout; timeout_id := handle |};
     queue := {| Timers.clock := now; Timers.next_id := next;
                 Timers.armed := [] |};
     calls := [] |}.

Inductive Input := Press | Unpress | Elapse (dt : Z).

Definition put_queue (q : Timers.Queue unit) (w : World) : World :=
  {| button := button w; queue := q; calls := calls w |}.

Definition fire (a : unit) (w : World) : result World :=
  let '(b, cb) := onTimeout (button w) in
  Ok {| button := b; queue := queue w; calls := calls w ++ [cb] |}.

Definition step (w : World) (i : Input) : result World :=
  match i with
  | Press =>
      let '(b, q) := press (button w) tt (queue w) in
      Ok {| button := b; queue := q; calls := calls w |}
  | Unpress =>
      let '(b, q, cb) := unpress (button w) (queue w) in
      Ok {| button := b; queue := q;
            calls := calls w ++ match cb with Some c => [c] | None => [] end |}
  | Elapse dt => Timers.elapse queue put_queue fire dt w
  end.

Fixpoint run (w : World) (inputs : list Input) : result World :=
  match inputs with
  | [] => Ok w
  | i :: inputs' => w' ← step w i; run w' inputs'
  end.

(** How often callback [c] ran. *)
Definition count (c : Callback) (w : World) : nat :=
  length (List.filter (fun x => bool_decide (x = c)) (calls w)).

(** *** Callback logs

    The logs made of whole gestures: a short press, or a long press
    followed by its cancel. *)
Inductive complete : list Callback -> Prop :=
| complete_nil : complete []
| complete_short l : complete l -> complete (l ++ [onShortPressed])
| complete_long l : complete l -> complete (l ++ [onLongPressed; onLongCanceled]).

(** Whole gestures, possibly followed by a long press not yet released. *)
Definition gesture_log (l : list Callback) : Prop :=
  complete l \/ exists l', l = l' ++ [onLongPressed] /\ complete l'.

(** The three states of a button with its event loop: idle with no timer,
    pressed with its one timer armed, long-pressed with the timer gone. *)
Definition consistent (w : World) : Prop :=
  match pending (button w), long_pressed (button w) with
  | false, false => Timers.armed (queue w) = [] /\ complete (calls w)
  | true, false =>
      (exists t, Timers.armed (queue w) = [t]
                 /\ Timers.tid t = timeout_id (button w))
      /\ complete (calls w)
  | true, true =>
      Timers.armed (queue w) = []
      /\ exists l', calls w = l' ++ [onLongPressed] /\ complete l'
  | false, true => False
  end.

End ButtonState.

Module AxisState.

Record t := mk { value : Z; active : bool }.

Definition new : t := {| value := 0; active := false |}.

Definition update (v : Z) : t := {| value := v; active := negb (v =? 0) |}.

Definition sign (a : t) : Z := Z.sgn (value a).

End AxisState.

Module Selector.

Section Options.

Context {T : Type}.

Record t := mk { index : Z; options : list T }.

Definition new (default_index : Z) (options : list T) : t :=
  {| index := default_index; options := options |}.

Definition increase (s : t) : t :=
  {| index := Z.min (index s + 1) (Z.of_nat (length (options s)) - 1);
     options := options s |}.

Definition decrease (s : t) : t :=
  {| index := Z.max (index s - 1) 0; options := options s |}.

(** [this.options[this.index]]: [undefined] ([None]) outside the array. *)
Definition get (s : t) : option T :=
  if index s <? 0 then None else options s !! Z.to_nat (index s).

(** The index addresses an element of the options. *)
Definition in_range (s : t) : Prop :=
  0 <= index s <= Z.of_nat (length (options s)) - 1.

(** The two mutators, as a caller applies them. *)
Inductive Op := Increase | Decrease.

Definition apply (s : t) (o : Op) : t :=
  match o with
  | Increase => increase s
  | Decrease => decrease s
  end.

End Options.

Arguments t : clear implicits.

End Selector.

(* ===================================================================== *)
(** * index.js: the pendant *)
(* ===================================================================== *)

Module Pendant.

(** ** Numbers *)

(** [x.toFixed(digits)], read back as a number: the sign is split off, the
    magnitude is scaled and rounded to the nearest integer, the larger one
    on a tie. *)
Definition toFixed (digits : nat) (x : Q) : Q :=
  let scale := 10 ^ Z.of_nat digits in
  let n := Qfloor (Qabs x * inject_Z scale + (1 # 2)) in
  Qmake (if Qle_bool 0 x then n else - n) (Z.to_pos scale).

(** [data.includes(sub)]. *)
Definition includes (data sub : string) : bool :=
  match String.index 0 sub data with
  | Some _ => true
  | None => false
  end.

(** ** Constants *)

Definition JOG_CANCEL_CMD : string :=
  String (Ascii.ascii_of_nat 133) EmptyString.

Definition SPINDLE_MIN_SPEED : Z := 0.
Definition SPINDLE_MAX_SPEED : Z := 24000.
Definition STEP_FEEDRATES : list Q :=
  [inject_Z 100; inject_Z 500; inject_Z 1000; inject_Z 2000].
Definition STEP_DISTANCES : list Q :=
  [1 # 100; 1 # 10; inject_Z 1; inject_Z 10]%Q.
Definition MAX_JOG_FEEDRATE : Z := 3000.
Definition JOG_COMMAND_INTERVAL : Z := 100.
Definition JOG_COMMAND_TIMEOUT : Z := 1000.

Definition JOYSTICK_DEADZONE : Z := 750.
Definition JOYSTICK_SENSITIVITY : Z := 100.
Definition JOYSTICK_AXIS_MAX : Z := 32767.
Definition JOYSTICK_ID : Z := 0.
Definition JOYSTICK_LONG_PRESS_TIMEOUT : Z := 500.

(** ** The two [map] declarations

    Both are function declarations in the body of the exported function, so
    both are hoisted, and the one that comes later in the source replaces
    the earlier one before any statement runs: every call of [map] in the
    file, whatever the number of arguments it passes, runs the second. *)

(** The first declaration (five parameters); no call reaches it. *)
Definition map_shadowed (x in_min in_max out_min out_max : Q) : Q :=
  toFixed 2 ((x - in_min) * (out_max - out_min) / (in_max - in_min) + out_min).

(** The second declaration (three parameters), the one in force.  Arguments
    beyond the third are ignored. *)
Definition map (x in_range_half out_range_half : Q) : Q :=
  toFixed 2 ((x + in_range_half) * out_range_half / in_range_half
             - out_range_half).

(** ** Continuous-jog feedrate *)

(** [Math.abs(map(value, JOYSTICK_AXIS_MAX, MAX_JOG_FEEDRATE))]. *)
Definition feedrate (value : Z) : Q :=
  Qabs (map (inject_Z value) (inject_Z JOYSTICK_AXIS_MAX)
            (inject_Z MAX_JOG_FEEDRATE)).

Definition decideFeedrate (x y z : AxisState.t) : R :=
  let jog_feedrate :=
    sqrt (Q2R (feedrate (AxisState.value x)) ^ 2
          + Q2R (feedrate (AxisState.value y)) ^ 2)%R in
  if AxisState.active z then
    let z_jog_feedrate := Q2R (feedrate (AxisState.value z)) in
    if Req_dec_T jog_feedrate 0 then z_jog_feedrate
    else Rmin jog_feedrate z_jog_feedrate
  else jog_feedrate.

(** ** Outputs *)

Inductive Axis := X | Y | Z_axis.

(** The G-code texts the pendant sends, by what they are built from. *)
Inductive Gcode :=
| M5                                    (* ['M5'] *)
| M3 (speed : Q)                        (* ['M3 S' + speed] *)
| JogAxis (a : Axis) (distance feed : Q)
    (* ['$J=G91G21' + axis + distance + 'F' + feed], from [jogShort]/[jogLong] *)
| JogSticks (x y z : AxisState.t).
    (* [JOG_BASE_CMD + motionVector(x, y, z, f) + 'F' + f],
       with [f = decideFeedrate(x, y, z)], from [stickMovement] *)

Inductive LogLine :=
| LogControl (name : string) (value : Z)
| LogUnknownPressed (value : Z)
| LogUnhandledResponse (data : string)
| LogJoystickError (err : string)
| LogJoystickConnected.

Inductive Out :=
| ConsoleLog (l : LogLine)
| SocketWrite (data : string)           (* [socket.emit('write', port, data)] *)
| SocketCommand (name : string)        (* [socket.emit('command', port, name)] *)
| SocketGcode (cmd : Gcode)     (* [socket.emit('command', port, 'gcode', cmd)] *)
| JoyOpen.                              (* [joy.open()] *)

(** ** State *)

(** The six [ButtonState] instances and the four [AxisState] instances. *)
Inductive ButtonName :=
  y_z_up | a_z_down | pad_x_left | pad_x_right | pad_y_up | pad_y_down.
Inductive StickName := left_x | left_y | right_x | right_y.

#[global] Instance ButtonName_eq_dec : EqDecision ButtonName.
Proof. solve_decision. Defined.
#[global] Instance StickName_eq_dec : EqDecision StickName.
Proof. solve_decision. Defined.

(** The callbacks [setTimeout] is given. *)
Inductive TimerAction :=
| ButtonTimeout (b : ButtonName)        (* [this.onTimeout.bind(this)] *)
| jogPendingTimeout.

(** The variables of the exported function's scope. *)
Record State := mkState {
  lb : bool;
  rb : bool;
  spindle_active : bool;
  lt : Z;
  rt : Z;
  sticks : StickName -> AxisState.t;
  step_distance_selection : Selector.t Q;
  step_feedrate_selection : Selector.t Q;
  buttons : ButtonName -> ButtonState.t;
  jog_pending : bool;
  controller_connected : bool;
  queue : Timers.Queue TimerAction;
  out : list Out
}.

Definition initial : State :=
  {| lb := false; rb := false; spindle_active := false; lt := 0; rt := 0;
     sticks := fun _ => AxisState.new;
     step_distance_selection := Selector.new 2 STEP_DISTANCES;
     step_feedrate_selection := Selector.new 2 STEP_FEEDRATES;
     buttons := fun _ => ButtonState.new JOYSTICK_LONG_PRESS_TIMEOUT;
     jog_pending := false; controller_connected := false;
     queue := Timers.empty; out := [] |}.

Definition set_lb (v : bool) (s : State) : State :=
  let 'mkState _ b c d e f g h i j k l m := s in mkState v b c d e f g h i j k l m.
Definition set_rb (v : bool) (s : State) : State :=
  let 'mkState a _ c d e f g h i j k l m := s in mkState a v c d e f g h i j k l m.
Definition set_spindle_active (v : bool) (s : State) : State :=
  let 'mkState a b _ d e f g h i j k l m := s in mkState a b v d e f g h i j k l m.
Definition set_lt (v : Z) (s : State) : State :=
  let 'mkState a b c _ e f g h i j k l m := s in mkState a b c v e f g h i j k l m.
Definition set_rt (v : Z) (s : State) : State :=
  let 'mkState a b c d _ f g h i j k l m := s in mkState a b c d v f g h i j k l m.
Definition set_stick (n : StickName) (v : AxisState.t) (s : State) : State :=
  let 'mkState a b c d e f g h i j k l m := s in
  mkState a b c d e (<[n := v]> f) g h i j k l m.
Definition set_step_distance_selection (v : Selector.t Q) (s : State) : State :=
  let 'mkState a b c d e f _ h i j k l m := s in mkState a b c d e f v h i j k l m.
Definition set_step_feedrate_selection (v : Selector.t Q) (s : State) : State :=
  let 'mkState a b c d e f g _ i j k l m := s in mkState a b c d e f g v i j k l m.
Definition set_button (n : ButtonName) (v : ButtonState.t) (s : State) : State :=
  let 'mkState a b c d e f g h i j k l m := s in
  mkState a b c d e f g h (<[n := v]> i) j k l m.
Definition set_jog_pending (v : bool) (s : State) : State :=
  let 'mkState a b c d e f g h i _ k l m := s in mkState a b c d e f g h i v k l m.
Definition set_controller_connected (v : bool) (s : State) : State :=
  let 'mkState a b c d e f g h i j _ l m := s in mkState a b c d e f g h i j v l m.
Definition set_queue (v : Timers.Queue TimerAction) (s : State) : State :=
  let 'mkState a b c d e f g h i j k _ m := s in mkState a b c d e f g h i j k v m.
Definition emit (o : Out) (s : State) : State :=
  let 'mkState a b c d e f g h i j k l m := s in
  mkState a b c d e f g h i j k l (m ++ [o]).

(** ** Jog throttle *)

(** [jog(cmd)].  The handle [setTimeout] returns is dropped. *)
Definition jog (cmd : Gcode) (s : State) : State :=
  if negb (jog_pending s) then
    let s1 := emit (SocketGcode cmd) s in
    let s2 := set_jog_pending true s1 in
    let '(q, _) := Timers.setTimeout (queue s2) jogPendingTimeout
                                     JOG_COMMAND_TIMEOUT in
    set_queue q s2
  else s.

(** The function [jogPendingTimeout]. *)
Definition run_jogPendingTimeout (s : State) : State :=
  set_jog_pending false s.

(** [socket.on('serialport:read', ...)].  [clearTimeout] is handed the
    function [jogPendingTimeout], which is not a timer handle. *)
Definition on_serialport_read (data : string) (s : State) : State :=
  if includes data "ok" || includes data "error" then
    let s1 := set_jog_pending false s in
    set_queue (Timers.clearTimeout (queue s1) Timers.OtherValue) s1
  else emit (ConsoleLog (LogUnhandledResponse data)) s.

(** ** Discrete jogs *)

(** [jogShort(axis, direction)]; [get()] outside the array is [undefined],
    whose [toFixed] does not exist. *)
Definition jogShort (a : Axis) (direction : Z) (s : State) : result State :=
  match Selector.get (step_distance_selection s),
        Selector.get (step_feedrate_selection s) with
  | Some d, Some f =>
      Ok (jog (JogAxis a (inject_Z direction * toFixed 4 d) (toFixed 2 f)) s)
  | _, _ => Throw TypeError
  end.

Definition jogLong (a : Axis) (direction : Z) (s : State) : result State :=
  match Selector.get (step_feedrate_selection s) with
  | Some f =>
      Ok (jog (JogAxis a (inject_Z direction * inject_Z 1000) (toFixed 2 f)) s)
  | None => Throw TypeError
  end.

Definition cancelJog (s : State) : State :=
  emit (SocketWrite JOG_CANCEL_CMD) s.

(** The [bind] arguments each [ButtonState] was constructed with. *)
Definition binding (b : ButtonName) : Axis * Z :=
  match b with
  | y_z_up => (Z_axis, 1)
  | a_z_down => (Z_axis, -1)
  | pad_x_left => (X, -1)
  | pad_x_right => (X, 1)
  | pad_y_up => (Y, 1)
  | pad_y_down => (Y, -1)
  end.

Definition invoke (b : ButtonName) (cb : ButtonState.Callback) (s : State)
  : result State :=
  let '(a, direction) := binding b in
  match cb with
  | ButtonState.onShortPressed => jogShort a direction s
  | ButtonState.onLongPressed => jogLong a direction s
  | ButtonState.onLongCanceled => Ok (cancelJog s)
  end.

(** [b.press()], [b.unpress()] and [b]'s timer callback, on the state. *)
Definition press (b : ButtonName) (s : State) : State :=
  let '(bs, q) := ButtonState.press (buttons s b) (ButtonTimeout b) (queue s) in
  set_queue q (set_button b bs s).

Definition unpress (b : ButtonName) (s : State) : result State :=
  let '(bs, q, cb) := ButtonState.unpress (buttons s b) (queue s) in
  let s' := set_queue q (set_button b bs s) in
  match cb with
  | Some c => invoke b c s'
  | None => Ok s'
  end.

Definition onTimeout (b : ButtonName) (s : State) : result State :=
  let '(bs, cb) := ButtonState.onTimeout (buttons s b) in
  invoke b cb (set_button b bs s).

(** ** Button handlers *)

Definition onXXX (value : Z) (s : State) : State :=
  emit (ConsoleLog (LogUnknownPressed value)) s.

Definition onLB (value : Z) (s : State) : State :=
  let s1 := set_lb (truthy value) s in
  let s2 := if negb (lb s1) then emit (SocketWrite JOG_CANCEL_CMD) s1 else s1 in
  if negb (lb s2) && spindle_active s2
  then set_spindle_active false (emit (SocketGcode M5) s2)
  else s2.

Definition onRB (value : Z) (s : State) : State :=
  let s1 := set_rb (truthy value) s in
  if negb (rb s1) && spindle_active s1
  then set_spindle_active false (emit (SocketGcode M5) s1)
  else s1.

Definition onStart (value : Z) (s : State) : State :=
  if value =? 1 then
    if negb (rb s) then emit (SocketCommand "unlock") s
    else emit (SocketCommand "reset") s
  else s.

Definition onA (value : Z) (s : State) : result State :=
  if value =? 1 then
    if negb (lb s) && negb (rb s) then Ok (emit (SocketCommand "gcode:resume") s)
    else if lb s then
      if lb s then Ok (press a_z_down s) else Ok s
    else Ok s
  else unpress a_z_down s.

Definition onB (value : Z) (s : State) : State :=
  if value =? 1 then
    if negb (rb s) then emit (SocketCommand "gcode:pause") s else s
  else s.

Definition onX (value : Z) (s : State) : State := s.

Definition onY (value : Z) (s : State) : result State :=
  if value =? 1 then
    if negb (lb s) && negb (rb s) then Ok s
    else if lb s then
      if lb s then Ok (press y_z_up s) else Ok s
    else if rb s then Ok (emit (SocketCommand "homing") s)
    else Ok s
  else unpress y_z_up s.

Definition onL3 (value : Z) (s : State) : State := s.
Definition onR3 (value : Z) (s : State) : State := s.

(** ** D-pad handlers *)

Definition onPADX (value : Z) (s : State) : result State :=
  if lb s then
    if value =? - JOYSTICK_AXIS_MAX then Ok (press pad_x_left s)
    else if value =? JOYSTICK_AXIS_MAX then Ok (press pad_x_right s)
    else s' ← unpress pad_x_left s; unpress pad_x_right s'
  else
    if value =? - JOYSTICK_AXIS_MAX then
      Ok (set_step_distance_selection
            (Selector.decrease (step_distance_selection s)) s)
    else if value =? JOYSTICK_AXIS_MAX then
      Ok (set_step_distance_selection
            (Selector.increase (step_distance_selection s)) s)
    else Ok s.

Definition onPADY (value : Z) (s : State) : result State :=
  if lb s then
    if value =? - JOYSTICK_AXIS_MAX then Ok (press pad_y_up s)
    else if value =? JOYSTICK_AXIS_MAX then Ok (press pad_y_down s)
    else s' ← unpress pad_y_up s; unpress pad_y_down s'
  else
    if value =? - JOYSTICK_AXIS_MAX then
      Ok (set_step_feedrate_selection
            (Selector.increase (step_feedrate_selection s)) s)
    else if value =? JOYSTICK_AXIS_MAX then
      Ok (set_step_feedrate_selection
            (Selector.decrease (step_feedrate_selection s)) s)
    else Ok s.

(** ** Triggers and the spindle *)

Definition onLT (value : Z) (s : State) : State := set_lt value s.
Definition onRT (value : Z) (s : State) : State := set_rt value s.

(** [triggerMovement]: the call passes five arguments to [map]; the
    declaration in force reads the first three. *)
Definition triggerMovement (s : State) : State :=
  if lb s && rb s then
    let s1 := set_spindle_active true s in
    emit (SocketGcode (M3 (map (inject_Z (rt s1))
                               (inject_Z (- JOYSTICK_AXIS_MAX))
                               (inject_Z JOYSTICK_AXIS_MAX)))) s1
  else s.

(** ** Sticks *)

Definition onLSX (value : Z) (s : State) : State :=
  set_stick left_x (AxisState.update value) s.
Definition onLSY (value : Z) (s : State) : State :=
  set_stick left_y (AxisState.update (- value)) s.
Definition onRSX (value : Z) (s : State) : State :=
  set_stick right_x (AxisState.update value) s.
Definition onRSY (value : Z) (s : State) : State :=
  set_stick right_y (AxisState.update (- value)) s.

Definition stickMovement (s : State) : State :=
  if lb s then
    let x := sticks s left_x in
    let y := sticks s left_y in
    let z := sticks s right_y in
    if AxisState.active x || AxisState.active y || AxisState.active z
    then jog (JogSticks x y z) s
    else s
  else s.

(** [checkController]. *)
Definition checkController (s : State) : State :=
  if negb (controller_connected s) then emit JoyOpen s else s.

(** ** Control dispatch *)

(** An entry of [BUTTONS] or [AXES]: the name and the handler. *)
Record Control := mkControl {
  id : string;
  cb : Z -> State -> result State
}.

(** A handler that cannot raise. *)
Definition plain (h : Z -> State -> State) : Z -> State -> result State :=
  fun value s => Ok (h value s).

Definition BUTTONS : gmap Z Control :=
  list_to_map
    [ (0, {| id := "A"; cb := onA |});
      (1, {| id := "B"; cb := plain onB |});
      (2, {| id := "2"; cb := plain onXXX |});
      (3, {| id := "X"; cb := plain onX |});
      (4, {| id := "Y"; cb := onY |});
      (5, {| id := "5"; cb := plain onXXX |});
      (6, {| id := "LB"; cb := plain onLB |});
      (7, {| id := "RB"; cb := plain onRB |});
      (8, {| id := "8"; cb := plain onXXX |});
      (9, {| id := "9"; cb := plain onXXX |});
      (10, {| id := "10"; cb := plain onXXX |});
      (11, {| id := "START"; cb := plain onStart |});
      (12, {| id := "12"; cb := plain onXXX |});
      (13, {| id := "L3"; cb := plain onL3 |});
      (14, {| id := "R3"; cb := plain onR3 |}) ].

Definition AXES : gmap Z Control :=
  list_to_map
    [ (0, {| id := "LSX"; cb := plain onLSX |});
      (1, {| id := "LSY"; cb := plain onLSY |});
      (2, {| id := "RSX"; cb := plain onRSX |});
      (3, {| id := "RSY"; cb := plain onRSY |});
      (4, {| id := "RT"; cb := plain onRT |});
      (5, {| id := "LT"; cb := plain onLT |});
      (6, {| id := "PADX"; cb := onPADX |});
      (7, {| id := "PADY"; cb := onPADY |}) ].

(** [joy.on('button', ...)]: [BUTTONS[e.number]] is [undefined] for a number
    that is not a key, and reading [.id] or [.cb] of [undefined] raises. *)
Definition on_joy_button (e : Joystick.Event) (s : State) : result State :=
  if Joystick.init e then
    match BUTTONS !! Joystick.number e with
    | Some c => Ok (emit (ConsoleLog (LogControl (id c) (Joystick.value e))) s)
    | None => Throw TypeError
    end
  else
    match BUTTONS !! Joystick.number e with
    | Some c => cb c (Joystick.value e) s
    | None => Throw TypeError
    end.

(** [joy.on('axis', ...)]. *)
Definition on_joy_axis (e : Joystick.Event) (s : State) : result State :=
  if Joystick.init e then
    match AXES !! Joystick.number e with
    | Some c => Ok (emit (ConsoleLog (LogControl (id c) (Joystick.value e))) s)
    | None => Throw TypeError
    end
  else
    match AXES !! Joystick.number e with
    | Some c =>
        cb c (Joystick.value e)
           (emit (ConsoleLog (LogControl (id c) (Joystick.value e))) s)
    | None => Throw TypeError
    end.

Definition on_joy_error (err : string) (s : State) : State :=
  set_controller_connected false (emit (ConsoleLog (LogJoystickError err)) s).

Definition on_joy_ready (s : State) : State :=
  set_controller_connected true (emit (ConsoleLog LogJoystickConnected) s).

(** ** The event loop *)

(** A bound on the timer firings still to come: a button timer counts
    twice, for the jog timer its long-press callback may arm. *)
Definition weight (a : TimerAction) : nat :=
  match a with
  | ButtonTimeout _ => 2
  | jogPendingTimeout => 1
  end.

Definition budget (s : State) : nat :=
  list_sum (List.map (fun t => weight (Timers.action t))
                     (Timers.armed (queue s))).

(** What the event loop can run next: a joystick emission, an
    acknowledgement line, the passing of time (which fires the due
    [setTimeout] callbacks), or one of the three [setInterval] callbacks. *)
Inductive Input :=
| JoystickEmit (o : Joystick.Emitted)
| JoystickReady
| SerialportRead (data : string)
| Elapse (dt : Z)
| StickTick
| TriggerTick
| ControllerTick.

Definition fire (a : TimerAction) (s : State) : result State :=
  match a with
  | ButtonTimeout b => onTimeout b s
  | jogPendingTimeout => Ok (run_jogPendingTimeout s)
  end.

Definition step (s : State) (i : Input) : result State :=
  match i with
  | JoystickEmit (Joystick.EmitError err) => Ok (on_joy_error err s)
  | JoystickEmit (Joystick.EmitEvent (Some Joystick.button) e) => on_joy_button e s
  | JoystickEmit (Joystick.EmitEvent (Some Joystick.axis) e) => on_joy_axis e s
  | JoystickEmit (Joystick.EmitEvent None e) => Ok s
  | JoystickReady => Ok (on_joy_ready s)
  | SerialportRead data => Ok (on_serialport_read data s)
  | Elapse dt => Timers.elapse queue set_queue fire dt s
  | StickTick => Ok (stickMovement s)
  | TriggerTick => Ok (triggerMovement s)
  | ControllerTick => Ok (checkController s)
  end.

(** An uncaught exception ends the process: the run stops there. *)
Fixpoint run (s : State) (inputs : list Input) : result State :=
  match inputs with
  | [] => Ok s
  | i :: inputs' => s' ← step s i; run s' inputs'
  end.

(** The joystick and the pendant together, fed 8-byte device records. *)
Definition on_record (js : Joystick.FilterState * State) (buffer : Joystick.Buffer)
  : result (Joystick.FilterState * State) :=
  match Joystick.onRead JOYSTICK_ID JOYSTICK_DEADZONE JOYSTICK_SENSITIVITY
                        (fst js) None buffer with
  | Some (f, Some o) => s ← step (snd js) (JoystickEmit o); Ok (f, s)
  | Some (f, None) => Ok (f, snd js)
  | None => Throw "RangeError"
  end.

(** A button or axis event as the joystick emits it for control [n]. *)
Definition button_input (n v : Z) : Input :=
  JoystickEmit
    (Joystick.EmitEvent (Some Joystick.button)
       {| Joystick.time := 0; Joystick.value := v; Joystick.number := n;
          Joystick.init := false; Joystick.type := Some Joystick.button;
          Joystick.id := JOYSTICK_ID |}).

Definition axis_input (n v : Z) : Input :=
  JoystickEmit
    (Joystick.EmitEvent (Some Joystick.axis)
       (Joystick.axis_event JOYSTICK_ID n v)).

(** ** Reading the output *)

(** The jog commands sent, oldest first. *)
Definition jogs_sent (s : State) : list Gcode :=
  omap (fun o => match o with
                 | SocketGcode (JogAxis a d f) => Some (JogAxis a d f)
                 | SocketGcode (JogSticks x y z) => Some (JogSticks x y z)
                 | _ => None
                 end) (out s).

(** The spindle speeds sent with [M3], oldest first. *)
Definition spindle_speeds (s : State) : list Q :=
  omap (fun o => match o with
                 | SocketGcode (M3 speed) => Some speed
                 | _ => None
                 end) (out s).

(** What a run leaves to be seen of the throttle: the jog commands sent,
    the flag, and the clock with the armed timers. *)
Definition observe (r : result State)
  : option (list Gcode * bool * Timers.Queue TimerAction) :=
  match r with
  | Ok s => Some (jogs_sent s, jog_pending s, queue s)
  | Throw _ => None
  end.

(** A handler that, run with [jog_pending] set, sends no jog command and
    leaves the flag set. *)
Definition blocked (h : State -> result State) : Prop :=
  forall s s', jog_pending s = true -> h s = Ok s' ->
               jogs_sent s' = jogs_sent s /\ jog_pending s' = true.

(** A handler that, run with [jog_pending] clear, either sends no jog
    command and leaves the flag clear, or sends exactly one and sets it. *)
Definition throttled (h : State -> result State) : Prop :=
  forall s s', jog_pending s = false -> h s = Ok s' ->
               (jogs_sent s' = jogs_sent s /\ jog_pending s' = false)
               \/ (exists cmd, jogs_sent s' = jogs_sent s ++ [cmd]
                                /\ jog_pending s' = true).

(** The inputs that can clear [jog_pending]: time passing, which fires the
    due timers, and an acknowledgement line. *)
Definition may_clear (i : Input) : bool :=
  match i with
  | Elapse _ | SerialportRead _ => true
  | _ => false
  end.

(** ** Properties of states and inputs *)

(** A handler keeps [P]. *)
Definition keeps (P : State -> Prop) (h : State -> result State) : Prop :=
  forall s s', P s -> h s = Ok s' -> P s'.

(** Both selectors hold their option list and an index inside it. *)
Definition selectors_in_range (s : State) : Prop :=
  Selector.in_range (step_distance_selection s)
  /\ Selector.options (step_distance_selection s) = STEP_DISTANCES
  /\ Selector.in_range (step_feedrate_selection s)
  /\ Selector.options (step_feedrate_selection s) = STEP_FEEDRATES.

(** The joystick events whose control is a key of the table they are
    looked up in; every other input counts as known. *)
Definition in_tables (i : Input) : bool :=
  match i with
  | JoystickEmit (Joystick.EmitEvent (Some Joystick.button) e) =>
      (0 <=? Joystick.number e) && (Joystick.number e <=? 14)
  | JoystickEmit (Joystick.EmitEvent (Some Joystick.axis) e) =>
      (0 <=? Joystick.number e) && (Joystick.number e <=? 7)
  | _ => true
  end.

(** Reading the spindle commands off the output, oldest first: whether
    every [M5] so far came with the spindle on, and whether the spindle is
    on now (an [M3] was sent and no [M5] since). *)
Definition spindle_edge (st : bool * bool) (o : Out) : bool * bool :=
  match o with
  | SocketGcode (M3 _) => (fst st, true)
  | SocketGcode M5 => (fst st && snd st, false)
  | _ => st
  end.

Definition spindle_edges (l : list Out) : bool * bool :=
  fold_left spindle_edge l (true, false).

Definition spindle_tracked (s : State) : Prop :=
  spindle_edges (out s) = (true, spindle_active s).

(** The input that takes the deadman switch: a press of LB (button 6). *)
Definition presses_LB (i : Input) : bool :=
  match i with
  | JoystickEmit (Joystick.EmitEvent (Some Joystick.button) e) =>
      negb (Joystick.init e) && (Joystick.number e =? 6)
      && truthy (Joystick.value e)
  | _ => false
  end.

(** LB is up and no gesture is under way: no button is pending and no
    button timer is armed. *)
Definition at_rest (s : State) : Prop :=
  lb s = false
  /\ (forall b, ButtonState.pending (buttons s b) = false)
  /\ Forall (fun t => Timers.action t = jogPendingTimeout)
            (Timers.armed (queue s)).

(** The pendant is at rest and the jog commands sent so far are [sent]. *)
Definition resting (sent : list Gcode) (s : State) : Prop :=
  at_rest s /\ jogs_sent s = sent.

(** What the state of LB and RB lets the pendant send: each command name
    under its combination of the two, the spindle start and the stick jog
    under theirs; nothing on the write channel but the jog cancel, and no
    other command name at all. *)
Definition allowed (lb rb : bool) (o : Out) : bool :=
  match o with
  | SocketCommand name =>
      if String.eqb name "unlock" then negb rb
      else if String.eqb name "reset" then rb
      else if String.eqb name "gcode:resume" then negb lb && negb rb
      else if String.eqb name "gcode:pause" then negb rb
      else if String.eqb name "homing" then negb lb && rb
      else false
  | SocketWrite data => String.eqb data JOG_CANCEL_CMD
  | SocketGcode (M3 _) => lb && rb
  | SocketGcode (JogSticks _ _ _) => lb
  | SocketGcode (JogAxis _ _ _) | SocketGcode M5 => true
  | ConsoleLog _ | JoyOpen => true
  end.

(** A handler that only adds to the output, and only what LB and RB, as
    they are when it starts, allow. *)
Definition gated (h : State -> result State) : Prop :=
  forall s s', h s = Ok s' ->
  exists new, out s' = out s ++ new
              /\ forallb (allowed (lb s) (rb s)) new = true.

(** Each stick is active exactly when its value is not 0. *)
Definition sticks_settled (s : State) : Prop :=
  forall n, AxisState.active (sticks s n)
            = negb (AxisState.value (sticks s n) =? 0).

(** A stick jog names at least one active stick, and no active stick at
    the value 0. *)
Definition stick_jog_sound (o : Out) : Prop :=
  match o with
  | SocketGcode (JogSticks x y z) =>
      (AxisState.active x = true -> AxisState.value x <> 0)
      /\ (AxisState.active y = true -> AxisState.value y <> 0)
      /\ (AxisState.active z = true -> AxisState.value z <> 0)
      /\ AxisState.active x || AxisState.active y || AxisState.active z = true
  | _ => True
  end.

(** The sticks are settled and every stick jog sent was sound. *)
Definition stick_jogs_sound (s : State) : Prop :=
  sticks_settled s /\ Forall stick_jog_sound (out s).

(** The timer queue, the handles the buttons hold and the throttle flag
    fit together: the ids handed out are below the next one, a timer that
    carries the handle of a button is the timer of that button, no id is
    shared by two callbacks, and while the flag is set one of its timers
    is armed, due within [JOG_COMMAND_TIMEOUT]. *)
Definition queue_sound (q : Timers.Queue TimerAction) (ids : ButtonName -> Z)
    (flag : bool) : Prop :=
  (forall t, t ∈ Timers.armed q -> Timers.tid t < Timers.next_id q)
  /\ (forall b, ids b < Timers.next_id q)
  /\ (forall b t, t ∈ Timers.armed q -> Timers.tid t = ids b ->
                  Timers.action t = ButtonTimeout b)
  /\ (forall t t', t ∈ Timers.armed q -> t' ∈ Timers.armed q ->
                   Timers.tid t = Timers.tid t' ->
                   Timers.action t = Timers.action t')
  /\ (flag = true ->
      exists t, t ∈ Timers.armed q
                /\ Timers.action t = jogPendingTimeout
                /\ Timers.due t <= Timers.clock q + JOG_COMMAND_TIMEOUT).

Definition timers_sound (s : State) : Prop :=
  queue_sound (queue s) (fun b => ButtonState.timeout_id (buttons s b))
              (jog_pending s).

(** ** The motion vector of a continuous jog *)

(** [toFixed] of a number that is not a fraction of integers, such as the
    norm [decideFeedrate] returns: the same rounding as [toFixed], with
    [Int_part] for the floor. *)
Definition toFixedR (digits : nat) (x : R) : R :=
  let scale := IZR (10 ^ Z.of_nat digits) in
  let n := IZR (Int_part (Rabs x * scale + / 2)) in
  ((if Rle_dec 0 x then n else - n) / scale)%R.

(** [jogDistance(jog_feedrate)]. *)
Definition jogDistance (jog_feedrate : R) : R :=
  toFixedR 4 ((jog_feedrate / 60) * (IZR JOG_COMMAND_INTERVAL / 1000) * (12 / 10))%R.

(** [motionVector(x, y, z, jog_feedrate)]: the letters and numbers the
    string is built from, in order. *)
Definition motionVector (x y z : AxisState.t) (jog_feedrate : R)
  : list (Axis * R) :=
  let jog_distance := jogDistance jog_feedrate in
  (if AxisState.active x
   then [(X, (IZR (AxisState.sign x) * jog_distance)%R)] else [])
  ++ (if AxisState.active y
      then [(Y, (IZR (AxisState.sign y) * jog_distance)%R)] else [])
  ++ (if AxisState.active z
      then [(Z_axis, (IZR (AxisState.sign z) * jog_distance)%R)] else []).

(** The stick behind each letter. *)
Definition stick_of (x y z : AxisState.t) (a : Axis) : AxisState.t :=
  match a with
  | X => x
  | Y => y
  | Z_axis => z
  end.

(** ** The device, the joystick and the pendant together *)

(** The device records read one after the other. *)
Fixpoint run_records (js : Joystick.FilterState * State)
    (buffers : list Joystick.Buffer) : result (Joystick.FilterState * State) :=
  match buffers with
  | [] => Ok js
  | buffer :: buffers' => js' ← on_record js buffer; run_records js' buffers'
  end.

(** A value the joystick can hand over for an axis: 0 or outside the
    deadzone, and a 16-bit reading or the negation of one. *)
Definition filtered (v : Z) : Prop :=
  (v = 0 \/ JOYSTICK_DEADZONE <= Z.abs v) /\ Z.abs v <= 2 ^ 15.

(** The sticks and the triggers hold filtered values, and a stick is active
    exactly at a value other than 0. *)
Definition axes_filtered (s : State) : Prop :=
  (forall n, filtered (AxisState.value (sticks s n))
             /\ AxisState.active (sticks s n)
                = negb (AxisState.value (sticks s n) =? 0))
  /\ filtered (lt s) /\ filtered (rt s).

End Pendant.

(* ===================================================================== *)
(** * index.js: the socket *)
(* ===================================================================== *)

Module Session.

(** The variable [socket] is the connection [io.connect] returned, until
    the listener for the socket's ['error'] event destroys it and sets the
    variable to [null].  [stderr] holds what [console.error] wrote. *)
Record State := mkState {
  socket : bool;
  stderr : list string;
  pendant : Pendant.State
}.

Definition initial : State :=
  {| socket := true; stderr := []; pendant := Pendant.initial |}.

(** What the event loop can run: the socket's ['error'] listener, or
    anything the pendant itself listens to. *)
Inductive Input :=
| SocketError (err : string)
| Loop (i : Pendant.Input).

(** The outputs that are calls of [socket.emit]. *)
Definition uses_socket (o : Pendant.Out) : bool :=
  match o with
  | Pendant.SocketWrite _ | Pendant.SocketCommand _ | Pendant.SocketGcode _ =>
      true
  | Pendant.ConsoleLog _ | Pendant.JoyOpen => false
  end.

(** What a run of a handler added to the output. *)
Definition added (s s' : Pendant.State) : list Pendant.Out :=
  drop (length (Pendant.out s)) (Pendant.out s').

(** [socket.on('error', ...)]. *)
Definition on_socket_error (err : string) (s : State) : State :=
  {| socket := false;
     stderr := stderr s ++ [String.append "CNC socket error: " err];
     pendant := pendant s |}.

(** A handler run while [socket] is [null] raises at its first
    [socket.emit]: reading [emit] of [null] is a [TypeError]. *)
Definition step (s : State) (i : Input) : result State :=
  match i with
  | SocketError err => Ok (on_socket_error err s)
  | Loop i' =>
      p ← Pendant.step (pendant s) i';
      if socket s || negb (existsb uses_socket (added (pendant s) p))
      then Ok {| socket := socket s; stderr := stderr s; pendant := p |}
      else Throw TypeError
  end.

Fixpoint run (s : State) (inputs : list Input) : result State :=
  match inputs with
  | [] => Ok s
  | i :: inputs' => s' ← step s i; run s' inputs'
  end.

(** The inputs that are the socket's ['error'] event. *)
Definition socket_error (i : Input) : bool :=
  match i with
  | SocketError _ => true
  | Loop _ => false
  end.

(** The inputs that name a control of the tables, if they name one. *)
Definition in_tables (i : Input) : bool :=
  match i with
  | SocketError _ => true
  | Loop i' => Pendant.in_tables i'
  end.

End Session.

(* ===================================================================== *)
(** * Properties of the decoder *)
(* ===================================================================== *)

Section Decoder.

Import Joystick.

Lemma unsigned_range (b : byte) : 0 <= unsigned b < 256.
Proof. unfold unsigned. pose proof (Byte.to_N_bounded b). lia. Qed.

(** Masking with a single bit selects that bit. *)
Lemma land_pow2 (a n : Z) :
  0 <= n -> Z.land a (2 ^ n) = if Z.testbit a n then 2 ^ n else 0.
Proof.
  intros Hn. apply Z.bits_inj'. intros m Hm.
  rewrite Z.land_spec, Z.pow2_bits_eqb by lia.
  destruct (Z.eqb_spec n m) as [-> | Hne].
  - destruct (Z.testbit a m); simpl.
    + rewrite Z.pow2_bits_eqb, Z.eqb_refl by lia. reflexivity.
    + rewrite Z.bits_0. reflexivity.
  - rewrite andb_false_r.
    destruct (Z.testbit a n).
    + rewrite Z.pow2_bits_eqb by lia. symmetry. apply Z.eqb_neq. exact Hne.
    + rewrite Z.bits_0. reflexivity.
Qed.

(** The flag tests of [parse] are bit tests. *)
Lemma flag_is_bit (ty n : Z) :
  0 <= n -> truthy (Z.land ty (2 ^ n)) = Z.testbit ty n.
Proof.
  intros Hn. rewrite land_pow2 by exact Hn. unfold truthy.
  destruct (Z.testbit ty n); [| reflexivity].
  destruct (Z.eqb_spec (2 ^ n) 0) as [H0 | _]; [| reflexivity].
  pose proof (Z.pow_pos_nonneg 2 n). lia.
Qed.

(** A 16-bit value has no bit in common with a multiple of [2^16]. *)
Lemma lor_high (val : Z) :
  0 <= val < 2 ^ 16 -> Z.lor val (65535 * 2 ^ 16) = val + 65535 * 2 ^ 16.
Proof.
  intros H.
  assert (Hland : Z.land val (65535 * 2 ^ 16) = 0).
  { apply Z.bits_inj'. intros m Hm. rewrite Z.land_spec, Z.bits_0.
    destruct (Z.lt_ge_cases m 16).
    - rewrite Z.mul_pow2_bits_low by lia. apply andb_false_r.
    - destruct (Z.eq_dec val 0) as [-> | Hnz]; [rewrite Z.bits_0; reflexivity |].
      rewrite (Z.bits_above_log2 val m); [reflexivity | lia |].
      apply Z.log2_lt_pow2; [lia |].
      apply Z.lt_le_trans with (2 ^ 16); [lia |].
      apply Z.pow_le_mono_r; lia. }
  rewrite <- Z.lxor_lor by exact Hland.
  symmetry. apply Z.add_nocarry_lxor. exact Hland.
Qed.

(** Node's sign extension is the two's complement reading. *)
Lemma sign_extension (val : Z) :
  0 <= val < 2 ^ 16 ->
  to_int32 (Z.lor val (Z.land val (2 ^ 15) * 0x1fffe)) = int16 val.
Proof.
  intros Hval. rewrite land_pow2 by lia. unfold int16, to_int32.
  destruct (Z.ltb_spec val (2 ^ 15)) as [Hlt | Hge].
  - assert (Hbit : Z.testbit val 15 = false).
    { apply Z.testbit_false; [lia |]. rewrite Z.div_small by lia. reflexivity. }
    rewrite Hbit. simpl Z.mul. rewrite Z.lor_0_r.
    rewrite Z.mod_small; lia.
  - assert (Hbit : Z.testbit val 15 = true).
    { apply Z.testbit_true; [lia |].
      replace (val / 2 ^ 15) with 1; [reflexivity |].
      apply Z.div_unique with (val - 2 ^ 15); lia. }
    rewrite Hbit.
    replace (2 ^ 15 * 0x1fffe) with (65535 * 2 ^ 16) by reflexivity.
    rewrite lor_high by lia.
    replace (val + 65535 * 2 ^ 16 + 2 ^ 31)
      with (val - 2 ^ 16 + 2 ^ 31 + 1 * 2 ^ 32) by lia.
    rewrite Z.mod_add by lia. rewrite Z.mod_small; lia.
Qed.

Lemma int16_range (val : Z) :
  0 <= val < 2 ^ 16 -> - 2 ^ 15 <= int16 val < 2 ^ 15.
Proof. unfold int16. intros H. destruct (Z.ltb_spec val (2 ^ 15)); lia. Qed.

(** C9 (as amended).  [parse] returns an event for every 8-byte record:
    [time] is the little-endian unsigned 32-bit reading of bytes 0-3,
    [value] the little-endian two's complement 16-bit reading of bytes 4-5,
    [number] is byte 7 and [init] is bit 7 of byte 6.  The kind is ['axis']
    exactly when bit 1 of byte 6 is set, ['button'] exactly when bit 0 is
    set and bit 1 is clear, and absent exactly when both are clear. *)
Theorem parse_layout (joy_id : Z) (b0 b1 b2 b3 b4 b5 b6 b7 : byte) :
  exists e : Event,
    parse joy_id [b0; b1; b2; b3; b4; b5; b6; b7] = Some e
    /\ time e = unsigned b0 + unsigned b1 * 2 ^ 8 + unsigned b2 * 2 ^ 16
                + unsigned b3 * 2 ^ 24
    /\ 0 <= time e < 2 ^ 32
    /\ value e = int16 (unsigned b4 + unsigned b5 * 2 ^ 8)
    /\ - 2 ^ 15 <= value e < 2 ^ 15
    /\ number e = unsigned b7
    /\ init e = Z.testbit (unsigned b6) 7
    /\ (type e = Some axis <-> Z.testbit (unsigned b6) 1 = true)
    /\ (type e = Some button <->
         Z.testbit (unsigned b6) 0 = true /\ Z.testbit (unsigned b6) 1 = false)
    /\ (type e = None <->
         Z.testbit (unsigned b6) 0 = false /\ Z.testbit (unsigned b6) 1 = false)
    /\ id e = joy_id.
Proof.
  pose proof (unsigned_range b0). pose proof (unsigned_range b1).
  pose proof (unsigned_range b2). pose proof (unsigned_range b3).
  pose proof (unsigned_range b4). pose proof (unsigned_range b5).
  pose proof (flag_is_bit (unsigned b6) 0 ltac:(lia)) as F0.
  pose proof (flag_is_bit (unsigned b6) 1 ltac:(lia)) as F1.
  pose proof (flag_is_bit (unsigned b6) 7 ltac:(lia)) as F7.
  change (2 ^ 0) with 0x01 in F0. change (2 ^ 1) with 0x02 in F1.
  change (2 ^ 7) with 0x80 in F7.
  eexists. split; [reflexivity |]. cbn [time value number init type id].
  rewrite sign_extension by lia. rewrite F0, F1, F7.
  repeat split; try lia; try (apply int16_range; lia);
    destruct (Z.testbit (unsigned b6) 0), (Z.testbit (unsigned b6) 1);
    try congruence; try tauto; intuition congruence.
Qed.

(** C9 (as stated) fails for a record whose type byte has bits 0 and 1
    both set: bit 0 is set and the kind is ['axis'], not ['button']. *)
Lemma parse_button_bit_overridden :
  ~ (forall (buffer : Buffer) (e : Event) (ty : Z),
       length buffer = 8%nat ->
       parse 0 buffer = Some e ->
       byte_at buffer 6 = Some ty ->
       (type e = Some button <-> Z.testbit ty 0 = true)).
Proof.
  intros H.
  specialize (H [x00; x00; x00; x00; x01; x00; x03; x00]%byte _ 3
                eq_refl eq_refl eq_refl).
  destruct H as [_ H]. specialize (H eq_refl). discriminate H.
Qed.

End Decoder.

(* ===================================================================== *)
(** * Properties of the selector *)
(* ===================================================================== *)

Section SelectorFacts.

Context {T : Type}.
Implicit Types (s : Selector.t T) (ops : list Selector.Op).

Lemma increase_in_range s : Selector.in_range s -> Selector.in_range (Selector.increase s).
Proof. unfold Selector.in_range, Selector.increase. simpl. lia. Qed.

Lemma decrease_in_range s : Selector.in_range s -> Selector.in_range (Selector.decrease s).
Proof. unfold Selector.in_range, Selector.decrease. simpl. lia. Qed.

Lemma apply_in_range s o : Selector.in_range s -> Selector.in_range (Selector.apply s o).
Proof. destruct o; [apply increase_in_range | apply decrease_in_range]. Qed.

Lemma apply_options s o : Selector.options (Selector.apply s o) = Selector.options s.
Proof. destruct o; reflexivity. Qed.

Lemma fold_apply_in_range ops s :
  Selector.in_range s ->
  Selector.in_range (fold_left Selector.apply ops s)
  /\ Selector.options (fold_left Selector.apply ops s) = Selector.options s.
Proof.
  revert s. induction ops as [| o ops IH]; intros s Hs; simpl.
  - split; [exact Hs | reflexivity].
  - destruct (IH (Selector.apply s o) (apply_in_range s o Hs)) as [Hr Ho].
    split; [exact Hr |]. rewrite Ho. apply apply_options.
Qed.

Lemma get_in_range s :
  Selector.in_range s -> exists x, Selector.get s = Some x /\ x ∈ Selector.options s.
Proof.
  unfold Selector.in_range, Selector.get. intros Hs.
  destruct (Z.ltb_spec (Selector.index s) 0) as [Hneg | _]; [lia |].
  destruct (lookup_lt_is_Some_2 (Selector.options s) (Z.to_nat (Selector.index s)))
    as [x Hx]; [lia |].
  exists x. split; [exact Hx |]. apply list_elem_of_lookup. eauto.
Qed.

(** C8.  Started with its index inside the options, a selector keeps it
    there through every sequence of [increase] and [decrease]; at the last
    index [increase] changes nothing, at index 0 [decrease] changes nothing,
    and [get] returns an element of the options. *)
Theorem selector_index_bounded s ops :
  0 <= Selector.index s <= Z.of_nat (length (Selector.options s)) - 1 ->
  let s' := fold_left Selector.apply ops s in
  Selector.options s' = Selector.options s
  /\ 0 <= Selector.index s' <= Z.of_nat (length (Selector.options s)) - 1
  /\ (Selector.index s' = Z.of_nat (length (Selector.options s)) - 1 ->
      Selector.increase s' = s')
  /\ (Selector.index s' = 0 -> Selector.decrease s' = s')
  /\ exists x, Selector.get s' = Some x /\ x ∈ Selector.options s.
Proof.
  intros Hs s'.
  destruct (fold_apply_in_range ops s Hs) as [Hr Ho]. fold s' in Hr, Ho.
  destruct (get_in_range s' Hr) as (x & Hx & Hin).
  unfold Selector.in_range in Hr. rewrite Ho in Hr, Hin.
  split; [exact Ho |]. split; [exact Hr |].
  split; [| split].
  - intros Hlast. destruct s' as [i o]. simpl in *. subst o.
    unfold Selector.increase. simpl. f_equal. lia.
  - intros Hfirst. destruct s' as [i o]. simpl in *.
    unfold Selector.decrease. simpl. f_equal. lia.
  - exists x. split; assumption.
Qed.

End SelectorFacts.

(** The step-distance selector of the pendant, pushed past its upper end
    and back. *)
Lemma selector_index_bounded_witness :
  let s := Selector.new 2 Pendant.STEP_DISTANCES in
  let s' := fold_left Selector.apply
              [Selector.Increase; Selector.Increase; Selector.Decrease] s in
  0 <= Selector.index s <= Z.of_nat (length (Selector.options s)) - 1
  /\ Selector.options s' = Selector.options s
  /\ 0 <= Selector.index s' <= Z.of_nat (length (Selector.options s)) - 1
  /\ (Selector.index s' = Z.of_nat (length (Selector.options s)) - 1 ->
      Selector.increase s' = s')
  /\ (Selector.index s' = 0 -> Selector.decrease s' = s')
  /\ exists x, Selector.get s' = Some x /\ x ∈ Selector.options s.
Proof.
  split; [simpl; lia |].
  apply (selector_index_bounded (Selector.new 2 Pendant.STEP_DISTANCES)
           [Selector.Increase; Selector.Increase; Selector.Decrease]).
  simpl; lia.
Defined.

(* ===================================================================== *)
(** * Properties of the event loop *)
(* ===================================================================== *)

Section QueueFacts.

Context {A : Type}.
Implicit Types (t : Timers.Timer A) (ts : list (Timers.Timer A))
               (q : Timers.Queue A).

Lemma earliest_spec ts :
  match Timers.earliest ts with
  | Some t => t ∈ ts /\ Forall (fun t' => Timers.due t <= Timers.due t') ts
  | None => ts = []
  end.
Proof.
  induction ts as [| t ts IH]; simpl; [reflexivity |].
  destruct (Timers.earliest ts) as [t' |].
  - destruct IH as [Hin Hall].
    destruct (Z.ltb_spec (Timers.due t') (Timers.due t)).
    + split; [right; exact Hin |].
      constructor; [lia | exact Hall].
    + split; [left |].
      constructor; [lia |].
      eapply Forall_impl; [exact Hall |]. simpl. intros; lia.
  - subst ts. split; [left |]. repeat constructor. lia.
Qed.

(** A queue from which nothing pops at [target] has no timer due by then. *)
Lemma pop_due_none target q :
  Timers.pop_due target q = None ->
  Forall (fun t => target < Timers.due t) (Timers.armed q).
Proof.
  unfold Timers.pop_due. pose proof (earliest_spec (Timers.armed q)) as He.
  destruct (Timers.earliest (Timers.armed q)) as [t |].
  - destruct He as [_ Hall].
    destruct (Z.leb_spec (Timers.due t) target); [discriminate |].
    intros _. eapply Forall_impl; [exact Hall |]. simpl. intros; lia.
  - intros _. rewrite He. constructor.
Qed.

(** The timer that pops was armed, and it is not armed afterwards. *)
Lemma pop_due_some target q t q' :
  Timers.pop_due target q = Some (t, q') ->
  t ∈ Timers.armed q
  /\ Timers.armed q'
     = List.filter (fun t' => negb (Timers.tid t' =? Timers.tid t)) (Timers.armed q).
Proof.
  unfold Timers.pop_due. pose proof (earliest_spec (Timers.armed q)) as He.
  destruct (Timers.earliest (Timers.armed q)) as [t0 |]; [| discriminate].
  destruct He as [Hin _].
  destruct (Z.leb_spec (Timers.due t0) target); [| discriminate].
  intros [= <- <-]. split; [exact Hin | reflexivity].
Qed.

End QueueFacts.

Section LoopFacts.

Context {A S : Type}.
Variable get_queue : S -> Timers.Queue A.
Variable put_queue : Timers.Queue A -> S -> S.
Variable fire : A -> S -> result S.

(** A bound on the firings still to come that every firing lowers. *)
Variable budget : S -> nat.
Hypothesis budget_positive : forall target st t q,
  Timers.pop_due target (get_queue st) = Some (t, q) -> (0 < budget st)%nat.
Hypothesis budget_decreases : forall target st t q st',
  Timers.pop_due target (get_queue st) = Some (t, q) ->
  fire (Timers.action t) (put_queue q st) = Ok st' ->
  (budget st' < budget st)%nat.

(** With fuel for the whole budget, [fire_due] stops only when no timer is
    due. *)
Lemma fire_due_exhausts fuel target : forall st st',
  (budget st <= fuel)%nat ->
  Timers.fire_due get_queue put_queue fire fuel target st = Ok st' ->
  Timers.pop_due target (get_queue st') = None.
Proof.
  induction fuel as [| fuel IH]; intros st st' Hb; simpl.
  - intros [= <-].
    destruct (Timers.pop_due target (get_queue st)) as [[t q] |] eqn:Hp;
      [| reflexivity].
    pose proof (budget_positive _ _ _ _ Hp). lia.
  - destruct (Timers.pop_due target (get_queue st)) as [[t q] |] eqn:Hp.
    + destruct (fire (Timers.action t) (put_queue q st)) as [st1 | err] eqn:Hf;
        simpl; [| discriminate].
      pose proof (budget_decreases _ _ _ _ _ Hp Hf).
      apply IH. lia.
    + intros [= <-]. exact Hp.
Qed.

End LoopFacts.

Section PendantLoop.

Import Pendant.

Implicit Types (s : State) (t : Timers.Timer TimerAction).

Lemma budget_bound s : (budget s <= 2 * length (Timers.armed (queue s)))%nat.
Proof.
  unfold budget. induction (Timers.armed (queue s)) as [| t ts IH]; simpl; [lia |].
  destruct (Timers.action t); simpl; lia.
Qed.

Lemma budget_cleared (ts : list (Timers.Timer TimerAction)) t :
  t ∈ ts ->
  (list_sum (List.map (fun x => weight (Timers.action x))
              (List.filter (fun t' => negb (Timers.tid t' =? Timers.tid t)%Z) ts))
   + weight (Timers.action t)
   <= list_sum (List.map (fun x => weight (Timers.action x)) ts))%nat.
Proof.
  induction ts as [| t0 ts IH]; intros Hin; [inversion Hin |].
  assert (Hle : (list_sum (List.map (fun x => weight (Timers.action x))
                   (List.filter (fun t' => negb (Timers.tid t' =? Timers.tid t)%Z) ts))
                 <= list_sum (List.map (fun x => weight (Timers.action x)) ts))%nat).
  { clear. induction ts as [| t1 ts IH]; simpl; [lia |].
    destruct (negb (Timers.tid t1 =? Timers.tid t)); simpl; lia. }
  apply elem_of_cons in Hin. destruct Hin as [<- | Hin].
  - simpl. rewrite Z.eqb_refl. simpl. lia.
  - specialize (IH Hin). simpl.
    destruct (negb (Timers.tid t0 =? Timers.tid t)); simpl; lia.
Qed.

Lemma jog_budget cmd s : (budget (jog cmd s) <= budget s + 1)%nat.
Proof.
  unfold jog. destruct (jog_pending s) eqn:Hp; simpl; [lia |].
  destruct s. unfold budget. simpl.
  rewrite List.map_app, list_sum_app. simpl. lia.
Qed.

Lemma fire_budget (a : TimerAction) s s' :
  fire a s = Ok s' -> (budget s' + 1 <= budget s + weight a)%nat.
Proof.
  destruct a as [b |]; simpl.
  - unfold onTimeout, invoke. simpl.
    destruct (binding b) as [ax direction]. unfold jogLong.
    destruct (Selector.get _) as [f |]; [| discriminate].
    intros [= <-].
    match goal with |- context [jog ?c ?s0] => pose proof (jog_budget c s0) as Hj end.
    destruct s. unfold budget in *. simpl in *. lia.
  - intros [= <-]. destruct s. unfold budget. simpl. lia.
Qed.

Lemma pendant_budget_positive target s t q :
  Timers.pop_due target (queue s) = Some (t, q) -> (0 < budget s)%nat.
Proof.
  intros Hp. apply pop_due_some in Hp. destruct Hp as [Hin _].
  pose proof (budget_cleared _ _ Hin) as Hc. unfold budget.
  destruct (Timers.action t); simpl in Hc; lia.
Qed.

Lemma pendant_budget_decreases target s t q s' :
  Timers.pop_due target (queue s) = Some (t, q) ->
  fire (Timers.action t) (set_queue q s) = Ok s' ->
  (budget s' < budget s)%nat.
Proof.
  intros Hp Hf. apply pop_due_some in Hp. destruct Hp as [Hin Hq].
  pose proof (budget_cleared _ _ Hin) as Hc. rewrite <- Hq in Hc.
  apply fire_budget in Hf.
  assert (Hb : budget (set_queue q s)
               = list_sum (List.map (fun x => weight (Timers.action x))
                                    (Timers.armed q)))
    by (destruct s; reflexivity).
  unfold budget at 2. destruct (Timers.action t); simpl in *; lia.
Qed.

(** When time has passed, no timer that was due by then is still armed:
    the fuel [elapse] runs on is enough. *)
Lemma elapse_fires_every_due_timer s dt s' :
  step s (Elapse dt) = Ok s' ->
  Forall (fun t => Timers.clock (queue s) + dt < Timers.due t)
         (Timers.armed (queue s')).
Proof.
  simpl. unfold Timers.elapse.
  destruct (Timers.fire_due _ _ _ _ _ s) as [s1 | err] eqn:Hf; simpl;
    [| discriminate].
  intros [= <-].
  apply (fire_due_exhausts queue set_queue fire budget
           pendant_budget_positive pendant_budget_decreases) in Hf;
    [| apply budget_bound].
  apply pop_due_none in Hf. destruct s1. exact Hf.
Qed.

End PendantLoop.

Section ButtonLoop.

Import ButtonState.

Lemma cleared_shorter {A : Type} (ts : list (Timers.Timer A)) (t : Timers.Timer A) :
  t ∈ ts ->
  (length (List.filter (fun t' => negb (Timers.tid t' =? Timers.tid t)%Z) ts)
   < length ts)%nat.
Proof.
  induction ts as [| t0 ts IH]; intros Hin; [inversion Hin |].
  pose proof (List.filter_length_le
                (fun t' => negb (Timers.tid t' =? Timers.tid t)%Z) ts) as Hle.
  apply elem_of_cons in Hin. destruct Hin as [<- | Hin].
  - simpl. rewrite Z.eqb_refl. simpl. lia.
  - specialize (IH Hin). simpl.
    destruct (negb (Timers.tid t0 =? Timers.tid t)); simpl; lia.
Qed.

(** The same for a button on its own event loop. *)
Lemma button_elapse_fires_every_due_timer (w w' : World) (dt : Z) :
  step w (Elapse dt) = Ok w' ->
  Forall (fun t => Timers.clock (queue w) + dt < Timers.due t)
         (Timers.armed (queue w')).
Proof.
  simpl. unfold Timers.elapse.
  destruct (Timers.fire_due _ _ _ _ _ w) as [w1 | err] eqn:Hf; simpl;
    [| discriminate].
  intros [= <-].
  apply (fire_due_exhausts queue put_queue fire
           (fun x => length (Timers.armed (queue x)))) in Hf.
  - apply pop_due_none in Hf. exact Hf.
  - intros target st t q Hp. apply pop_due_some in Hp. destruct Hp as [Hin _].
    destruct (Timers.armed (queue st)); [inversion Hin | simpl; lia].
  - intros target st t q st' Hp. apply pop_due_some in Hp.
    destruct Hp as [Hin Hq]. unfold fire. simpl.
    intros [= <-]. simpl. rewrite Hq. apply cleared_shorter. exact Hin.
  - lia.
Qed.

End ButtonLoop.

(* ===================================================================== *)
(** * Properties of the button gesture state machine *)
(* ===================================================================== *)

Section ButtonFacts.

Import ButtonState.

Lemma effective_delay_id (T : Z) :
  1 <= T <= 2147483647 -> Timers.effective_delay T = T.
Proof.
  intros H. unfold Timers.effective_delay.
  destruct (Z.ltb_spec T 1); [lia |].
  destruct (Z.ltb_spec 2147483647 T); [lia | reflexivity].
Qed.

(** C5.  For a button with press-hold timeout [T]: a press released
    strictly before [T] runs the short-press callback exactly once and the
    long-press and long-cancel callbacks never, also as more time passes; a
    press held for [T] or longer runs the long-press callback exactly once,
    and the release that follows runs the long-cancel callback exactly once
    and the short-press callback never. *)
Theorem button_gesture_callbacks (T handle now next short long rest : Z) :
  1 <= T <= 2147483647 ->
  0 <= short < T ->
  T <= long ->
  (exists w,
      run (idle T handle now next) [Press; Elapse short; Unpress; Elapse rest] = Ok w
      /\ count onShortPressed w = 1%nat
      /\ count onLongPressed w = 0%nat
      /\ count onLongCanceled w = 0%nat)
  /\ (exists w,
      run (idle T handle now next) [Press; Elapse long] = Ok w
      /\ count onLongPressed w = 1%nat
      /\ count onShortPressed w = 0%nat
      /\ count onLongCanceled w = 0%nat
      /\ exists w',
          run w [Unpress; Elapse rest] = Ok w'
          /\ count onLongPressed w' = 1%nat
          /\ count onLongCanceled w' = 1%nat
          /\ count onShortPressed w' = 0%nat).
Proof.
  intros HT Hshort Hlong.
  assert (E1 : (now + T <=? now + short) = false) by (apply Z.leb_gt; lia).
  assert (E2 : (next =? next) = true) by apply Z.eqb_refl.
  assert (E3 : (now + T <=? now + long) = true) by (apply Z.leb_le; lia).
  split.
  - unfold idle, run, step. cbn [press button pending negb queue].
    unfold Timers.setTimeout. rewrite effective_delay_id by exact HT.
    repeat (cbn -[Z.add Z.leb Z.ltb Z.max Z.eqb]; rewrite ?E1, ?E2).
    eexists. split; [reflexivity |]. repeat split.
  - unfold idle, run, step. cbn [press button pending negb queue].
    unfold Timers.setTimeout. rewrite effective_delay_id by exact HT.
    repeat (cbn -[Z.add Z.leb Z.ltb Z.max Z.eqb]; rewrite ?E3, ?E2).
    eexists. split; [reflexivity |]. repeat split.
    eexists. split; [reflexivity |]. repeat split.
Qed.

(** A 500 ms button released after 499 ms, and one held for 500 ms. *)
Lemma button_gesture_callbacks_witness :
  1 <= 500 <= 2147483647
  /\ 0 <= 499 < 500
  /\ 500 <= 500
  /\ (exists w,
        run (idle 500 0 0 1) [Press; Elapse 499; Unpress; Elapse 2000] = Ok w
        /\ count onShortPressed w = 1%nat
        /\ count onLongPressed w = 0%nat
        /\ count onLongCanceled w = 0%nat)
  /\ (exists w,
        run (idle 500 0 0 1) [Press; Elapse 500] = Ok w
        /\ count onLongPressed w = 1%nat
        /\ count onShortPressed w = 0%nat
        /\ count onLongCanceled w = 0%nat
        /\ exists w',
            run w [Unpress; Elapse 2000] = Ok w'
            /\ count onLongPressed w' = 1%nat
            /\ count onLongCanceled w' = 1%nat
            /\ count onShortPressed w' = 0%nat).
Proof.
  split; [lia |]. split; [lia |]. split; [lia |].
  apply (button_gesture_callbacks 500 0 0 1 499 500 2000); lia.
Defined.

End ButtonFacts.

(* ===================================================================== *)
(** * Properties of the input filter *)
(* ===================================================================== *)

Section FilterFacts.

Import Joystick.

Variables (deadzone sensitivity : Z).

Implicit Types (st : FilterState) (e : Event) (lav laev : gmap Z Z).

Lemma sensitivity_stage_squelch lav e :
  sensitivity <> 0 -> within_sensitivity sensitivity lav e ->
  sensitivity_stage sensitivity lav e = (true, lav).
Proof.
  intros Hs (l & Hl & Hnz & Hd & Hv). unfold sensitivity_stage, truthy.
  rewrite Hl.
  destruct (Z.eqb_spec sensitivity 0); [contradiction |].
  destruct (Z.eqb_spec l 0); [contradiction |].
  destruct (Z.eqb_spec (value e) 0); [contradiction |].
  destruct (Z.ltb_spec (Z.abs (l - value e)) sensitivity); [reflexivity | lia].
Qed.

Lemma sensitivity_stage_accept lav e :
  sensitivity <> 0 -> ~ within_sensitivity sensitivity lav e ->
  sensitivity_stage sensitivity lav e = (false, <[number e := value e]> lav).
Proof.
  intros Hs Hn. unfold sensitivity_stage, truthy.
  destruct (Z.eqb_spec sensitivity 0); [contradiction |]. simpl.
  destruct (lav !! number e) as [l |] eqn:Hl; [| reflexivity].
  destruct (Z.eqb_spec l 0); [reflexivity |].
  destruct (Z.ltb_spec (Z.abs (l - value e)) sensitivity); [| reflexivity].
  destruct (Z.eqb_spec (value e) 0); [reflexivity |].
  exfalso. apply Hn. exists l. auto.
Qed.

Lemma sensitivity_stage_off lav e :
  sensitivity = 0 -> sensitivity_stage sensitivity lav e = (false, lav).
Proof. intros ->. reflexivity. Qed.

(** What [on_event] does to an axis event, by what the first stage says. *)
Lemma on_event_axis st e :
  type e = Some axis ->
  on_event deadzone sensitivity st e =
    let s1 := sensitivity_stage sensitivity (lastAxisValue st) e in
    let e' := deadzone_stage deadzone e in
    let s2 := emitted_stage (fst s1) (lastAxisEmittedValue st) e' in
    ({| lastAxisValue := snd s1; lastAxisEmittedValue := snd s2 |},
     if fst s2 then None else Some (EmitEvent (type e') e')).
Proof.
  intros Ht. unfold on_event. rewrite Ht.
  destruct (sensitivity_stage _ _ _) as [q1 lav]. simpl.
  destruct (emitted_stage _ _ _) as [q2 laev]. reflexivity.
Qed.

Lemma emitted_stage_keeps_squelch laev e :
  fst (emitted_stage true laev e) = true.
Proof. unfold emitted_stage. case_bool_decide; reflexivity. Qed.

Lemma on_event_squelched st e :
  type e = Some axis ->
  sensitivity <> 0 -> within_sensitivity sensitivity (lastAxisValue st) e ->
  snd (on_event deadzone sensitivity st e) = None
  /\ lastAxisValue (fst (on_event deadzone sensitivity st e)) = lastAxisValue st.
Proof.
  intros Ht Hs Hw. rewrite on_event_axis by exact Ht.
  rewrite sensitivity_stage_squelch by assumption. simpl.
  rewrite emitted_stage_keeps_squelch. split; reflexivity.
Qed.

Lemma on_event_accepted st e :
  type e = Some axis ->
  sensitivity <> 0 -> ~ within_sensitivity sensitivity (lastAxisValue st) e ->
  lastAxisValue (fst (on_event deadzone sensitivity st e))
  = <[number e := value e]> (lastAxisValue st).
Proof.
  intros Ht Hs Hw. rewrite on_event_axis by exact Ht.
  rewrite sensitivity_stage_accept by assumption. reflexivity.
Qed.

(** Every event of a run that stays within [sensitivity] of the stored
    value is dropped, and the stored value stays. *)
Lemma run_squelched n v0 es : forall st,
  sensitivity <> 0 ->
  lastAxisValue st !! n = Some v0 -> v0 <> 0 ->
  Forall (fun e => type e = Some axis /\ number e = n
                   /\ Z.abs (v0 - value e) < sensitivity /\ value e <> 0) es ->
  snd (feed deadzone sensitivity st es) = []
  /\ lastAxisValue (fst (feed deadzone sensitivity st es)) = lastAxisValue st.
Proof.
  induction es as [| e es IH]; intros st Hs Hl Hv0 Hall.
  - split; reflexivity.
  - inversion Hall as [| ? ? (Ht & Hn & Hd & Hv) Hrest]; subst.
    assert (Hw : within_sensitivity sensitivity (lastAxisValue st) e)
      by (exists v0; auto).
    destruct (on_event_squelched st e Ht Hs Hw) as [Hout Hlav].
    simpl. destruct (on_event deadzone sensitivity st e) as [st1 o] eqn:E.
    simpl in Hout, Hlav. subst o.
    assert (Hl1 : lastAxisValue st1 !! number e = Some v0) by (rewrite Hlav; exact Hl).
    destruct (IH st1 Hs Hl1 Hv0 Hrest) as [Hout' Hlav'].
    destruct (feed deadzone sensitivity st1 es) as [st2 outs]. simpl in *.
    split; [exact Hout' | congruence].
Qed.

(** With sensitivity 0 the sensitivity block is skipped: whatever is read,
    the stored raw values stay as they are. *)
Lemma feed_sensitivity_off es : forall st,
  sensitivity = 0 ->
  lastAxisValue (fst (feed deadzone sensitivity st es)) = lastAxisValue st.
Proof.
  induction es as [| e es IH]; intros st Hs; [reflexivity |].
  simpl. destruct (on_event deadzone sensitivity st e) as [st1 o] eqn:E.
  specialize (IH st1 Hs).
  destruct (feed deadzone sensitivity st1 es) as [st2 outs]. simpl in *.
  rewrite IH. clear IH.
  destruct (type e) as [[|] |] eqn:Ht;
    try (unfold on_event in E; rewrite Ht in E; injection E as <- _;
         reflexivity).
  rewrite on_event_axis in E by exact Ht.
  rewrite sensitivity_stage_off in E by exact Hs.
  injection E as <- _. reflexivity.
Qed.

(** C6 (as amended).  With a nonzero sensitivity, an axis event whose
    control has a stored raw value that is nonzero, and whose own value is
    nonzero and closer to it than the sensitivity, is suppressed and leaves
    the stored raw value alone.  With a nonzero sensitivity every other
    axis event, whatever is or is not stored for its control, stores its
    value as the raw value.  With sensitivity 0 no raw value is ever
    stored, whatever is read.  Hence, with a nonzero sensitivity, after a
    nonzero value [v0] was stored for control [n], every event of a run on
    [n] whose values are nonzero and closer than the sensitivity to [v0] is
    suppressed. *)
Theorem sensitivity_squelch st :
  (forall e,
      type e = Some axis -> sensitivity <> 0 ->
      within_sensitivity sensitivity (lastAxisValue st) e ->
      snd (on_event deadzone sensitivity st e) = None
      /\ lastAxisValue (fst (on_event deadzone sensitivity st e))
         = lastAxisValue st)
  /\ (forall e,
         type e = Some axis -> sensitivity <> 0 ->
         ~ within_sensitivity sensitivity (lastAxisValue st) e ->
         lastAxisValue (fst (on_event deadzone sensitivity st e))
         = <[number e := value e]> (lastAxisValue st))
  /\ (sensitivity = 0 ->
      forall es,
        lastAxisValue (fst (feed deadzone sensitivity st es)) = lastAxisValue st)
  /\ (forall n v0 es,
         sensitivity <> 0 ->
         lastAxisValue st !! n = Some v0 ->
         v0 <> 0 ->
         Forall (fun x => type x = Some axis /\ number x = n
                          /\ Z.abs (v0 - value x) < sensitivity
                          /\ value x <> 0) es ->
         snd (feed deadzone sensitivity st es) = []
         /\ lastAxisValue (fst (feed deadzone sensitivity st es))
            = lastAxisValue st).
Proof.
  split; [| split; [| split]].
  - intros e Ht Hs Hw. apply on_event_squelched; assumption.
  - intros e Ht Hs Hw. apply on_event_accepted; assumption.
  - intros Hs es. apply feed_sensitivity_off. exact Hs.
  - intros n v0 es Hs Hl Hv0 Hall.
    apply run_squelched with (n := n) (v0 := v0); assumption.
Qed.

(** A stored raw value is only ever written by the sensitivity block. *)
Lemma reachable_stored st n l :
  reachable deadzone sensitivity st ->
  lastAxisValue st !! n = Some l -> sensitivity <> 0.
Proof.
  intros Hr. revert n l. induction Hr as [| st e Hr IH]; intros n l Hl.
  - unfold initial in Hl. simpl in Hl. rewrite lookup_empty in Hl. discriminate.
  - intros Hs0.
    destruct (type e) as [[|] |] eqn:Ht;
      try (unfold on_event in Hl; rewrite Ht in Hl; simpl in Hl;
           exact (IH _ _ Hl Hs0)).
    rewrite on_event_axis in Hl by exact Ht. simpl in Hl.
    rewrite sensitivity_stage_off in Hl by exact Hs0. simpl in Hl.
    exact (IH _ _ Hl Hs0).
Qed.

(** C10.  When the raw value stored for an axis event's control is exactly
    0, the sensitivity block does not squelch the event, whatever the
    sensitivity and however small the change: it stores the event's value
    as the new raw value, and the event goes on to the deadzone clamp and
    the emitted-value test with the squelch flag clear. *)
Theorem stored_zero_bypasses_sensitivity st e :
  reachable deadzone sensitivity st ->
  type e = Some axis ->
  lastAxisValue st !! number e = Some 0 ->
  sensitivity_stage sensitivity (lastAxisValue st) e
  = (false, <[number e := value e]> (lastAxisValue st))
  /\ lastAxisValue (fst (on_event deadzone sensitivity st e)) !! number e
     = Some (value e)
  /\ on_event deadzone sensitivity st e
     = (let e' := deadzone_stage deadzone e in
        let s2 := emitted_stage false (lastAxisEmittedValue st) e' in
        ({| lastAxisValue := <[number e := value e]> (lastAxisValue st);
            lastAxisEmittedValue := snd s2 |},
         if fst s2 then None else Some (EmitEvent (type e') e'))).
Proof.
  intros Hr Ht Hl.
  pose proof (reachable_stored st _ _ Hr Hl) as Hs.
  assert (Hw : ~ within_sensitivity sensitivity (lastAxisValue st) e).
  { intros (l & Hl' & Hnz & _). rewrite Hl in Hl'. congruence. }
  pose proof (sensitivity_stage_accept (lastAxisValue st) e Hs Hw) as Hstage.
  split; [exact Hstage |].
  rewrite on_event_axis by exact Ht. rewrite Hstage. simpl.
  split; [apply lookup_insert_eq | reflexivity].
Qed.

(** The part of C7 that holds: a forwarded axis event whose value was
    inside a positive deadzone carries 0. *)
Lemma deadzone_clamps_to_zero st e ty e' :
  type e = Some axis ->
  0 < deadzone -> Z.abs (value e) < deadzone ->
  snd (on_event deadzone sensitivity st e) = Some (EmitEvent ty e') ->
  value e' = 0.
Proof.
  intros Ht Hd Hv. rewrite on_event_axis by exact Ht. simpl.
  destruct (fst (emitted_stage _ _ _)); [discriminate |].
  intros [= _ <-]. unfold deadzone_stage, truthy.
  destruct (Z.eqb_spec deadzone 0); [lia |].
  destruct (Z.ltb_spec (Z.abs (value e)) deadzone); [reflexivity | lia].
Qed.

(** A forwarded axis event never carries the value that was stored as the
    last emitted one when it arrived, and leaves its own value stored. *)
Lemma forwarded_differs_from_stored st e ty e' :
  type e = Some axis ->
  snd (on_event deadzone sensitivity st e) = Some (EmitEvent ty e') ->
  lastAxisEmittedValue st !! number e' <> Some (value e')
  /\ lastAxisEmittedValue (fst (on_event deadzone sensitivity st e)) !! number e'
     = Some (value e').
Proof.
  intros Ht. rewrite on_event_axis by exact Ht. simpl.
  unfold emitted_stage. case_bool_decide as Hdup; simpl; [discriminate |].
  destruct (fst (sensitivity_stage _ _ _)); [discriminate |].
  intros [= _ <-]. split; [exact Hdup | apply lookup_insert_eq].
Qed.

End FilterFacts.

Section FilterRuns.

Import Joystick.

(** With the pendant's thresholds (deadzone 750, sensitivity 100): after
    20000 was stored for control 0, 20050 is suppressed, 20200 is stored, and
    the run 20050, 19950 is suppressed whole; on a fresh joystick, where
    nothing is stored, 300 is stored; and with sensitivity 0 the readings
    20000, 300 leave nothing stored. *)
Lemma sensitivity_squelch_witness :
  let st := fst (on_event 750 100 initial (axis_event 0 0 20000)) in
  let e := axis_event 0 0 20050 in
  let e' := axis_event 0 0 20200 in
  let e0 := axis_event 0 0 300 in
  let es := axis_event 0 0 <$> [20050; 19950] in
  let es0 := axis_event 0 0 <$> [20000; 300] in
  (within_sensitivity 100 (lastAxisValue st) e
   /\ snd (on_event 750 100 st e) = None
   /\ lastAxisValue (fst (on_event 750 100 st e)) = lastAxisValue st)
  /\ (~ within_sensitivity 100 (lastAxisValue st) e'
      /\ lastAxisValue (fst (on_event 750 100 st e'))
         = <[number e' := value e']> (lastAxisValue st))
  /\ (~ within_sensitivity 100 (lastAxisValue initial) e0
      /\ lastAxisValue (fst (on_event 750 100 initial e0))
         = <[number e0 := value e0]> (lastAxisValue initial))
  /\ lastAxisValue (fst (feed 750 0 initial es0)) = lastAxisValue initial
  /\ (lastAxisValue st !! 0 = Some 20000
      /\ Forall (fun x => type x = Some axis /\ number x = 0
                          /\ Z.abs (20000 - value x) < 100 /\ value x <> 0) es
      /\ snd (feed 750 100 st es) = []
      /\ lastAxisValue (fst (feed 750 100 st es)) = lastAxisValue st).
Proof.
  intros st e e' e0 es es0.
  assert (Hl : lastAxisValue st !! 0 = Some 20000) by reflexivity.
  assert (Hs : 100 <> 0) by discriminate.
  assert (Hw : within_sensitivity 100 (lastAxisValue st) e).
  { exists 20000. repeat split; simpl; try reflexivity; lia. }
  assert (Hw' : ~ within_sensitivity 100 (lastAxisValue st) e').
  { intros (l & Hl' & _ & Hd & _). simpl in Hl'. rewrite Hl in Hl'.
    injection Hl' as <-. simpl in Hd. lia. }
  assert (Hw0 : ~ within_sensitivity 100 (lastAxisValue initial) e0).
  { intros (l & Hl' & _). simpl in Hl'. rewrite lookup_empty in Hl'.
    discriminate. }
  assert (Hes : Forall (fun x => type x = Some axis /\ number x = 0
                         /\ Z.abs (20000 - value x) < 100 /\ value x <> 0) es).
  { repeat constructor; simpl; lia. }
  destruct (sensitivity_squelch 750 100 st) as (Hsq & Hacc & _ & Hrun).
  destruct (sensitivity_squelch 750 100 initial) as (_ & Hacc0 & _ & _).
  destruct (sensitivity_squelch 750 0 initial) as (_ & _ & Hoff & _).
  destruct (Hsq e eq_refl Hs Hw) as [Hnone Hkept].
  destruct (Hrun 0 20000 es Hs Hl ltac:(discriminate) Hes) as [Hout Hlav].
  split; [split; [exact Hw | split; [exact Hnone | exact Hkept]] |].
  split; [split; [exact Hw' | exact (Hacc e' eq_refl Hs Hw')] |].
  split; [split; [exact Hw0 | exact (Hacc0 e0 eq_refl Hs Hw0)] |].
  split; [exact (Hoff eq_refl es0) |].
  split; [exact Hl |]. split; [exact Hes |]. split; [exact Hout | exact Hlav].
Defined.

(** C6 (as stated) fails in three places.  A stored raw value of 0 does not
    squelch: with sensitivity 100 and no deadzone, 50 after 0 is forwarded
    and stored.  With sensitivity 0 no raw value is ever stored.  And the
    distance is taken from the stored value, not from the previous one: of
    20000, 20060, 20120 the third is forwarded as well. *)
Lemma squelch_rule_as_stated_fails :
  ~ (forall deadzone sensitivity st e l,
       reachable deadzone sensitivity st ->
       type e = Some axis ->
       lastAxisValue st !! number e = Some l ->
       0 < sensitivity ->
       Z.abs (value e - l) < sensitivity ->
       value e <> 0 ->
       snd (on_event deadzone sensitivity st e) = None
       /\ lastAxisValue (fst (on_event deadzone sensitivity st e))
          = lastAxisValue st)
  /\ ~ (forall deadzone sensitivity st e,
          reachable deadzone sensitivity st ->
          type e = Some axis ->
          ~ (exists l, lastAxisValue st !! number e = Some l
                       /\ 0 < sensitivity
                       /\ Z.abs (value e - l) < sensitivity
                       /\ value e <> 0) ->
          lastAxisValue (fst (on_event deadzone sensitivity st e)) !! number e
          = Some (value e))
  /\ ~ (forall deadzone sensitivity n v0 v1 v2,
          0 < sensitivity ->
          Z.abs (v1 - v0) < sensitivity ->
          Z.abs (v2 - v1) < sensitivity ->
          v1 <> 0 -> v2 <> 0 ->
          (length (forwarded
                     (snd (feed deadzone sensitivity initial
                             (axis_event 0 n <$> [v0; v1; v2])))) <= 1)%nat).
Proof.
  split; [| split].
  - intros H.
    specialize (H 0 100 (fst (on_event 0 100 initial (axis_event 0 0 0)))
                  (axis_event 0 0 50) 0).
    destruct H as [H _].
    + apply reach_event, reach_initial.
    + reflexivity.
    + reflexivity.
    + lia.
    + simpl. lia.
    + simpl. lia.
    + discriminate H.
  - intros H.
    specialize (H 750 0 initial (axis_event 0 0 500) (reach_initial 750 0) eq_refl).
    discriminate H.
    intros (l & _ & Hs & _). lia.
  - intros H.
    pose proof (H 750 100 0 20000 20060 20120 ltac:(lia) ltac:(lia) ltac:(lia)
                  ltac:(lia) ltac:(lia)) as Hlen.
    vm_compute in Hlen. lia.
Qed.

(** In the state left by a first event of value 0 on control 0, the event
    of value 50 goes past the sensitivity block. *)
Lemma stored_zero_bypasses_sensitivity_witness :
  let st := fst (on_event 750 100 initial (axis_event 0 0 0)) in
  let e := axis_event 0 0 50 in
  (reachable 750 100 st
   /\ type e = Some axis
   /\ lastAxisValue st !! number e = Some 0)
  /\ (sensitivity_stage 100 (lastAxisValue st) e
      = (false, <[number e := value e]> (lastAxisValue st))
      /\ lastAxisValue (fst (on_event 750 100 st e)) !! number e
         = Some (value e)
      /\ on_event 750 100 st e
         = (let e' := deadzone_stage 750 e in
            let s2 := emitted_stage false (lastAxisEmittedValue st) e' in
            ({| lastAxisValue := <[number e := value e]> (lastAxisValue st);
                lastAxisEmittedValue := snd s2 |},
             if fst s2 then None else Some (EmitEvent (type e') e')))).
Proof.
  intros st e.
  assert (Hr : reachable 750 100 st) by apply reach_event, reach_initial.
  split.
  - repeat split; try exact Hr; reflexivity.
  - apply (stored_zero_bypasses_sensitivity 750 100 st e Hr); reflexivity.
Defined.

(** C7 at its failing input.  With the pendant's thresholds, control 0
    reports 0 at start-up (the init event) and then 5000, 700, 760, 500.
    The listeners receive 0, 5000, 0 and 0 again: 760 is squelched by the
    sensitivity block but still overwrites the value remembered as last
    emitted, so the 0 that 500 is clamped to is not recognised as a repeat
    of the 0 forwarded for 700. *)
Theorem repeated_value_forwarded :
  forwarded
    (snd (feed Pendant.JOYSTICK_DEADZONE Pendant.JOYSTICK_SENSITIVITY initial
            ({| time := 0; value := 0; number := 0; init := true;
                type := Some axis; id := Pendant.JOYSTICK_ID |}
             :: (axis_event Pendant.JOYSTICK_ID 0 <$> [5000; 700; 760; 500]))))
  = [(0, 0); (0, 5000); (0, 0); (0, 0)].
Proof. reflexivity. Qed.

End FilterRuns.

(* ===================================================================== *)
(** * Properties of the numeric mappings *)
(* ===================================================================== *)

Section Numbers.

Import Pendant.

(** [toFixed] does not see how a rational is written. *)
Lemma toFixed_ext (digits : nat) (x y : Q) :
  (x == y)%Q -> toFixed digits x = toFixed digits y.
Proof.
  intros Hxy. unfold toFixed.
  assert (Hb : Qle_bool 0 x = Qle_bool 0 y) by (rewrite Hxy; reflexivity).
  assert (Hf : Qfloor (Qabs x * inject_Z (10 ^ Z.of_nat digits) + (1 # 2))
               = Qfloor (Qabs y * inject_Z (10 ^ Z.of_nat digits) + (1 # 2)))
    by (rewrite Hxy; reflexivity).
  rewrite Hb, Hf. reflexivity.
Qed.

(** The offset form of [map] is the linear map [x * out / in], rounded. *)
Lemma map_linear (x in_range_half out_range_half : Q) :
  ~ (in_range_half == 0)%Q ->
  map x in_range_half out_range_half
  = toFixed 2 (x * out_range_half / in_range_half).
Proof.
  intros Hnz. unfold map. apply toFixed_ext. field. exact Hnz.
Qed.

Lemma feedrate_linear (value : Z) :
  feedrate value
  = Qabs (toFixed 2 (inject_Z value * inject_Z MAX_JOG_FEEDRATE
                     / inject_Z JOYSTICK_AXIS_MAX)).
Proof. unfold feedrate. rewrite map_linear; [reflexivity | discriminate]. Qed.

Lemma feedrate_nonneg (value : Z) : (0 <= Q2R (feedrate value))%R.
Proof.
  replace 0%R with (Q2R 0) by (unfold Q2R; simpl; lra).
  apply Qle_Rle. unfold feedrate. apply Qabs_nonneg.
Qed.

(** The Euclidean norm vanishes only when both components do. *)
Lemma norm_zero (a b : R) :
  sqrt (a ^ 2 + b ^ 2) = 0%R <-> a = 0%R /\ b = 0%R.
Proof.
  split.
  - intros H. apply sqrt_eq_0 in H; [| nra]. split; nra.
  - intros [-> ->]. replace (0 ^ 2 + 0 ^ 2)%R with 0%R by lra. apply sqrt_0.
Qed.

(** C4.  The feedrate of one axis is the absolute value of the stick value
    mapped linearly from 32767 to 3000 and rounded to two decimals.  The
    planar feedrate is the Euclidean norm of the horizontal and vertical
    ones.  With the depth stick inactive that is the result; with it
    active the result is the smaller of the planar and the depth feedrate,
    or the depth feedrate alone when the planar one is zero.  A horizontal
    value of 16383 with the other two sticks at rest gives 1499.95, which is
    within 0.05 of 1500. *)
Theorem continuous_jog_feedrate (x y z : AxisState.t) :
  let fx := Q2R (feedrate (AxisState.value x)) in
  let fy := Q2R (feedrate (AxisState.value y)) in
  let fz := Q2R (feedrate (AxisState.value z)) in
  let planar := sqrt (fx ^ 2 + fy ^ 2) in
  (forall value,
      feedrate value = Qabs (toFixed 2 (inject_Z value * inject_Z 3000
                                        / inject_Z 32767)))
  /\ (0 <= planar /\ planar ^ 2 = fx ^ 2 + fy ^ 2)%R
  /\ (AxisState.active z = false -> decideFeedrate x y z = planar)
  /\ (AxisState.active z = true -> planar <> 0%R ->
      decideFeedrate x y z = Rmin planar fz)
  /\ (AxisState.active z = true -> planar = 0%R -> decideFeedrate x y z = fz)
  /\ (planar = 0%R <-> fx = 0%R /\ fy = 0%R)
  /\ decideFeedrate (AxisState.update 16383) (AxisState.update 0)
                    (AxisState.update 0) = (149995 / 100)%R
  /\ (Rabs (decideFeedrate (AxisState.update 16383) (AxisState.update 0)
                           (AxisState.update 0) - 1500) <= 5 / 100)%R.
Proof.
  intros fx fy fz planar.
  assert (Hex : decideFeedrate (AxisState.update 16383) (AxisState.update 0)
                               (AxisState.update 0) = (149995 / 100)%R).
  { unfold decideFeedrate. simpl AxisState.active. cbv iota.
    simpl AxisState.value.
    replace (feedrate 16383) with (149995 # 100)%Q by reflexivity.
    replace (feedrate 0) with (0 # 100)%Q by reflexivity.
    replace (Q2R (0 # 100)) with 0%R by (unfold Q2R; simpl; lra).
    replace (Q2R (149995 # 100)) with (149995 / 100)%R by (unfold Q2R; simpl; lra).
    replace ((149995 / 100) ^ 2 + 0 ^ 2)%R with ((149995 / 100) ^ 2)%R by lra.
    apply sqrt_pow2. lra. }
  split; [exact feedrate_linear |].
  split.
  { split; [apply sqrt_pos |].
    rewrite <- Rsqr_pow2. unfold planar. apply Rsqr_sqrt. nra. }
  split.
  { intros Hz. unfold decideFeedrate. rewrite Hz. reflexivity. }
  split.
  { intros Hz Hp. unfold decideFeedrate. rewrite Hz.
    destruct (Req_dec_T _ 0) as [H0 | _]; [contradiction | reflexivity]. }
  split.
  { intros Hz Hp. unfold decideFeedrate. rewrite Hz.
    destruct (Req_dec_T _ 0) as [_ | Hn]; [reflexivity | contradiction]. }
  split; [apply norm_zero |].
  split; [exact Hex |].
  rewrite Hex. replace (149995 / 100 - 1500)%R with (- (5 / 100))%R by lra.
  rewrite Rabs_Ropp, Rabs_right; lra.
Qed.

End Numbers.

Section Spindle.

Import Pendant.

(** [toFixed] leaves an integer as it is. *)
Lemma toFixed_integer (digits : nat) (k : Z) :
  (toFixed digits (inject_Z k) == inject_Z k)%Q.
Proof.
  unfold toFixed.
  set (scale := 10 ^ Z.of_nat digits).
  assert (Hscale : 0 < scale) by (apply Z.pow_pos_nonneg; lia).
  assert (Hfloor : Qfloor (Qabs (inject_Z k) * inject_Z scale + (1 # 2))
                   = Z.abs k * scale).
  { unfold Qfloor, Qabs, inject_Z, Qmult, Qplus. simpl.
    rewrite !Z.mul_1_r. symmetry.
    apply Z.div_unique with 1; lia. }
  rewrite Hfloor.
  unfold Qle_bool, Qeq, inject_Z. simpl.
  rewrite Z.mul_1_r, Z2Pos.id by exact Hscale.
  rewrite Z.mul_0_l, Z.mul_1_r.
  destruct (Z.leb_spec 0 k).
  - rewrite Z.abs_eq by lia. reflexivity.
  - rewrite Z.abs_neq by lia. ring.
Qed.

(** What [triggerMovement] computes: the [map] in force, called with
    [-32767] and [32767] as its two range arguments, negates the trigger. *)
Lemma spindle_speed_negates_trigger (rt : Z) :
  (map (inject_Z rt) (inject_Z (- JOYSTICK_AXIS_MAX)) (inject_Z JOYSTICK_AXIS_MAX)
   == inject_Z (- rt))%Q.
Proof.
  rewrite map_linear by discriminate.
  rewrite (toFixed_ext 2 _ (inject_Z (- rt))).
  - apply toFixed_integer.
  - unfold JOYSTICK_AXIS_MAX. rewrite !inject_Z_opp. field.
Qed.

(** The first declaration of [map], the one the call in [triggerMovement]
    is written for, does stay inside the spindle-speed range. *)
Lemma map_shadowed_in_range (rt : Z) :
  - JOYSTICK_AXIS_MAX <= rt <= JOYSTICK_AXIS_MAX ->
  (0 <= map_shadowed (inject_Z rt) (inject_Z (- JOYSTICK_AXIS_MAX))
          (inject_Z JOYSTICK_AXIS_MAX) (inject_Z SPINDLE_MIN_SPEED)
          (inject_Z SPINDLE_MAX_SPEED) <= 24000)%Q.
Proof.
  unfold JOYSTICK_AXIS_MAX, SPINDLE_MIN_SPEED, SPINDLE_MAX_SPEED. intros Hrt.
  unfold map_shadowed.
  match goal with |- context [toFixed 2 ?e] => set (x := e) end.
  assert (Hx : (x == inject_Z ((rt + 32767) * 24000) / inject_Z 65534)%Q).
  { unfold x. rewrite inject_Z_mult, inject_Z_plus, !inject_Z_opp. field. }
  assert (Hx0 : (0 <= x)%Q).
  { rewrite Hx. apply Qle_shift_div_l; [reflexivity |].
    rewrite Qmult_0_l. change 0%Q with (inject_Z 0).
    rewrite <- Zle_Qle. lia. }
  assert (Hx1 : (x <= inject_Z 24000)%Q).
  { rewrite Hx. apply Qle_shift_div_r; [reflexivity |].
    rewrite <- inject_Z_mult, <- Zle_Qle. lia. }
  unfold toFixed.
  assert (Hb : Qle_bool 0 x = true) by (apply Qle_bool_iff; exact Hx0).
  rewrite Hb, (Qabs_pos x Hx0).
  change (10 ^ Z.of_nat 2) with 100.
  set (n := Qfloor (x * inject_Z 100 + (1 # 2))).
  assert (Hn0 : 0 <= n).
  { change 0 with (Qfloor (inject_Z 0)). apply Qfloor_resp_le.
    change (inject_Z 0) with (0 * inject_Z 100 + 0)%Q.
    apply Qplus_le_compat; [| discriminate].
    apply Qmult_le_compat_r; [exact Hx0 | discriminate]. }
  assert (Hn1 : n <= 2400000).
  { change 2400000 with (Qfloor (inject_Z 24000 * inject_Z 100 + (1 # 2))).
    apply Qfloor_resp_le.
    apply Qplus_le_compat; [| apply Qle_refl].
    apply Qmult_le_compat_r; [exact Hx1 | discriminate]. }
  unfold Qle. simpl. lia.
Qed.

(** C2 at its failing input.  With LB and RB held and the right trigger
    fully pressed (32767), the slow tick sends [M3 S-32767.00]: the speed is
    the negated trigger value, not a value between 0 and 24000. *)
Theorem spindle_speed_out_of_range :
  exists s,
    run initial [button_input 6 1; button_input 7 1; axis_input 4 32767;
                 TriggerTick] = Ok s
    /\ spindle_speeds s = [(-3276700 # 100)%Q]
    /\ ~ (0 <= -3276700 # 100 <= 24000)%Q.
Proof.
  eexists. split; [reflexivity |]. split; [reflexivity |].
  intros [H _]. revert H. unfold Qle. simpl. lia.
Qed.

End Spindle.

(* ===================================================================== *)
(** * Properties of the control dispatch *)
(* ===================================================================== *)

Section Dispatch.

Import Pendant.

(** The keys of the two tables. *)
Lemma BUTTONS_unknown (n : Z) : n < 0 \/ 14 < n -> BUTTONS !! n = None.
Proof.
  intros Hn. unfold BUTTONS. apply not_elem_of_list_to_map_1. simpl.
  rewrite !not_elem_of_cons. repeat split; try lia. apply not_elem_of_nil.
Qed.

Lemma AXES_unknown (n : Z) : n < 0 \/ 7 < n -> AXES !! n = None.
Proof.
  intros Hn. unfold AXES. apply not_elem_of_list_to_map_1. simpl.
  rewrite !not_elem_of_cons. repeat split; try lia. apply not_elem_of_nil.
Qed.

(** An event for a control that is in neither table raises in the
    listener, before anything is logged and before any handler runs,
    whatever the state and whether or not it is an init event. *)
Lemma unknown_control_raises (e : Joystick.Event) (s : State) :
  (Joystick.number e < 0 \/ 14 < Joystick.number e ->
   on_joy_button e s = Throw TypeError)
  /\ (Joystick.number e < 0 \/ 7 < Joystick.number e ->
      on_joy_axis e s = Throw TypeError).
Proof.
  split; intros Hn.
  - unfold on_joy_button. rewrite BUTTONS_unknown by exact Hn.
    destruct (Joystick.init e); reflexivity.
  - unfold on_joy_axis. rewrite AXES_unknown by exact Hn.
    destruct (Joystick.init e); reflexivity.
Qed.

(** C3 at its failing input.  The device record of a press of button 15
    (not an init event) passes the decoder and the filter and reaches the
    button listener, where the table lookup yields [undefined] and reading
    its [cb] raises a [TypeError]: the event is not logged and dropped, and
    the run of the event loop ends there. *)
Theorem unknown_button_raises :
  Joystick.parse JOYSTICK_ID [x00; x00; x00; x00; x01; x00; x01; x0f]%byte
  = Some {| Joystick.time := 0; Joystick.value := 1; Joystick.number := 15;
            Joystick.init := false; Joystick.type := Some Joystick.button;
            Joystick.id := JOYSTICK_ID |}
  /\ on_record (Joystick.initial, initial)
               [x00; x00; x00; x00; x01; x00; x01; x0f]%byte
     = Throw TypeError
  /\ run initial [button_input 15 1; button_input 0 1] = Throw TypeError.
Proof. repeat split. Qed.

End Dispatch.

(* ===================================================================== *)
(** * Properties of the jog throttle *)
(* ===================================================================== *)

Section Throttle.

Import Pendant.

(** While [jog_pending] is set, [jog] does nothing at all. *)
Lemma jog_blocked (cmd : Gcode) (s : State) :
  jog_pending s = true -> jog cmd s = s.
Proof. intros H. unfold jog. rewrite H. reflexivity. Qed.

(** With [jog_pending] clear, [jog] sends the command once, sets the flag
    and arms a timer of 1000 ms. *)
Lemma jog_sends_once (cmd : Gcode) (s : State) :
  jog_pending s = false ->
  out (jog cmd s) = out s ++ [SocketGcode cmd]
  /\ jog_pending (jog cmd s) = true
  /\ Timers.armed (queue (jog cmd s))
     = Timers.armed (queue s)
       ++ [{| Timers.tid := Timers.next_id (queue s);
              Timers.due := Timers.clock (queue s) + 1000;
              Timers.action := jogPendingTimeout |}].
Proof.
  intros H. unfold jog. rewrite H. destruct s. simpl. repeat split.
Qed.

(** Both events the flag is cleared by do clear it; the acknowledgement
    leaves every armed timer armed. *)
Lemma jog_pending_cleared (data : string) (s : State) :
  jog_pending (run_jogPendingTimeout s) = false
  /\ (includes data "ok" || includes data "error" = true ->
      jog_pending (on_serialport_read data s) = false
      /\ queue (on_serialport_read data s) = queue s
      /\ out (on_serialport_read data s) = out s).
Proof.
  split.
  - destruct s. reflexivity.
  - intros H. unfold on_serialport_read. rewrite H. destruct s. repeat split.
Qed.

(** C1 at its failing input.  LB is held.  A tap on the D-pad sends a step
    jog at 30 ms, which arms a timer due at 1030 ms; the left stick is then
    deflected.  The tick at 100 ms is held back; ["ok"] arrives at 150 ms and
    clears the flag, but the timer stays armed.  The tick at 200 ms sends the
    second jog and arms its own timer, due at 1200 ms; the ticks from 300 ms
    to 1000 ms are held back.  At 1030 ms the first timer fires and clears
    the flag, so the tick at 1100 ms sends a third jog, 900 ms after the
    second, with no acknowledgement since and with the second jog's timer
    still armed. *)
Theorem stale_timeout_releases_throttle :
  let step_jog := JogAxis X (10000 # 10000) (100000 # 100) in
  let stick_jog :=
    JogSticks (AxisState.update 16383) AxisState.new AxisState.new in
  let second_timer :=
    {| Timers.tid := 3; Timers.due := 1200;
       Timers.action := jogPendingTimeout |} in
  let third_timer :=
    {| Timers.tid := 4; Timers.due := 2100;
       Timers.action := jogPendingTimeout |} in
  let until_1100 :=
    [button_input 6 1;
     axis_input 6 32767; Elapse 30; axis_input 6 0;
     axis_input 0 16383;
     Elapse 70; StickTick;
     Elapse 50; SerialportRead "ok";
     Elapse 50; StickTick;
     Elapse 100; StickTick; Elapse 100; StickTick;
     Elapse 100; StickTick; Elapse 100; StickTick;
     Elapse 100; StickTick; Elapse 100; StickTick;
     Elapse 100; StickTick; Elapse 100; StickTick;
     Elapse 100] in
  observe (run initial until_1100)
  = Some ([step_jog; stick_jog], false,
          {| Timers.clock := 1100; Timers.next_id := 4;
             Timers.armed := [second_timer] |})
  /\ observe (run initial (until_1100 ++ [StickTick]))
     = Some ([step_jog; stick_jog; stick_jog], true,
             {| Timers.clock := 1100; Timers.next_id := 5;
                Timers.armed := [second_timer; third_timer] |}).
Proof. split; vm_compute; reflexivity. Qed.

End Throttle.

Section ThrottleInvariant.

Import Pendant.

Ltac blocked_by_cases :=
  intros s s' Hp; destruct s; simpl in Hp; subst;
  cbv beta delta [onA onB onX onY onXXX onLB onRB onStart onL3 onR3
                  onLSX onLSY onRSX onRSY onRT onLT onPADX onPADY plain
                  press unpress invoke jogShort jogLong cancelJog jog
                  ButtonState.press ButtonState.unpress
                  stickMovement triggerMovement checkController
                  on_joy_error on_joy_ready];
  simpl;
  repeat (case_match; simpl in *; try discriminate);
  intros [= <-]; unfold jogs_sent; simpl;
  rewrite ?omap_app; simpl; rewrite ?app_nil_r; split; reflexivity.

Ltac throttled_by_cases :=
  intros s s' Hp; destruct s; simpl in Hp; subst;
  cbv beta delta [onA onB onX onY onXXX onLB onRB onStart onL3 onR3
                  onLSX onLSY onRSX onRSY onRT onLT onPADX onPADY plain
                  press unpress invoke jogShort jogLong cancelJog jog
                  ButtonState.press ButtonState.unpress
                  stickMovement triggerMovement checkController
                  on_joy_error on_joy_ready];
  simpl;
  repeat (case_match; simpl in *; try discriminate);
  intros [= <-]; unfold jogs_sent; simpl;
  rewrite ?omap_app; simpl; rewrite ?app_nil_r;
  first [ left; split; reflexivity
        | right; eexists; split; reflexivity ].

Lemma button_handlers_blocked (v : Z) :
  blocked (onA v) /\ blocked (plain onB v) /\ blocked (plain onXXX v)
  /\ blocked (plain onX v) /\ blocked (onY v) /\ blocked (plain onLB v)
  /\ blocked (plain onRB v) /\ blocked (plain onStart v)
  /\ blocked (plain onL3 v) /\ blocked (plain onR3 v).
Proof. repeat apply conj; blocked_by_cases. Qed.

Lemma axis_handlers_blocked (v : Z) :
  blocked (plain onLSX v) /\ blocked (plain onLSY v)
  /\ blocked (plain onRSX v) /\ blocked (plain onRSY v)
  /\ blocked (plain onRT v) /\ blocked (plain onLT v)
  /\ blocked (onPADX v) /\ blocked (onPADY v).
Proof. repeat apply conj; blocked_by_cases. Qed.

Lemma BUTTONS_blocked (n v : Z) (c : Control) :
  BUTTONS !! n = Some c -> blocked (cb c v).
Proof.
  destruct (button_handlers_blocked v)
    as (HA & HB & HXXX & HX & HY & HLB & HRB & HStart & HL3 & HR3).
  unfold BUTTONS. simpl. intros Hc.
  repeat (apply lookup_insert_Some in Hc;
          destruct Hc as [[_ <-] | [_ Hc]]; [assumption |]).
  rewrite lookup_empty in Hc. discriminate.
Qed.

Lemma AXES_blocked (n v : Z) (c : Control) :
  AXES !! n = Some c -> blocked (cb c v).
Proof.
  destruct (axis_handlers_blocked v)
    as (HLSX & HLSY & HRSX & HRSY & HRT & HLT & HPX & HPY).
  unfold AXES. simpl. intros Hc.
  repeat (apply lookup_insert_Some in Hc;
          destruct Hc as [[_ <-] | [_ Hc]]; [assumption |]).
  rewrite lookup_empty in Hc. discriminate.
Qed.

Lemma emit_log_blocked (l : LogLine) (s : State) :
  jogs_sent (emit (ConsoleLog l) s) = jogs_sent s
  /\ jog_pending (emit (ConsoleLog l) s) = jog_pending s.
Proof.
  destruct s. unfold jogs_sent. simpl. rewrite omap_app. simpl.
  rewrite app_nil_r. split; reflexivity.
Qed.

(** While [jog_pending] is set, nothing the event loop runs sends a jog
    command or clears the flag, except the firing of a timer and the
    arrival of an acknowledgement. *)
Lemma step_blocked (i : Input) : may_clear i = false -> blocked (fun s => step s i).
Proof.
  destruct i as [[err | [[|] |] e] | | data | dt | | |]; simpl;
    try discriminate; intros _.
  - blocked_by_cases.
  - intros s s' Hp. unfold on_joy_button.
    destruct (BUTTONS !! Joystick.number e) as [c |] eqn:Hc;
      [| destruct (Joystick.init e); discriminate].
    destruct (Joystick.init e).
    + intros [= <-]. destruct (emit_log_blocked
                                 (LogControl (id c) (Joystick.value e)) s).
      split; congruence.
    + apply (BUTTONS_blocked _ _ _ Hc). exact Hp.
  - intros s s' Hp. unfold on_joy_axis.
    destruct (AXES !! Joystick.number e) as [c |] eqn:Hc;
      [| destruct (Joystick.init e); discriminate].
    destruct (emit_log_blocked (LogControl (id c) (Joystick.value e)) s)
      as [Hj Hf].
    destruct (Joystick.init e).
    + intros [= <-]. split; congruence.
    + intros Hcb.
      apply (AXES_blocked _ _ _ Hc) in Hcb; [| congruence].
      destruct Hcb. split; congruence.
  - intros s s' Hp [= <-]. split; [reflexivity | exact Hp].
  - blocked_by_cases.
  - blocked_by_cases.
  - blocked_by_cases.
  - blocked_by_cases.
Qed.

(** Hence a stretch of the run in which no timer fires and no
    acknowledgement arrives sends no jog command once the flag is set. *)
Lemma run_blocked (inputs : list Input) : forall s s',
  forallb (fun i => negb (may_clear i)) inputs = true ->
  run s inputs = Ok s' ->
  (jog_pending s = true -> jogs_sent s' = jogs_sent s /\ jog_pending s' = true).
Proof.
  induction inputs as [| i inputs IH]; intros s s' Hq; simpl.
  - intros [= <-] Hp. split; [reflexivity | exact Hp].
  - simpl in Hq. apply andb_true_iff in Hq. destruct Hq as [Hi Hq].
    apply negb_true_iff in Hi.
    destruct (step s i) as [s1 | err] eqn:Hs; simpl; [| discriminate].
    intros Hr Hp.
    destruct (step_blocked i Hi s s1 Hp Hs) as [Hj1 Hp1].
    destruct (IH s1 s' Hq Hr Hp1) as [Hj Hp']. split; congruence.
Qed.

Lemma button_handlers_throttled (v : Z) :
  throttled (onA v) /\ throttled (plain onB v) /\ throttled (plain onXXX v)
  /\ throttled (plain onX v) /\ throttled (onY v) /\ throttled (plain onLB v)
  /\ throttled (plain onRB v) /\ throttled (plain onStart v)
  /\ throttled (plain onL3 v) /\ throttled (plain onR3 v).
Proof. repeat apply conj; throttled_by_cases. Qed.

Lemma axis_handlers_throttled (v : Z) :
  throttled (plain onLSX v) /\ throttled (plain onLSY v)
  /\ throttled (plain onRSX v) /\ throttled (plain onRSY v)
  /\ throttled (plain onRT v) /\ throttled (plain onLT v)
  /\ throttled (onPADX v) /\ throttled (onPADY v).
Proof. repeat apply conj; throttled_by_cases. Qed.

Lemma BUTTONS_throttled (n v : Z) (c : Control) :
  BUTTONS !! n = Some c -> throttled (cb c v).
Proof.
  destruct (button_handlers_throttled v)
    as (HA & HB & HXXX & HX & HY & HLB & HRB & HStart & HL3 & HR3).
  unfold BUTTONS. simpl. intros Hc.
  repeat (apply lookup_insert_Some in Hc;
          destruct Hc as [[_ <-] | [_ Hc]]; [assumption |]).
  rewrite lookup_empty in Hc. discriminate.
Qed.

Lemma AXES_throttled (n v : Z) (c : Control) :
  AXES !! n = Some c -> throttled (cb c v).
Proof.
  destruct (axis_handlers_throttled v)
    as (HLSX & HLSY & HRSX & HRSY & HRT & HLT & HPX & HPY).
  unfold AXES. simpl. intros Hc.
  repeat (apply lookup_insert_Some in Hc;
          destruct Hc as [[_ <-] | [_ Hc]]; [assumption |]).
  rewrite lookup_empty in Hc. discriminate.
Qed.

(** With [jog_pending] clear, whatever the event loop runs next, other
    than a timer or an acknowledgement, sends at most one jog command, and
    sets the flag when it sends one. *)
Lemma step_throttled (i : Input) :
  may_clear i = false -> throttled (fun s => step s i).
Proof.
  destruct i as [[err | [[|] |] e] | | data | dt | | |]; simpl;
    try discriminate; intros _.
  - throttled_by_cases.
  - intros s s' Hp. unfold on_joy_button.
    destruct (BUTTONS !! Joystick.number e) as [c |] eqn:Hc;
      [| destruct (Joystick.init e); discriminate].
    destruct (Joystick.init e).
    + intros [= <-]. destruct (emit_log_blocked
                                 (LogControl (id c) (Joystick.value e)) s).
      left. split; congruence.
    + apply (BUTTONS_throttled _ _ _ Hc). exact Hp.
  - intros s s' Hp. unfold on_joy_axis.
    destruct (AXES !! Joystick.number e) as [c |] eqn:Hc;
      [| destruct (Joystick.init e); discriminate].
    destruct (emit_log_blocked (LogControl (id c) (Joystick.value e)) s)
      as [Hj Hf].
    destruct (Joystick.init e).
    + intros [= <-]. left. split; congruence.
    + intros Hcb.
      apply (AXES_throttled _ _ _ Hc) in Hcb; [| congruence].
      rewrite Hj in Hcb. exact Hcb.
  - intros s s' Hp [= <-]. left. split; [reflexivity | exact Hp].
  - throttled_by_cases.
  - throttled_by_cases.
  - throttled_by_cases.
  - throttled_by_cases.
Qed.

End ThrottleInvariant.

(* ===================================================================== *)
(** * Further properties of the input filter *)
(* ===================================================================== *)

Section FilterStreams.

Import Joystick.

Variables (deadzone sensitivity : Z).

Implicit Types (st : FilterState) (e : Event) (es : list Event).

Lemma deadzone_stage_fields e :
  number (deadzone_stage deadzone e) = number e
  /\ type (deadzone_stage deadzone e) = type e
  /\ value (deadzone_stage deadzone e) = clamped deadzone (value e).
Proof.
  unfold deadzone_stage, clamped.
  destruct (truthy deadzone && (Z.abs (value e) <? deadzone)); repeat split.
Qed.

(** The values [feed] forwards, event by event. *)
Lemma forwarded_feed_cons st e es :
  forwarded (snd (feed deadzone sensitivity st (e :: es)))
  = forwarded (option_list (snd (on_event deadzone sensitivity st e)))
    ++ forwarded (snd (feed deadzone sensitivity
                         (fst (on_event deadzone sensitivity st e)) es)).
Proof.
  simpl. destruct (on_event deadzone sensitivity st e) as [st1 o]. simpl.
  destruct (feed deadzone sensitivity st1 es) as [st2 outs]. simpl.
  destruct o as [o |]; [| reflexivity].
  unfold forwarded. simpl. destruct o as [err | [[|] |] e0]; reflexivity.
Qed.

(** One event forwards at most one value: its own, clamped. *)
Lemma forwarded_on_event st e :
  forwarded (option_list (snd (on_event deadzone sensitivity st e))) = []
  \/ (type e = Some axis
      /\ forwarded (option_list (snd (on_event deadzone sensitivity st e)))
         = [(number e, clamped deadzone (value e))]).
Proof.
  destruct (type e) as [[|] |] eqn:Ht;
    try (left; unfold on_event; rewrite Ht; reflexivity).
  rewrite on_event_axis by exact Ht. simpl.
  destruct (deadzone_stage_fields e) as (Hnum & Hty & Hval).
  destruct (fst (emitted_stage _ _ _)); [left; reflexivity |].
  right. split; [reflexivity |]. unfold forwarded. simpl.
  rewrite Hty, Ht, Hnum, Hval. reflexivity.
Qed.

(** An event that is not an axis event for control [n] leaves the entries
    of [n] alone. *)
Lemma on_event_other_control st e n :
  type e <> Some axis \/ number e <> n ->
  agree_on n (fst (on_event deadzone sensitivity st e)) st.
Proof.
  intros Hn. unfold agree_on. destruct (type e) as [[|] |] eqn:Ht;
    try (unfold on_event; rewrite Ht; split; reflexivity).
  destruct Hn as [Hn | Hn]; [contradiction |].
  rewrite on_event_axis by exact Ht. simpl.
  destruct (deadzone_stage_fields e) as (Hnum & _ & _).
  split.
  - unfold sensitivity_stage.
    destruct (truthy sensitivity); [| reflexivity].
    match goal with |- context [if ?c then _ else _] => destruct c end;
      simpl; [reflexivity |].
    apply lookup_insert_ne. exact Hn.
  - unfold emitted_stage. rewrite Hnum.
    case_bool_decide; simpl; [reflexivity |].
    apply lookup_insert_ne. exact Hn.
Qed.

(** Two states that agree on control [n] treat an event for [n] alike. *)
Lemma on_event_agree st st' e :
  agree_on (number e) st st' ->
  snd (on_event deadzone sensitivity st e)
  = snd (on_event deadzone sensitivity st' e)
  /\ agree_on (number e) (fst (on_event deadzone sensitivity st e))
              (fst (on_event deadzone sensitivity st' e)).
Proof.
  intros [Hraw Hem]. unfold agree_on.
  destruct (type e) as [[|] |] eqn:Ht;
    try (unfold on_event; rewrite Ht; simpl; repeat split; assumption).
  rewrite !on_event_axis by exact Ht. simpl.
  destruct (deadzone_stage_fields e) as (Hnum & _ & _).
  assert (Hs : fst (sensitivity_stage sensitivity (lastAxisValue st) e)
               = fst (sensitivity_stage sensitivity (lastAxisValue st') e)
               /\ snd (sensitivity_stage sensitivity (lastAxisValue st) e)
                  !! number e
                  = snd (sensitivity_stage sensitivity (lastAxisValue st') e)
                    !! number e).
  { unfold sensitivity_stage. rewrite Hraw.
    destruct (truthy sensitivity); [| split; [reflexivity | exact Hraw]].
    match goal with |- context [if ?c then _ else _] => destruct c end; simpl.
    - split; [reflexivity | exact Hraw].
    - split; [reflexivity |]. rewrite !lookup_insert_eq. reflexivity. }
  destruct Hs as [Hs1 Hs2]. rewrite Hs1.
  unfold emitted_stage. rewrite Hnum, Hem.
  case_bool_decide; simpl.
  - repeat split; assumption.
  - repeat split; try assumption. rewrite !lookup_insert_eq. reflexivity.
Qed.

Lemma agree_on_trans n st1 st2 st3 :
  agree_on n st1 st2 -> agree_on n st2 st3 -> agree_on n st1 st3.
Proof. unfold agree_on. intros [? ?] [? ?]. split; congruence. Qed.

Lemma fst_feed_cons st e es :
  fst (feed deadzone sensitivity st (e :: es))
  = fst (feed deadzone sensitivity (fst (on_event deadzone sensitivity st e)) es).
Proof.
  simpl. destruct (on_event deadzone sensitivity st e) as [st1 o]. simpl.
  destruct (feed deadzone sensitivity st1 es) as [st2 outs]. reflexivity.
Qed.

Lemma for_axis_feed n es : forall st st',
  agree_on n st st' ->
  List.filter (fun p => fst p =? n)
              (forwarded (snd (feed deadzone sensitivity st es)))
  = forwarded (snd (feed deadzone sensitivity st' (for_axis n es)))
  /\ agree_on n (fst (feed deadzone sensitivity st es))
                (fst (feed deadzone sensitivity st' (for_axis n es))).
Proof.
  induction es as [| e es IH]; intros st st' Hag; [split; [reflexivity | exact Hag] |].
  rewrite forwarded_feed_cons, List.filter_app, fst_feed_cons.
  unfold for_axis. simpl. fold (for_axis n es).
  assert (Hcase : (type e = Some axis /\ number e = n
                   /\ match type e with
                      | Some axis => number e =? n
                      | _ => false
                      end = true)
                  \/ ((type e <> Some axis \/ number e <> n)
                      /\ match type e with
                         | Some axis => number e =? n
                         | _ => false
                         end = false)).
  { destruct (type e) as [[|] |];
      try (right; split; [left; discriminate | reflexivity]).
    destruct (Z.eqb_spec (number e) n); [left | right]; auto. }
  destruct Hcase as [(Ht & Hn & ->) | [Hother ->]].
  - subst n. destruct (on_event_agree st st' e Hag) as [Hout Hag'].
    destruct (IH _ _ Hag') as [IHout IHag].
    rewrite forwarded_feed_cons, fst_feed_cons, <- Hout, IHout.
    split; [| exact IHag]. f_equal.
    destruct (forwarded_on_event st e) as [-> | [_ ->]]; [reflexivity |].
    simpl. rewrite Z.eqb_refl. reflexivity.
  - assert (Hag1 : agree_on n (fst (on_event deadzone sensitivity st e)) st')
      by (eapply agree_on_trans; [apply on_event_other_control; exact Hother
                                 | exact Hag]).
    destruct (IH _ _ Hag1) as [IHout IHag].
    rewrite IHout. split; [| exact IHag].
    destruct (forwarded_on_event st e) as [-> | [Ht ->]]; [reflexivity |].
    simpl. destruct Hother as [Hne | Hne]; [contradiction |].
    destruct (Z.eqb_spec (number e) n); [contradiction | reflexivity].
Qed.

(** X1.  The axes are filtered independently of one another and of
    everything else that is read: of what a stream of events forwards, the
    part for axis [n] is what the axis events for [n] forward when they are
    fed alone, and the two memories of the filter end up with the same
    entries for [n] either way. *)
Theorem controls_filtered_independently (n : Z) es :
  List.filter (fun p => fst p =? n)
              (forwarded (snd (feed deadzone sensitivity initial es)))
  = forwarded (snd (feed deadzone sensitivity initial (for_axis n es)))
  /\ lastAxisValue (fst (feed deadzone sensitivity initial es)) !! n
     = lastAxisValue (fst (feed deadzone sensitivity initial (for_axis n es))) !! n
  /\ lastAxisEmittedValue (fst (feed deadzone sensitivity initial es)) !! n
     = lastAxisEmittedValue
         (fst (feed deadzone sensitivity initial (for_axis n es))) !! n.
Proof.
  destruct (for_axis_feed n es initial initial) as [Hout [Hraw Hem]];
    [split; reflexivity |].
  split; [exact Hout |]. split; [exact Hraw | exact Hem].
Qed.

Lemma clamped_outside (v : Z) :
  0 < deadzone -> clamped deadzone v = 0 \/ deadzone <= Z.abs (clamped deadzone v).
Proof.
  intros Hd. unfold clamped, truthy.
  destruct (Z.eqb_spec deadzone 0); [lia |]. simpl.
  destruct (Z.ltb_spec (Z.abs v) deadzone); [left; reflexivity | right; lia].
Qed.

(** X2.  With a positive deadzone, no stream of events
    gets a nonzero value of magnitude below the deadzone forwarded,
    whatever the state it starts from. *)
Theorem nothing_forwarded_inside_deadzone st es :
  0 < deadzone ->
  Forall (fun p => snd p = 0 \/ deadzone <= Z.abs (snd p))
         (forwarded (snd (feed deadzone sensitivity st es))).
Proof.
  intros Hd. revert st. induction es as [| e es IH]; intros st.
  - constructor.
  - rewrite forwarded_feed_cons. apply Forall_app. split; [| apply IH].
    destruct (forwarded_on_event st e) as [-> | [_ ->]]; [constructor |].
    constructor; [| constructor]. simpl. apply clamped_outside. exact Hd.
Qed.

End FilterStreams.

(** The pendant's deadzone on a stick that wanders around its edge. *)
Lemma nothing_forwarded_inside_deadzone_witness :
  let es := Joystick.axis_event 0 0 <$> [5000; 700; 760; 500; -749; -750] in
  0 < 750
  /\ Forall (fun p => snd p = 0 \/ 750 <= Z.abs (snd p))
            (Joystick.forwarded (snd (Joystick.feed 750 100 Joystick.initial es))).
Proof.
  intros es. split; [lia |].
  apply (nothing_forwarded_inside_deadzone 750 100 Joystick.initial es). lia.
Defined.

Section FilterWithoutSensitivity.

Import Joystick.

Variable deadzone : Z.

Implicit Types (st : FilterState) (e : Event) (es : list Event).

Lemma drop_repeats_adjacent (vs : list Z) : forall prev i v,
  drop_repeats prev vs !! i = Some v ->
  drop_repeats prev vs !! S i <> Some v
  /\ (i = 0%nat -> prev <> Some v).
Proof.
  induction vs as [| x vs IH]; intros prev i v; simpl; [discriminate |].
  case_bool_decide as Hp.
  - apply IH.
  - destruct i as [| i]; simpl.
    + intros [= ->]. split; [| intros _; exact Hp].
      destruct (drop_repeats (Some v) vs) as [| y l] eqn:Hd; [discriminate |].
      simpl. intros [= ->].
      destruct (IH (Some v) 0%nat v) as [_ H0]; [rewrite Hd; reflexivity |].
      apply H0; reflexivity.
    + intros Hi. split; [| discriminate]. apply (IH (Some x) i v Hi).
Qed.

Lemma drop_repeats_last (vs : list Z) : forall prev,
  from_option Some prev (last (drop_repeats prev vs))
  = from_option Some prev (last vs).
Proof.
  induction vs as [| x vs IH]; intros prev; simpl; [reflexivity |].
  case_bool_decide as Hp.
  - rewrite IH, last_cons. destruct (last vs); simpl; congruence.
  - rewrite !last_cons. specialize (IH (Some x)).
    destruct (last (drop_repeats (Some x) vs)), (last vs); simpl in *; congruence.
Qed.

Lemma feed_without_sensitivity n es : forall st,
  Forall (fun e => type e = Some axis /\ number e = n) es ->
  forwarded (snd (feed deadzone 0 st es))
  = (fun v => (n, v))
    <$> drop_repeats (lastAxisEmittedValue st !! n)
                     ((fun e => clamped deadzone (value e)) <$> es).
Proof.
  induction es as [| e es IH]; intros st Hall; [reflexivity |].
  inversion Hall as [| ? ? [Ht Hn] Hrest]; subst.
  rewrite forwarded_feed_cons, (IH _ Hrest). clear IH.
  rewrite on_event_axis by exact Ht. simpl.
  destruct (deadzone_stage_fields deadzone e) as (Hnum & Hty & Hval).
  unfold emitted_stage. rewrite Hnum, Hval, Hty, Ht.
  case_bool_decide as Hdup; simpl.
  - reflexivity.
  - rewrite lookup_insert_eq, Hnum, Hval. reflexivity.
Qed.

(** With sensitivity 0 every axis event leaves its clamped value stored as
    the last emitted one, forwarded or not. *)
Lemma stored_without_sensitivity n es : forall st,
  Forall (fun e => type e = Some axis /\ number e = n) es ->
  lastAxisEmittedValue (fst (feed deadzone 0 st es)) !! n
  = match last es with
    | Some e => Some (clamped deadzone (value e))
    | None => lastAxisEmittedValue st !! n
    end.
Proof.
  induction es as [| e es IH]; intros st Hall; [reflexivity |].
  inversion Hall as [| ? ? [Ht Hn] Hrest]; subst.
  rewrite fst_feed_cons, (IH _ Hrest), last_cons. clear IH.
  destruct (last es) as [e' |]; [reflexivity |].
  rewrite on_event_axis by exact Ht. simpl.
  destruct (deadzone_stage_fields deadzone e) as (Hnum & _ & Hval).
  unfold emitted_stage. rewrite Hnum, Hval.
  case_bool_decide as Hdup; simpl; [exact Hdup | apply lookup_insert_eq].
Qed.

(** X3.  With sensitivity 0 the filter is the deadzone clamp followed by
    the removal of repeats: of a stream of axis events for one control,
    fed to a fresh joystick, exactly the clamped values that differ from
    the clamped value before them are forwarded.  So no forwarded value
    repeats the one forwarded before it, and the last value forwarded is
    the clamp of the last value read.  In the filter that clamp is then
    what is stored as the last emitted value of the control, and no raw
    value is stored at all. *)
Theorem without_sensitivity_clamp_and_drop_repeats (n : Z) es :
  Forall (fun e => type e = Some axis /\ number e = n) es ->
  let out := forwarded (snd (feed deadzone 0 initial es)) in
  let st := fst (feed deadzone 0 initial es) in
  out = (fun v => (n, v))
        <$> drop_repeats None ((fun e => clamped deadzone (value e)) <$> es)
  /\ (forall i p, out !! i = Some p -> out !! S i <> Some p)
  /\ last out = (fun e => (n, clamped deadzone (value e))) <$> last es
  /\ lastAxisEmittedValue st !! n
     = (fun e => clamped deadzone (value e)) <$> last es
  /\ lastAxisValue st = ∅.
Proof.
  intros Hall out st.
  assert (Hout : out = (fun v => (n, v))
                       <$> drop_repeats None
                             ((fun e => clamped deadzone (value e)) <$> es)).
  { unfold out. rewrite (feed_without_sensitivity n es initial Hall).
    reflexivity. }
  split; [exact Hout |]. rewrite Hout. split; [| split; [| split]].
  - intros i [m v]. rewrite !list_lookup_fmap.
    destruct (drop_repeats None _ !! i) as [v' |] eqn:Hi; [| discriminate].
    simpl. intros [= <- <-].
    destruct (drop_repeats_adjacent _ _ _ _ Hi) as [Hnext _].
    destruct (drop_repeats None _ !! S i) as [v'' |]; [| discriminate].
    simpl. intros [= ->]. apply Hnext. reflexivity.
  - rewrite !fmap_last.
    pose proof (drop_repeats_last ((fun e => clamped deadzone (value e)) <$> es)
                  None) as Hl.
    rewrite fmap_last in Hl.
    destruct (last (drop_repeats None _)) as [v |],
             (last es) as [e |]; simpl in *; congruence.
  - unfold st. rewrite (stored_without_sensitivity n es initial Hall).
    destruct (last es); [reflexivity |]. apply lookup_empty.
  - unfold st. rewrite feed_sensitivity_off by reflexivity. reflexivity.
Qed.

End FilterWithoutSensitivity.

(** A stick that wanders around the edge of a deadzone of 750. *)
Lemma without_sensitivity_clamp_and_drop_repeats_witness :
  let es := Joystick.axis_event 0 0 <$> [800; 740; 0; 760; 760] in
  let out := Joystick.forwarded
               (snd (Joystick.feed 750 0 Joystick.initial es)) in
  let st := fst (Joystick.feed 750 0 Joystick.initial es) in
  Forall (fun e => Joystick.type e = Some Joystick.axis
                   /\ Joystick.number e = 0) es
  /\ out = (fun v => (0, v))
           <$> Joystick.drop_repeats None
                 ((fun e => Joystick.clamped 750 (Joystick.value e)) <$> es)
  /\ (forall i p, out !! i = Some p -> out !! S i <> Some p)
  /\ last out
     = (fun e => (0, Joystick.clamped 750 (Joystick.value e))) <$> last es
  /\ Joystick.lastAxisEmittedValue st !! 0
     = (fun e => Joystick.clamped 750 (Joystick.value e)) <$> last es
  /\ Joystick.lastAxisValue st = ∅.
Proof.
  intros es out st.
  assert (Hall : Forall (fun e => Joystick.type e = Some Joystick.axis
                                  /\ Joystick.number e = 0) es)
    by (repeat constructor).
  split; [exact Hall |].
  exact (without_sensitivity_clamp_and_drop_repeats 750 0 es Hall).
Defined.

(* ===================================================================== *)
(** * Further properties of the button gesture state machine *)
(* ===================================================================== *)

Section ButtonTraces.

Import ButtonState.

Lemma step_consistent (w : World) (i : Input) :
  consistent w -> exists w', step w i = Ok w' /\ consistent w'.
Proof.
  destruct w as [[p lp T h] [c nx ts] l]. unfold consistent. simpl.
  destruct i as [| | dt]; simpl.
  - destruct p; simpl.
    + intros H. eexists. split; [reflexivity |]. exact H.
    + destruct lp; [contradiction |]. intros [-> Hc].
      eexists. split; [reflexivity |]. simpl. split; [| exact Hc].
      eexists. split; reflexivity.
  - destruct p; simpl.
    + destruct lp; simpl.
      * intros [-> (l' & -> & Hc)]. eexists. split; [reflexivity |]. simpl.
        split; [reflexivity |]. rewrite <- app_assoc. simpl.
        apply complete_long. exact Hc.
      * intros [(t & -> & Ht) Hc]. eexists. split; [reflexivity |]. simpl.
        rewrite Ht, Z.eqb_refl. simpl. split; [reflexivity |].
        apply complete_short. exact Hc.
    + intros H. eexists. split; [reflexivity |]. simpl.
      rewrite app_nil_r. exact H.
  - unfold Timers.elapse. simpl.
    destruct p, lp; simpl; try contradiction.
    + intros [-> H]. eexists. split; [reflexivity |]. simpl. split; [reflexivity | exact H].
    + intros [(t & -> & Ht) Hc]. simpl. unfold Timers.pop_due. simpl.
      destruct (Timers.due t <=? c + dt); simpl.
      * rewrite Z.eqb_refl. simpl. eexists. split; [reflexivity |]. simpl.
        split; [reflexivity |]. eexists. split; [reflexivity | exact Hc].
      * eexists. split; [reflexivity |]. simpl. split; [| exact Hc].
        eexists. split; [reflexivity | exact Ht].
    + intros [-> Hc]. eexists. split; [reflexivity |]. simpl. split; [reflexivity | exact Hc].
Qed.

Lemma run_consistent (inputs : list Input) : forall w,
  consistent w -> exists w', run w inputs = Ok w' /\ consistent w'.
Proof.
  induction inputs as [| i inputs IH]; intros w Hw; simpl.
  - exists w. split; [reflexivity | exact Hw].
  - destruct (step_consistent w i Hw) as (w1 & -> & Hw1). simpl.
    apply IH. exact Hw1.
Qed.

(** X4.  Whatever the sequence of presses, releases and waits a button
    goes through, its callbacks run as whole gestures: each is a short
    press, or a long press followed, before anything else, by its cancel;
    only a last long press may still lack its cancel.  At most one timer is
    ever armed, and none while the button is not pressed, so no long press
    fires after a release. *)
Theorem button_callbacks_form_gestures
    (T handle now next : Z) (inputs : list ButtonState.Input) :
  exists w,
    run (idle T handle now next) inputs = Ok w
    /\ gesture_log (calls w)
    /\ (length (Timers.armed (queue w)) <= 1)%nat
    /\ (pending (button w) = false -> Timers.armed (queue w) = [])
    /\ (long_pressed (button w) = true -> pending (button w) = true).
Proof.
  destruct (run_consistent inputs (idle T handle now next)) as (w & Hr & Hw).
  { unfold consistent. simpl. split; [reflexivity | constructor]. }
  exists w. split; [exact Hr |]. unfold consistent in Hw. unfold gesture_log.
  destruct (pending (button w)), (long_pressed (button w));
    try contradiction.
  - destruct Hw as [-> Hl]. repeat split; auto.
  - destruct Hw as [(t & -> & _) Hc]. repeat split; auto; discriminate.
  - destruct Hw as [-> Hc]. repeat split; auto; discriminate.
Qed.

End ButtonTraces.

(* ===================================================================== *)
(** * Invariants of the pendant *)
(* ===================================================================== *)

(** Open a handler up into its cases. *)
Ltac handler_unfold :=
  cbv beta delta
    [Pendant.onA Pendant.onB Pendant.onX Pendant.onY Pendant.onXXX
     Pendant.onLB Pendant.onRB Pendant.onStart Pendant.onL3 Pendant.onR3
     Pendant.onLSX Pendant.onLSY Pendant.onRSX Pendant.onRSY Pendant.onRT
     Pendant.onLT Pendant.onPADX Pendant.onPADY Pendant.plain
     Pendant.press Pendant.unpress Pendant.onTimeout Pendant.invoke
     Pendant.jogShort Pendant.jogLong Pendant.cancelJog Pendant.jog
     ButtonState.press ButtonState.unpress ButtonState.onTimeout
     Pendant.stickMovement Pendant.triggerMovement Pendant.checkController
     Pendant.on_joy_error Pendant.on_joy_ready Pendant.on_serialport_read
     Pendant.run_jogPendingTimeout Pendant.fire];
  simpl.

Ltac handler_cases :=
  handler_unfold; repeat (case_match; simpl in *; try discriminate).

Section LoopInvariant.

Context {A S : Type}.
Variable get_queue : S -> Timers.Queue A.
Variable put_queue : Timers.Queue A -> S -> S.
Variable fire : A -> S -> result S.
Variable P : S -> Prop.

(** What holds before a timer pops holds after its callback has run. *)
Hypothesis fire_keeps : forall target st t q st',
  P st ->
  Timers.pop_due target (get_queue st) = Some (t, q) ->
  fire (Timers.action t) (put_queue q st) = Ok st' ->
  P st'.

Lemma fire_due_keeps fuel target : forall st st',
  P st ->
  Timers.fire_due get_queue put_queue fire fuel target st = Ok st' ->
  P st'.
Proof.
  induction fuel as [| fuel IH]; intros st st' HP; simpl.
  - intros [= <-]. exact HP.
  - destruct (Timers.pop_due target (get_queue st)) as [[t q] |] eqn:Hp.
    + destruct (fire (Timers.action t) (put_queue q st)) as [st1 | err] eqn:Hf;
        simpl; [| discriminate].
      apply IH. exact (fire_keeps _ _ _ _ _ HP Hp Hf).
    + intros [= <-]. exact HP.
Qed.

(** If, besides, no callback raises, [fire_due] does not raise. *)
Hypothesis fire_runs : forall target st t q,
  P st ->
  Timers.pop_due target (get_queue st) = Some (t, q) ->
  exists st', fire (Timers.action t) (put_queue q st) = Ok st'.

Lemma fire_due_runs fuel target : forall st,
  P st ->
  exists st', Timers.fire_due get_queue put_queue fire fuel target st = Ok st'.
Proof.
  induction fuel as [| fuel IH]; intros st HP; simpl.
  - eexists. reflexivity.
  - destruct (Timers.pop_due target (get_queue st)) as [[t q] |] eqn:Hp.
    + destruct (fire_runs _ _ _ _ HP Hp) as [st1 Hf]. rewrite Hf. simpl.
      apply IH. exact (fire_keeps _ _ _ _ _ HP Hp Hf).
    + eexists. reflexivity.
Qed.

End LoopInvariant.

Section PendantInvariant.

Import Pendant.

Variable P : State -> Prop.

Hypothesis log_keeps : forall l s, P s -> P (emit (ConsoleLog l) s).
Hypothesis buttons_keep : forall v,
  keeps P (onA v) /\ keeps P (plain onB v) /\ keeps P (plain onXXX v)
  /\ keeps P (plain onX v) /\ keeps P (onY v) /\ keeps P (plain onLB v)
  /\ keeps P (plain onRB v) /\ keeps P (plain onStart v)
  /\ keeps P (plain onL3 v) /\ keeps P (plain onR3 v).
Hypothesis axes_keep : forall v,
  keeps P (plain onLSX v) /\ keeps P (plain onLSY v)
  /\ keeps P (plain onRSX v) /\ keeps P (plain onRSY v)
  /\ keeps P (plain onRT v) /\ keeps P (plain onLT v)
  /\ keeps P (onPADX v) /\ keeps P (onPADY v).
Hypothesis others_keep : forall s,
  P s ->
  (forall err, P (on_joy_error err s))
  /\ P (on_joy_ready s)
  /\ (forall data, P (on_serialport_read data s))
  /\ P (stickMovement s) /\ P (triggerMovement s) /\ P (checkController s).
Hypothesis fire_keeps : forall target s t q s',
  P s ->
  Timers.pop_due target (queue s) = Some (t, q) ->
  fire (Timers.action t) (set_queue q s) = Ok s' ->
  P s'.
Hypothesis clock_keeps : forall s c,
  P s -> Timers.clock (queue s) <= c ->
  P (set_queue (Timers.set_clock (queue s) c) s).

Lemma BUTTONS_keep (n v : Z) (c : Control) :
  BUTTONS !! n = Some c -> keeps P (cb c v).
Proof.
  destruct (buttons_keep v)
    as (HA & HB & HXXX & HX & HY & HLB & HRB & HStart & HL3 & HR3).
  unfold BUTTONS. simpl. intros Hc.
  repeat (apply lookup_insert_Some in Hc;
          destruct Hc as [[_ <-] | [_ Hc]]; [assumption |]).
  rewrite lookup_empty in Hc. discriminate.
Qed.

Lemma AXES_keep (n v : Z) (c : Control) :
  AXES !! n = Some c -> keeps P (cb c v).
Proof.
  destruct (axes_keep v)
    as (HLSX & HLSY & HRSX & HRSY & HRT & HLT & HPX & HPY).
  unfold AXES. simpl. intros Hc.
  repeat (apply lookup_insert_Some in Hc;
          destruct Hc as [[_ <-] | [_ Hc]]; [assumption |]).
  rewrite lookup_empty in Hc. discriminate.
Qed.

(** A property kept by every handler is kept by every step of the event
    loop. *)
Lemma step_keeps (i : Input) : keeps P (fun s => step s i).
Proof.
  intros s s' HP.
  destruct (others_keep s HP) as (Herr & Hready & Hread & Hstick & Htrig & Hctl).
  destruct i as [[err | [[|] |] e] | | data | dt | | |]; simpl.
  - intros [= <-]. apply Herr.
  - unfold on_joy_button.
    destruct (BUTTONS !! Joystick.number e) as [c |] eqn:Hc;
      [| destruct (Joystick.init e); discriminate].
    destruct (Joystick.init e).
    + intros [= <-]. apply log_keeps. exact HP.
    + apply (BUTTONS_keep _ _ _ Hc). exact HP.
  - unfold on_joy_axis.
    destruct (AXES !! Joystick.number e) as [c |] eqn:Hc;
      [| destruct (Joystick.init e); discriminate].
    destruct (Joystick.init e).
    + intros [= <-]. apply log_keeps. exact HP.
    + apply (AXES_keep _ _ _ Hc). apply log_keeps. exact HP.
  - intros [= <-]. exact HP.
  - intros [= <-]. exact Hready.
  - intros [= <-]. apply Hread.
  - unfold Timers.elapse.
    destruct (Timers.fire_due _ _ _ _ _ s) as [s1 | err] eqn:Hf; simpl;
      [| discriminate].
    intros [= <-]. apply clock_keeps; [| lia].
    exact (fire_due_keeps queue set_queue fire P fire_keeps _ _ _ _ HP Hf).
  - intros [= <-]. exact Hstick.
  - intros [= <-]. exact Htrig.
  - intros [= <-]. exact Hctl.
Qed.

End PendantInvariant.

(** What every step keeps, every run keeps. *)
Lemma run_keeps (P : Pendant.State -> Prop) :
  (forall i, Pendant.keeps P (fun s => Pendant.step s i)) ->
  forall inputs s s', P s -> Pendant.run s inputs = Ok s' -> P s'.
Proof.
  intros Hstep inputs.
  induction inputs as [| i inputs IH]; intros s s' HP; simpl.
  - intros [= <-]. exact HP.
  - destruct (Pendant.step s i) as [s1 | err] eqn:Hs; simpl; [| discriminate].
    apply IH. exact (Hstep i s s1 HP Hs).
Qed.

Section PendantSelectors.

Import Pendant.

Ltac selectors_kept :=
  intros s s' HP; destruct s; unfold selectors_in_range in *; simpl in HP;
  destruct HP as (Hd & Hdo & Hf & Hfo);
  handler_cases; intros [= <-]; simpl;
  (split; [| split; [| split]]);
  auto using increase_in_range, decrease_in_range.

Ltac selectors_kept_plain :=
  intros;
  match goal with HP : selectors_in_range ?s |- _ =>
    destruct s; unfold selectors_in_range in *; simpl in HP;
    destruct HP as (Hd & Hdo & Hf & Hfo)
  end;
  handler_cases; simpl;
  (split; [| split; [| split]]);
  auto using increase_in_range, decrease_in_range.

Lemma selectors_step (i : Input) : keeps selectors_in_range (fun s => step s i).
Proof.
  apply step_keeps.
  - intros l s HP. destruct s. exact HP.
  - intros v. repeat apply conj; selectors_kept.
  - intros v. repeat apply conj; selectors_kept.
  - intros s HP.
    (split; [| split; [| split; [| split; [| split]]]]); selectors_kept_plain.
  - intros target s t q s' HP _.
    assert (HP' : selectors_in_range (set_queue q s)) by (destruct s; exact HP).
    revert HP'. generalize (set_queue q s). clear. intros s HP.
    destruct (Timers.action t); revert s s' HP; selectors_kept.
  - intros s c HP _. destruct s. exact HP.
Qed.

End PendantSelectors.

Section PendantTotality.

Import Pendant.

(** With the selectors in range, no handler raises. *)
Ltac handler_runs :=
  intros s HP; destruct s; unfold selectors_in_range in *; simpl in HP;
  destruct HP as (Hd & _ & Hf & _);
  destruct (get_in_range _ Hd) as (d & Hgd & _);
  destruct (get_in_range _ Hf) as (f & Hgf & _);
  handler_unfold; rewrite ?Hgd, ?Hgf;
  repeat (case_match; simpl in *; try discriminate; rewrite ?Hgd, ?Hgf);
  eexists; reflexivity.

Lemma button_handlers_run (v : Z) :
  forall h, In h [onA v; plain onB v; plain onXXX v; plain onX v; onY v;
                  plain onLB v; plain onRB v; plain onStart v; plain onL3 v;
                  plain onR3 v; plain onLSX v; plain onLSY v; plain onRSX v;
                  plain onRSY v; plain onRT v; plain onLT v; onPADX v; onPADY v] ->
  forall s, selectors_in_range s -> exists s', h s = Ok s'.
Proof.
  intros h Hin. simpl in Hin.
  repeat (destruct Hin as [<- | Hin]; [handler_runs |]). contradiction.
Qed.

Lemma BUTTONS_known (n : Z) :
  0 <= n <= 14 -> exists c, BUTTONS !! n = Some c.
Proof.
  intros Hn.
  assert (H : n ∈ seqZ 0 15) by (apply elem_of_seqZ; lia).
  vm_compute in H.
  repeat (apply elem_of_cons in H; destruct H as [-> | H];
          [eexists; reflexivity |]).
  inversion H.
Qed.

Lemma AXES_known (n : Z) :
  0 <= n <= 7 -> exists c, AXES !! n = Some c.
Proof.
  intros Hn.
  assert (H : n ∈ seqZ 0 8) by (apply elem_of_seqZ; lia).
  vm_compute in H.
  repeat (apply elem_of_cons in H; destruct H as [-> | H];
          [eexists; reflexivity |]).
  inversion H.
Qed.

Lemma table_handlers_run (n v : Z) (c : Control) :
  BUTTONS !! n = Some c \/ AXES !! n = Some c ->
  forall s, selectors_in_range s -> exists s', cb c v s = Ok s'.
Proof.
  intros Hc. apply (button_handlers_run v). simpl.
  destruct Hc as [Hc | Hc]; [unfold BUTTONS in Hc | unfold AXES in Hc];
    simpl in Hc;
    repeat (apply lookup_insert_Some in Hc;
            destruct Hc as [[_ <-] | [_ Hc]]; [simpl; tauto |]);
    rewrite lookup_empty in Hc; discriminate.
Qed.

Lemma selectors_log l s :
  selectors_in_range s -> selectors_in_range (emit (ConsoleLog l) s).
Proof. destruct s. exact (fun H => H). Qed.

(** With the selectors in range, a step raises only for a control that is
    in neither table. *)
Lemma step_runs (i : Input) (s : State) :
  selectors_in_range s -> in_tables i = true -> exists s', step s i = Ok s'.
Proof.
  intros HP.
  destruct i as [[err | [[|] |] e] | | data | dt | | |]; simpl;
    try (intros _; eexists; reflexivity).
  - intros Hn. destruct (BUTTONS_known (Joystick.number e)) as [c Hc]; [lia |].
    unfold on_joy_button. rewrite Hc. destruct (Joystick.init e).
    + eexists. reflexivity.
    + apply (table_handlers_run (Joystick.number e)); auto.
  - intros Hn. destruct (AXES_known (Joystick.number e)) as [c Hc]; [lia |].
    unfold on_joy_axis. rewrite Hc. destruct (Joystick.init e).
    + eexists. reflexivity.
    + apply (table_handlers_run (Joystick.number e)); auto.
      apply selectors_log. exact HP.
  - intros _. unfold Timers.elapse.
    destruct (fire_due_runs queue set_queue fire selectors_in_range)
      with (fuel := (2 * length (Timers.armed (queue s)))%nat)
           (target := Timers.clock (queue s) + dt) (st := s) as [s1 Hs1].
    + intros target st t q st' Hst Hp Hf.
      assert (HP' : selectors_in_range (set_queue q st)) by (destruct st; exact Hst).
      revert HP' Hf. generalize (set_queue q st). clear. intros s HP.
      destruct (Timers.action t); revert HP; destruct s;
        unfold selectors_in_range; simpl; intros (Hd & Hdo & Hf & Hfo);
        handler_cases; intros [= <-]; simpl; auto.
    + intros target st t q Hst Hp.
      assert (HP' : selectors_in_range (set_queue q st)) by (destruct st; exact Hst).
      revert HP'. generalize (set_queue q st). clear.
      destruct (Timers.action t); handler_runs.
    + exact HP.
    + rewrite Hs1. simpl. eexists. reflexivity.
Qed.

Lemma run_runs (inputs : list Input) : forall s,
  selectors_in_range s -> forallb in_tables inputs = true ->
  exists s', run s inputs = Ok s'.
Proof.
  induction inputs as [| i inputs IH]; intros s HP; simpl.
  - intros _. eexists. reflexivity.
  - intros Hk. apply andb_true_iff in Hk. destruct Hk as [Hi Hk].
    destruct (step_runs i s HP Hi) as [s1 Hs1]. rewrite Hs1. simpl.
    apply IH; [| exact Hk]. exact (selectors_step i s s1 HP Hs1).
Qed.

Lemma run_raises (inputs : list Input) : forall s s',
  run s inputs = Ok s' -> forallb in_tables inputs = true.
Proof.
  induction inputs as [| i inputs IH]; intros s s'; simpl; [reflexivity |].
  destruct (step s i) as [s1 | err] eqn:Hs; simpl; [| discriminate].
  intros Hr. rewrite (IH _ _ Hr), andb_true_r.
  destruct i as [[err | [[|] |] e] | | data | dt | | |]; simpl; try reflexivity.
  - destruct (unknown_control_raises e s) as [Hb _]. simpl in Hs.
    destruct (Z.leb_spec 0 (Joystick.number e)),
             (Z.leb_spec (Joystick.number e) 14); try reflexivity;
      rewrite Hb in Hs by lia; discriminate.
  - destruct (unknown_control_raises e s) as [_ Ha]. simpl in Hs.
    destruct (Z.leb_spec 0 (Joystick.number e)),
             (Z.leb_spec (Joystick.number e) 7); try reflexivity;
      rewrite Ha in Hs by lia; discriminate.
Qed.

Lemma initial_selectors : selectors_in_range initial.
Proof. unfold selectors_in_range, Selector.in_range. simpl. repeat split; lia. Qed.

(** Left to itself the pendant runs a sequence of inputs to its end
    exactly when every control named in it is in the tables. *)
Lemma run_completes_iff_in_tables (inputs : list Input) :
  (exists s, run initial inputs = Ok s) <-> forallb in_tables inputs = true.
Proof.
  split.
  - intros [s Hs]. exact (run_raises inputs initial s Hs).
  - apply run_runs. exact initial_selectors.
Qed.

(** As long as the socket is there, the event loop runs the pendant's
    handlers and nothing else. *)
Lemma run_connected (inputs : list Session.Input) : forall e p,
  forallb (fun i => negb (Session.socket_error i)) inputs = true ->
  Session.run {| Session.socket := true; Session.stderr := e;
                 Session.pendant := p |} inputs
  = match run p (omap (fun i => match i with
                                | Session.Loop i' => Some i'
                                | Session.SocketError _ => None
                                end) inputs) with
    | Ok p' => Ok {| Session.socket := true; Session.stderr := e;
                     Session.pendant := p' |}
    | Throw err => Throw err
    end.
Proof.
  induction inputs as [| i inputs IH]; intros e p Hq; [reflexivity |].
  simpl in Hq. apply andb_true_iff in Hq. destruct Hq as [Hi Hq].
  destruct i as [err | i]; [discriminate |]. simpl.
  destruct (step p i) as [p1 | err]; simpl; [| reflexivity].
  apply IH. exact Hq.
Qed.

(** X5.  As long as the socket has not reported an error, the event loop
    (the joystick's events, the acknowledgement lines, the timers and the
    three interval callbacks), started on a fresh pendant, runs a sequence
    of inputs to its end exactly when every button event in it is for a
    button from 0 to 14 and every axis event for an axis from 0 to 7:
    nothing else makes a handler raise, whatever the values, the timing and
    the order of the inputs.  Once the socket has reported an error the
    variable [socket] is [null] and a handler raises as soon as it sends;
    such runs are left aside here. *)
Theorem pendant_raises_only_on_unknown_control (inputs : list Session.Input) :
  forallb (fun i => negb (Session.socket_error i)) inputs = true ->
  (exists s, Session.run Session.initial inputs = Ok s)
  <-> forallb Session.in_tables inputs = true.
Proof.
  intros Hq. unfold Session.initial. rewrite (run_connected inputs _ _ Hq).
  assert (Hk : forallb Session.in_tables inputs
               = forallb in_tables
                   (omap (fun i => match i with
                                   | Session.Loop i' => Some i'
                                   | Session.SocketError _ => None
                                   end) inputs)).
  { clear Hq. induction inputs as [| [err | i] inputs IH]; simpl;
      [reflexivity | exact IH | rewrite IH; reflexivity]. }
  rewrite Hk, <- run_completes_iff_in_tables.
  destruct (run initial _) as [p' | err]; split.
  - intros _. eexists. reflexivity.
  - intros _. eexists. reflexivity.
  - intros [s Hs]. discriminate.
  - intros [s Hs]. discriminate.
Qed.

(** Once the socket has reported an error, what sends raises: the release
    of LB, which cancels the jog, ends the run. *)
Example release_after_socket_error_raises :
  Session.run Session.initial
    [Session.Loop (button_input 6 1); Session.SocketError "timeout";
     Session.Loop (button_input 6 0)]
  = Throw TypeError.
Proof. reflexivity. Qed.

(** X6.  However the D-pad has been used, both selectors of the pendant
    hold an index inside their option list: the selected step distance is
    one of 0.01, 0.1, 1 and 10, the selected feedrate one of 100, 500, 1000
    and 2000, and neither selection is ever undefined. *)
Theorem pendant_selection_defined (inputs : list Input) (s : State) :
  run initial inputs = Ok s ->
  0 <= Selector.index (step_distance_selection s) <= 3
  /\ 0 <= Selector.index (step_feedrate_selection s) <= 3
  /\ (exists d, Selector.get (step_distance_selection s) = Some d
                /\ d ∈ STEP_DISTANCES)
  /\ (exists f, Selector.get (step_feedrate_selection s) = Some f
                /\ f ∈ STEP_FEEDRATES).
Proof.
  intros Hr.
  pose proof (run_keeps selectors_in_range selectors_step inputs initial s
                initial_selectors Hr) as (Hd & Hdo & Hf & Hfo).
  destruct (get_in_range _ Hd) as (d & Hgd & Hind).
  destruct (get_in_range _ Hf) as (f & Hgf & Hinf).
  unfold Selector.in_range in Hd, Hf. rewrite Hdo in Hd, Hind.
  rewrite Hfo in Hf, Hinf. simpl in Hd, Hf.
  split; [lia |]. split; [lia |]. split; eauto.
Qed.

End PendantTotality.

(** LB pressed and released, then an event for button 15, which the table
    does not have. *)
Lemma pendant_raises_only_on_unknown_control_witness :
  let known := [Session.Loop (Pendant.button_input 6 1);
                Session.Loop (Pendant.button_input 6 0)] in
  let inputs := known ++ [Session.Loop (Pendant.button_input 15 1)] in
  ((exists s, Session.run Session.initial known = Ok s)
   <-> forallb Session.in_tables known = true)
  /\ forallb Session.in_tables known = true
  /\ ((exists s, Session.run Session.initial inputs = Ok s)
      <-> forallb Session.in_tables inputs = true)
  /\ forallb Session.in_tables inputs = false.
Proof.
  intros known inputs.
  split; [exact (pendant_raises_only_on_unknown_control known eq_refl) |].
  split; [reflexivity |].
  split; [exact (pendant_raises_only_on_unknown_control inputs eq_refl) |].
  reflexivity.
Defined.

(** The D-pad pushed right three times and up once, LB not held. *)
Lemma pendant_selection_defined_witness :
  let inputs := [Pendant.axis_input 6 32767; Pendant.axis_input 6 0;
                 Pendant.axis_input 6 32767; Pendant.axis_input 6 0;
                 Pendant.axis_input 6 32767; Pendant.axis_input 7 (-32767)] in
  let s := match Pendant.run Pendant.initial inputs with
           | Ok s => s
           | Throw _ => Pendant.initial
           end in
  Pendant.run Pendant.initial inputs = Ok s
  /\ 0 <= Selector.index (Pendant.step_distance_selection s) <= 3
  /\ 0 <= Selector.index (Pendant.step_feedrate_selection s) <= 3
  /\ (exists d, Selector.get (Pendant.step_distance_selection s) = Some d
                /\ d ∈ Pendant.STEP_DISTANCES)
  /\ (exists f, Selector.get (Pendant.step_feedrate_selection s) = Some f
                /\ f ∈ Pendant.STEP_FEEDRATES).
Proof.
  intros inputs s.
  assert (Hr : Pendant.run Pendant.initial inputs = Ok s) by reflexivity.
  split; [exact Hr |].
  exact (pendant_selection_defined inputs s Hr).
Defined.

Section PendantSpindle.

Import Pendant.

Ltac spindle_solved :=
  try solve [ exfalso;
              repeat match goal with
                     | H : context [truthy ?x] |- _ =>
                         destruct (truthy x); simpl in *; try discriminate
                     end ];
  unfold spindle_edges in *; rewrite ?fold_left_app; simpl;
  match goal with
  | HP : fold_left spindle_edge _ _ = _ |- _ => rewrite ?HP
  end; reflexivity.

Ltac spindle_kept :=
  intros s s' HP; destruct s;
  unfold spindle_tracked in *; simpl in HP;
  repeat match goal with b : bool |- _ => destruct b end;
  handler_cases; intros [= <-]; simpl; spindle_solved.

Ltac spindle_kept_plain :=
  intros;
  match goal with HP : spindle_tracked ?s |- _ =>
    destruct s;
    unfold spindle_tracked in *; simpl in HP
  end;
  repeat match goal with b : bool |- _ => destruct b end;
  handler_cases; simpl; spindle_solved.

Lemma spindle_step (i : Input) : keeps spindle_tracked (fun s => step s i).
Proof.
  apply step_keeps.
  - spindle_kept_plain.
  - intros v. repeat apply conj; spindle_kept.
  - intros v. repeat apply conj; spindle_kept.
  - intros s HP.
    (split; [| split; [| split; [| split; [| split]]]]); spindle_kept_plain.
  - intros target s t q s' HP _.
    assert (HP' : spindle_tracked (set_queue q s)) by (destruct s; exact HP).
    revert HP'. generalize (set_queue q s). clear. intros s HP.
    destruct (Timers.action t); revert s s' HP; spindle_kept.
  - intros s c HP _. destruct s. exact HP.
Qed.

(** X7.  The spindle is switched off on an edge, never twice: in the
    output of any run of the pendant every [M5] comes after an [M3] with no
    other [M5] in between, and [spindle_active] says whether the last
    spindle command sent was an [M3]. *)
Theorem spindle_off_only_after_on (inputs : list Input) (s : State) :
  run initial inputs = Ok s ->
  spindle_edges (out s) = (true, spindle_active s).
Proof.
  apply (run_keeps spindle_tracked spindle_step). reflexivity.
Qed.

End PendantSpindle.

(** Both bumpers held over a slow tick, then released one after the other,
    LB twice. *)
Lemma spindle_off_only_after_on_witness :
  let inputs := [Pendant.button_input 6 1; Pendant.button_input 7 1;
                 Pendant.TriggerTick; Pendant.button_input 7 0;
                 Pendant.button_input 6 0; Pendant.button_input 6 0] in
  let s := match Pendant.run Pendant.initial inputs with
           | Ok s => s
           | Throw _ => Pendant.initial
           end in
  Pendant.run Pendant.initial inputs = Ok s
  /\ Pendant.spindle_edges (Pendant.out s) = (true, Pendant.spindle_active s).
Proof.
  intros inputs s.
  assert (Hr : Pendant.run Pendant.initial inputs = Ok s) by reflexivity.
  split; [exact Hr |].
  exact (spindle_off_only_after_on inputs s Hr).
Defined.

Section PendantDeadman.

Import Pendant.

Lemma set_button_same (f : ButtonName -> ButtonState.t) b b' :
  <[b := f b]> f b' = f b'.
Proof.
  unfold insert, fn_insert. case_decide; congruence.
Qed.

Ltac resting_solved :=
  unfold jogs_sent; simpl; rewrite ?omap_app; simpl; rewrite ?app_nil_r;
  repeat split; auto;
  try (intros b; rewrite ?set_button_same; auto).

Ltac resting_open :=
  match goal with HP : resting _ ?s |- _ =>
    destruct s; unfold resting, at_rest in *; simpl in HP;
    destruct HP as ((Hlb & Hpend & Harmed) & Hsent); subst
  end.

Ltac none_pending :=
  match goal with
  | H : forall b, ButtonState.pending _ = false |- _ =>
      repeat first [ rewrite set_button_same in * | rewrite H in * ];
      simpl in *
  end.

Ltac resting_kept :=
  intros s s' HP; resting_open;
  handler_unfold; none_pending;
  repeat (case_match; simpl in *; try discriminate; none_pending);
  intros [= <-]; resting_solved.

Ltac resting_kept_plain :=
  intros; resting_open;
  handler_unfold; none_pending;
  repeat (case_match; simpl in *; try discriminate; none_pending);
  resting_solved.

Lemma resting_buttons sent (v : Z) :
  keeps (resting sent) (onA v) /\ keeps (resting sent) (plain onB v)
  /\ keeps (resting sent) (plain onXXX v) /\ keeps (resting sent) (plain onX v)
  /\ keeps (resting sent) (onY v) /\ keeps (resting sent) (plain onRB v)
  /\ keeps (resting sent) (plain onStart v)
  /\ keeps (resting sent) (plain onL3 v) /\ keeps (resting sent) (plain onR3 v)
  /\ (truthy v = false -> keeps (resting sent) (plain onLB v)).
Proof.
  repeat apply conj; try resting_kept.
  intros Hv. intros s s' HP; resting_open.
  handler_unfold. rewrite Hv. simpl. intros [= <-].
  destruct spindle_active0; resting_solved.
Qed.

Lemma resting_axes sent (v : Z) :
  keeps (resting sent) (plain onLSX v) /\ keeps (resting sent) (plain onLSY v)
  /\ keeps (resting sent) (plain onRSX v) /\ keeps (resting sent) (plain onRSY v)
  /\ keeps (resting sent) (plain onRT v) /\ keeps (resting sent) (plain onLT v)
  /\ keeps (resting sent) (onPADX v) /\ keeps (resting sent) (onPADY v).
Proof. repeat apply conj; resting_kept. Qed.

Lemma resting_log sent l s :
  resting sent s -> resting sent (emit (ConsoleLog l) s).
Proof. resting_kept_plain. Qed.

Lemma resting_fire sent target s t q s' :
  resting sent s ->
  Timers.pop_due target (queue s) = Some (t, q) ->
  fire (Timers.action t) (set_queue q s) = Ok s' ->
  resting sent s'.
Proof.
  intros HP Hp. apply pop_due_some in Hp. destruct Hp as [Hin Hq].
  resting_open. simpl in *.
  rewrite Forall_forall in Harmed. rewrite (Harmed t Hin).
  simpl. intros [= <-]. simpl. repeat split; auto.
  rewrite Hq. apply Forall_forall. intros x Hx.
  apply list_elem_of_In, filter_In in Hx. apply Harmed, list_elem_of_In. tauto.
Qed.

(** While LB is up and no gesture is under way, a step that is not a press
    of LB sends no jog command and leaves the pendant at rest. *)
Lemma resting_step sent (i : Input) :
  presses_LB i = false -> keeps (resting sent) (fun s => step s i).
Proof.
  intros Hi s s' HP.
  destruct i as [[err | [[|] |] e] | | data | dt | | |]; simpl.
  - intros [= <-]. revert HP. clear. resting_kept_plain.
  - unfold on_joy_button.
    destruct (BUTTONS !! Joystick.number e) as [c |] eqn:Hc;
      [| destruct (Joystick.init e); discriminate].
    simpl in Hi. destruct (Joystick.init e).
    + intros [= <-]. apply resting_log. exact HP.
    + simpl in Hi.
      destruct (resting_buttons sent (Joystick.value e))
        as (HA & HB & HXXX & HX & HY & HRB & HStart & HL3 & HR3 & HLB).
      revert s s' HP. unfold BUTTONS in Hc. simpl in Hc.
      repeat (apply lookup_insert_Some in Hc;
              destruct Hc as [[Hn <-] | [_ Hc]];
              [first [ assumption
                     | apply HLB; rewrite <- Hn in Hi; simpl in Hi; exact Hi ] |]).
      rewrite lookup_empty in Hc. discriminate.
  - unfold on_joy_axis.
    destruct (AXES !! Joystick.number e) as [c |] eqn:Hc;
      [| destruct (Joystick.init e); discriminate].
    destruct (Joystick.init e).
    + intros [= <-]. apply resting_log. exact HP.
    + destruct (resting_axes sent (Joystick.value e))
        as (HLSX & HLSY & HRSX & HRSY & HRT & HLT & HPX & HPY).
      apply resting_log with (l := LogControl (id c) (Joystick.value e)) in HP.
      revert HP. generalize (emit (ConsoleLog (LogControl (id c) (Joystick.value e))) s).
      intros s0 HP. revert s0 s' HP. unfold AXES in Hc. simpl in Hc.
      repeat (apply lookup_insert_Some in Hc;
              destruct Hc as [[_ <-] | [_ Hc]]; [assumption |]).
      rewrite lookup_empty in Hc. discriminate.
  - intros [= <-]. exact HP.
  - intros [= <-]. revert HP. clear. resting_kept_plain.
  - intros [= <-]. revert HP. clear. resting_kept_plain.
  - unfold Timers.elapse.
    destruct (Timers.fire_due _ _ _ _ _ s) as [s1 | err] eqn:Hf; simpl;
      [| discriminate].
    intros [= <-].
    pose proof (fire_due_keeps queue set_queue fire (resting sent)
                  (fun target st t q st' H1 H2 H3 =>
                     resting_fire sent target st t q st' H1 H2 H3)
                  _ _ _ _ HP Hf) as H1.
    revert H1. clear. intros HP. resting_open. simpl. repeat split; auto.
  - intros [= <-]. revert HP. clear. resting_kept_plain.
  - intros [= <-]. revert HP. clear. resting_kept_plain.
  - intros [= <-]. revert HP. clear. resting_kept_plain.
Qed.

(** X8.  The deadman switch: from a state with LB up and no gesture under
    way, for as long as LB is not pressed nothing sends a jog command, and
    the pendant stays in such a state: not the sticks, not the D-pad, not
    the A and Y buttons, and no timer. *)
Theorem no_jog_while_deadman_released (inputs : list Input) : forall s s',
  at_rest s ->
  forallb (fun i => negb (presses_LB i)) inputs = true ->
  run s inputs = Ok s' ->
  jogs_sent s' = jogs_sent s /\ at_rest s'.
Proof.
  induction inputs as [| i inputs IH]; intros s s' Hs; simpl.
  - intros _ [= <-]. split; [reflexivity | exact Hs].
  - intros Hq. apply andb_true_iff in Hq. destruct Hq as [Hi Hq].
    apply negb_true_iff in Hi.
    destruct (step s i) as [s1 | err] eqn:Hs1; simpl; [| discriminate].
    intros Hr.
    destruct (resting_step (jogs_sent s) i Hi s s1 (conj Hs eq_refl) Hs1)
      as [Hs1' Hj].
    destruct (IH s1 s' Hs1' Hq Hr) as [Hj' Hrest]. split; congruence.
Qed.

End PendantDeadman.

(** Without the condition on gestures the deadman switch does not hold: a
    press of A that began with LB held still ends, LB released, in its long
    jog. *)
Example long_press_outlives_deadman :
  match Pendant.run Pendant.initial
          [Pendant.button_input 6 1; Pendant.button_input 0 1;
           Pendant.button_input 6 0; Pendant.Elapse 500] with
  | Ok s =>
      Pendant.lb s = false
      /\ Pendant.jogs_sent s
         = [Pendant.JogAxis Pendant.Z_axis (inject_Z (-1) * inject_Z 1000)
                            (Pendant.toFixed 2 (inject_Z 1000))]
  | Throw _ => False
  end.
Proof. vm_compute. split; reflexivity. Qed.

(** A stick at full deflection, a long press of A and a push of the D-pad,
    LB never pressed. *)
Lemma no_jog_while_deadman_released_witness :
  let inputs := [Pendant.axis_input 0 32767; Pendant.StickTick;
                 Pendant.button_input 0 1; Pendant.Elapse 600;
                 Pendant.button_input 0 0; Pendant.axis_input 6 32767;
                 Pendant.button_input 6 0; Pendant.Elapse 1000] in
  let s := match Pendant.run Pendant.initial inputs with
           | Ok s => s
           | Throw _ => Pendant.initial
           end in
  Pendant.at_rest Pendant.initial
  /\ Pendant.run Pendant.initial inputs = Ok s
  /\ Pendant.jogs_sent s = Pendant.jogs_sent Pendant.initial
  /\ Pendant.at_rest s.
Proof.
  intros inputs s.
  assert (H0 : Pendant.at_rest Pendant.initial).
  { split; [reflexivity |]. split; [intros b; reflexivity | constructor]. }
  assert (Hr : Pendant.run Pendant.initial inputs = Ok s) by reflexivity.
  split; [exact H0 |]. split; [exact Hr |].
  exact (no_jog_while_deadman_released inputs Pendant.initial s H0 eq_refl Hr).
Defined.

Section PendantThrottle.

Import Pendant.

(** X9.  The throttle over a run: in a stretch of inputs in which no time
    passes and no acknowledgement arrives, the pendant sends at most one
    jog command, whatever the state it starts in; having sent one it holds
    [jog_pending], and started with [jog_pending] set it sends none. *)
Theorem one_jog_until_cleared (inputs : list Input) : forall s s',
  forallb (fun i => negb (may_clear i)) inputs = true ->
  run s inputs = Ok s' ->
  (jogs_sent s' = jogs_sent s /\ jog_pending s' = jog_pending s)
  \/ (exists cmd, jog_pending s = false
                  /\ jogs_sent s' = jogs_sent s ++ [cmd]
                  /\ jog_pending s' = true).
Proof.
  induction inputs as [| i inputs IH]; intros s s' Hq; simpl.
  - intros [= <-]. left. split; reflexivity.
  - simpl in Hq. apply andb_true_iff in Hq. destruct Hq as [Hi Hq].
    apply negb_true_iff in Hi.
    destruct (step s i) as [s1 | err] eqn:Hs; simpl; [| discriminate].
    intros Hr.
    destruct (jog_pending s) eqn:Hp.
    + destruct (step_blocked i Hi s s1 Hp Hs) as [Hj1 Hp1].
      destruct (run_blocked inputs s1 s' Hq Hr Hp1) as [Hj Hp'].
      left. split; congruence.
    + destruct (step_throttled i Hi s s1 Hp Hs)
        as [[Hj1 Hp1] | (cmd & Hj1 & Hp1)].
      * destruct (IH s1 s' Hq Hr) as [[Hj Hp'] | (cmd & Hp0 & Hj & Hp')].
        -- left. split; congruence.
        -- right. exists cmd. rewrite <- Hj1. auto.
      * destruct (run_blocked inputs s1 s' Hq Hr Hp1) as [Hj Hp'].
        right. exists cmd. rewrite Hj. auto.
Qed.

End PendantThrottle.

(** LB held, the left stick pushed over, three rounds of the stick loop
    and a short press of A. *)
Lemma one_jog_until_cleared_witness :
  let inputs := [Pendant.button_input 6 1; Pendant.axis_input 0 20000;
                 Pendant.StickTick; Pendant.StickTick; Pendant.StickTick;
                 Pendant.button_input 0 1; Pendant.button_input 0 0] in
  let s := match Pendant.run Pendant.initial inputs with
           | Ok s => s
           | Throw _ => Pendant.initial
           end in
  Pendant.run Pendant.initial inputs = Ok s
  /\ ((Pendant.jogs_sent s = Pendant.jogs_sent Pendant.initial
       /\ Pendant.jog_pending s = Pendant.jog_pending Pendant.initial)
      \/ (exists cmd, Pendant.jog_pending Pendant.initial = false
                      /\ Pendant.jogs_sent s
                         = Pendant.jogs_sent Pendant.initial ++ [cmd]
                      /\ Pendant.jog_pending s = true)).
Proof.
  intros inputs s.
  assert (Hr : Pendant.run Pendant.initial inputs = Ok s) by reflexivity.
  split; [exact Hr |].
  exact (one_jog_until_cleared inputs Pendant.initial s eq_refl Hr).
Defined.

Section PendantGating.

Import Pendant.

Ltac gated_solved :=
  simpl;
  first [ exists []; split; [symmetry; apply app_nil_r | reflexivity]
        | rewrite <- ?app_assoc; eexists; split; [reflexivity |];
          reflexivity ].

Ltac gated_by_cases :=
  intros s s'; destruct s as [l r ? ? ? ? ? ? ? ? ? ? ?]; destruct l, r;
  handler_cases; intros [= <-]; gated_solved.

Lemma button_handlers_gated (v : Z) :
  gated (onA v) /\ gated (plain onB v) /\ gated (plain onXXX v)
  /\ gated (plain onX v) /\ gated (onY v) /\ gated (plain onLB v)
  /\ gated (plain onRB v) /\ gated (plain onStart v)
  /\ gated (plain onL3 v) /\ gated (plain onR3 v).
Proof. repeat apply conj; gated_by_cases. Qed.

Lemma axis_handlers_gated (v : Z) :
  gated (plain onLSX v) /\ gated (plain onLSY v)
  /\ gated (plain onRSX v) /\ gated (plain onRSY v)
  /\ gated (plain onRT v) /\ gated (plain onLT v)
  /\ gated (onPADX v) /\ gated (onPADY v).
Proof. repeat apply conj; gated_by_cases. Qed.

Lemma other_handlers_gated :
  (forall err, gated (fun s => Ok (on_joy_error err s)))
  /\ gated (fun s => Ok (on_joy_ready s))
  /\ (forall data, gated (fun s => Ok (on_serialport_read data s)))
  /\ gated (fun s => Ok (stickMovement s))
  /\ gated (fun s => Ok (triggerMovement s))
  /\ gated (fun s => Ok (checkController s)).
Proof.
  split; [intros err; gated_by_cases |]. split; [gated_by_cases |].
  split; [intros data; gated_by_cases |].
  repeat apply conj; gated_by_cases.
Qed.

(** A timer callback sends jog commands and the jog cancel only, and
    leaves LB and RB as they are. *)
Lemma fire_gated (a : TimerAction) (q : Timers.Queue TimerAction) (s s' : State) :
  fire a (set_queue q s) = Ok s' ->
  lb s' = lb s /\ rb s' = rb s
  /\ exists new, out s' = out s ++ new
                 /\ forall l r, forallb (allowed l r) new = true.
Proof.
  destruct s, a as [b |]; [destruct b |]; handler_cases; intros [= <-];
    simpl; repeat split;
    first [ exists []; split; [symmetry; apply app_nil_r | reflexivity]
          | eexists; split; [reflexivity |]; intros l r; reflexivity ].
Qed.

Lemma fire_due_gated fuel target (s0 : State) : forall s s',
  (lb s = lb s0 /\ rb s = rb s0
   /\ exists new, out s = out s0 ++ new
                  /\ forallb (allowed (lb s0) (rb s0)) new = true) ->
  Timers.fire_due queue set_queue fire fuel target s = Ok s' ->
  lb s' = lb s0 /\ rb s' = rb s0
  /\ exists new, out s' = out s0 ++ new
                 /\ forallb (allowed (lb s0) (rb s0)) new = true.
Proof.
  apply fire_due_keeps. clear.
  intros target s t q s' (Hlb & Hrb & new & Hout & Hnew) _ Hf.
  apply fire_gated in Hf. destruct Hf as (Hlb' & Hrb' & more & Hout' & Hmore).
  split; [congruence |]. split; [congruence |].
  exists (new ++ more). split.
  - rewrite Hout', Hout, app_assoc. reflexivity.
  - rewrite forallb_app, Hnew, Hmore. reflexivity.
Qed.

(** X10.  Whatever the event loop runs, it only adds to what has been
    sent, and what it adds is what LB and RB allowed when it started:
    unlock and pause only with RB up, reset only with RB held, resume only
    with both up, homing only with RB held and LB up, a spindle start only
    with both held, a stick jog only with LB held; the only text written
    is the jog cancel, and no other command name is sent. *)
Theorem commands_gated_by_modifiers (i : Input) (s s' : State) :
  step s i = Ok s' ->
  exists new, out s' = out s ++ new
              /\ forallb (allowed (lb s) (rb s)) new = true.
Proof.
  destruct other_handlers_gated as (Herr & Hready & Hread & Hstick & Htrig & Hctl).
  destruct i as [[err | [[|] |] e] | | data | dt | | |]; simpl.
  - apply Herr.
  - unfold on_joy_button.
    destruct (BUTTONS !! Joystick.number e) as [c |] eqn:Hc;
      [| destruct (Joystick.init e); discriminate].
    destruct (Joystick.init e).
    + intros [= <-]. destruct s. simpl. eexists. split; reflexivity.
    + destruct (button_handlers_gated (Joystick.value e))
        as (HA & HB & HXXX & HX & HY & HLB & HRB & HStart & HL3 & HR3).
      revert s s'. unfold BUTTONS in Hc. simpl in Hc.
      repeat (apply lookup_insert_Some in Hc;
              destruct Hc as [[_ <-] | [_ Hc]]; [assumption |]).
      rewrite lookup_empty in Hc. discriminate.
  - unfold on_joy_axis.
    destruct (AXES !! Joystick.number e) as [c |] eqn:Hc;
      [| destruct (Joystick.init e); discriminate].
    destruct (Joystick.init e).
    + intros [= <-]. destruct s. simpl. eexists. split; reflexivity.
    + destruct (axis_handlers_gated (Joystick.value e))
        as (HLSX & HLSY & HRSX & HRSY & HRT & HLT & HPX & HPY).
      assert (Hcb : gated (cb c (Joystick.value e))).
      { unfold AXES in Hc. simpl in Hc.
        repeat (apply lookup_insert_Some in Hc;
                destruct Hc as [[_ <-] | [_ Hc]]; [assumption |]).
        rewrite lookup_empty in Hc. discriminate. }
      intros Hs. apply Hcb in Hs. destruct Hs as (new & Hout & Hnew).
      destruct s. simpl in *.
      exists (ConsoleLog (LogControl (id c) (Joystick.value e)) :: new).
      split; [rewrite Hout, <- app_assoc; reflexivity | exact Hnew].
  - intros [= <-]. exists []. split; [symmetry; apply app_nil_r | reflexivity].
  - apply Hready.
  - apply Hread.
  - unfold Timers.elapse.
    destruct (Timers.fire_due _ _ _ _ _ s) as [s1 | err] eqn:Hf; simpl;
      [| discriminate].
    intros [= <-].
    apply fire_due_gated with (s0 := s) in Hf.
    + destruct Hf as (_ & _ & new & Hout & Hnew). exists new.
      split; [| exact Hnew]. destruct s1. exact Hout.
    + split; [reflexivity |]. split; [reflexivity |].
      exists []. split; [symmetry; apply app_nil_r | reflexivity].
  - apply Hstick.
  - apply Htrig.
  - apply Hctl.
Qed.

End PendantGating.

(** START pressed with RB up: the alarm unlock is sent. *)
Lemma commands_gated_by_modifiers_witness :
  exists new,
    Pendant.out (Pendant.emit (Pendant.SocketCommand "unlock") Pendant.initial)
    = Pendant.out Pendant.initial ++ new
    /\ forallb (Pendant.allowed (Pendant.lb Pendant.initial)
                                (Pendant.rb Pendant.initial)) new = true.
Proof.
  exact (commands_gated_by_modifiers (Pendant.button_input 11 1) Pendant.initial
           (Pendant.emit (Pendant.SocketCommand "unlock") Pendant.initial)
           eq_refl).
Defined.

(* ===================================================================== *)
(** * The feedrate of the sticks *)
(* ===================================================================== *)

Section StickFeedrate.

Import Pendant.

(** The magnitude of a [toFixed] result is the rounded magnitude. *)
Lemma toFixed_abs (digits : nat) (x : Q) :
  Qabs (toFixed digits x)
  = Qmake (Qfloor (Qabs x * inject_Z (10 ^ Z.of_nat digits) + (1 # 2)))
          (Z.to_pos (10 ^ Z.of_nat digits)).
Proof.
  unfold toFixed. cbv zeta.
  set (scale := 10 ^ Z.of_nat digits).
  assert (Hscale : 0 < scale) by (apply Z.pow_pos_nonneg; lia).
  set (n := Qfloor (Qabs x * inject_Z scale + (1 # 2))).
  assert (Hn : 0 <= n).
  { change 0 with (Qfloor 0). apply Qfloor_resp_le.
    assert (H1 : (0 <= Qabs x)%Q) by apply Qabs_nonneg.
    assert (H2 : (0 <= inject_Z scale)%Q).
    { unfold Qle, inject_Z. simpl. lia. }
    pose proof (Qmult_le_0_compat _ _ H1 H2) as H3.
    assert (H4 : (0 <= 1 # 2)%Q) by discriminate.
    exact (Qplus_le_compat _ _ _ _ H3 H4). }
  destruct (Qle_bool 0 x); unfold Qabs; f_equal; lia.
Qed.

(** The feedrate in hundredths, as whole-number arithmetic on the
    magnitude of the stick value. *)
Lemma feedrate_hundredths (v : Z) :
  feedrate v = Qmake ((600000 * Z.abs v + 32767) / 65534) 100.
Proof.
  rewrite feedrate_linear, toFixed_abs.
  change (Z.to_pos (10 ^ Z.of_nat 2)) with 100%positive. f_equal.
  transitivity (Qfloor (Qmake (600000 * Z.abs v + 32767) 65534));
    [| reflexivity].
  apply Qfloor_comp.
  unfold MAX_JOG_FEEDRATE, JOYSTICK_AXIS_MAX.
  unfold Qeq, Qabs, Qplus, Qmult, Qdiv, Qinv, inject_Z. simpl. lia.
Qed.

(** X11.  The feedrate of one stick depends on the magnitude of its value
    only, grows with it, is 0 for the value 0 alone, and stays within
    [MAX_JOG_FEEDRATE] exactly for the magnitudes up to
    [JOYSTICK_AXIS_MAX]. *)
Theorem feedrate_even_monotone_bounded (v w : Z) :
  feedrate (- v) = feedrate v
  /\ (Z.abs v <= Z.abs w -> (feedrate v <= feedrate w)%Q)
  /\ ((feedrate v == 0)%Q <-> v = 0)
  /\ ((feedrate v <= inject_Z MAX_JOG_FEEDRATE)%Q
      <-> Z.abs v <= JOYSTICK_AXIS_MAX).
Proof.
  rewrite !feedrate_hundredths, Z.abs_opp.
  unfold MAX_JOG_FEEDRATE, JOYSTICK_AXIS_MAX, Qle, Qeq, inject_Z. simpl.
  pose proof (Z.div_mod (600000 * Z.abs v + 32767) 65534 ltac:(lia)) as Hv.
  pose proof (Z.mod_pos_bound (600000 * Z.abs v + 32767) 65534 ltac:(lia)) as Hv'.
  split; [reflexivity |]. split; [| split].
  - intros Hle.
    assert ((600000 * Z.abs v + 32767) / 65534
            <= (600000 * Z.abs w + 32767) / 65534)
      by (apply Z.div_le_mono; lia).
    lia.
  - lia.
  - lia.
Qed.

End StickFeedrate.

Section JogFeedrate.

Import Pendant.

Local Open Scope R_scope.

Lemma feedrate_at_most_max (v : Z) :
  (Z.abs v <= JOYSTICK_AXIS_MAX)%Z -> Q2R (feedrate v) <= IZR MAX_JOG_FEEDRATE.
Proof.
  intros Hv.
  replace (IZR MAX_JOG_FEEDRATE) with (Q2R (inject_Z MAX_JOG_FEEDRATE))
    by (unfold Q2R, inject_Z; simpl; lra).
  apply Qle_Rle. rewrite feedrate_hundredths.
  unfold JOYSTICK_AXIS_MAX in Hv. unfold MAX_JOG_FEEDRATE, Qle, inject_Z. simpl.
  assert ((600000 * Z.abs v + 32767) / 65534 <= 300000)%Z
    by (apply Z.lt_succ_r, Z.div_lt_upper_bound; lia).
  lia.
Qed.

(** The norm of two components that are at most [m] is at most
    [m * sqrt 2]. *)
Lemma norm_bound (a b m : R) :
  0 <= a <= m -> 0 <= b <= m -> sqrt (a ^ 2 + b ^ 2) <= m * sqrt 2.
Proof.
  intros Ha Hb.
  rewrite <- (sqrt_square m) at 1 by lra. rewrite <- sqrt_mult by nra.
  apply sqrt_le_1; nra.
Qed.

(** X12.  With the three stick values within [JOYSTICK_AXIS_MAX], the
    feedrate of a continuous jog is never negative and at most
    [MAX_JOG_FEEDRATE * sqrt 2]; with the depth stick active it is at most
    the feedrate of the depth stick, hence at most [MAX_JOG_FEEDRATE]. *)
Theorem decideFeedrate_bounded (x y z : AxisState.t) :
  (Z.abs (AxisState.value x) <= JOYSTICK_AXIS_MAX)%Z ->
  (Z.abs (AxisState.value y) <= JOYSTICK_AXIS_MAX)%Z ->
  (Z.abs (AxisState.value z) <= JOYSTICK_AXIS_MAX)%Z ->
  0 <= decideFeedrate x y z <= IZR MAX_JOG_FEEDRATE * sqrt 2
  /\ (AxisState.active z = true ->
      decideFeedrate x y z <= Q2R (feedrate (AxisState.value z))
                           <= IZR MAX_JOG_FEEDRATE).
Proof.
  intros Hx Hy Hz.
  pose proof (feedrate_nonneg (AxisState.value x)) as Hx0.
  pose proof (feedrate_nonneg (AxisState.value y)) as Hy0.
  pose proof (feedrate_nonneg (AxisState.value z)) as Hz0.
  apply feedrate_at_most_max in Hx, Hy, Hz.
  assert (Hm : 0 <= IZR MAX_JOG_FEEDRATE) by (unfold MAX_JOG_FEEDRATE; lra).
  assert (H2 : 1 <= sqrt 2).
  { rewrite <- sqrt_1 at 1. apply sqrt_le_1; lra. }
  assert (Hp : 0 <= sqrt (Q2R (feedrate (AxisState.value x)) ^ 2
                           + Q2R (feedrate (AxisState.value y)) ^ 2)
                  <= IZR MAX_JOG_FEEDRATE * sqrt 2).
  { split; [apply sqrt_pos | apply norm_bound; lra]. }
  unfold decideFeedrate. cbv zeta.
  destruct (AxisState.active z).
  - destruct (Req_dec_T _ 0) as [H0 | H0].
    + split; [nra | intros _; lra].
    + pose proof (Rmin_r (sqrt (Q2R (feedrate (AxisState.value x)) ^ 2
                                 + Q2R (feedrate (AxisState.value y)) ^ 2))
                         (Q2R (feedrate (AxisState.value z)))) as Hr.
      split; [| intros _; lra].
      split; [apply Rmin_glb; lra | nra].
  - split; [exact Hp | discriminate].
Qed.

(** Both planar sticks at full deflection reach the bound. *)
Lemma decideFeedrate_diagonal :
  decideFeedrate (AxisState.update JOYSTICK_AXIS_MAX)
                 (AxisState.update JOYSTICK_AXIS_MAX) AxisState.new
  = IZR MAX_JOG_FEEDRATE * sqrt 2.
Proof.
  assert (Hf : Q2R (feedrate JOYSTICK_AXIS_MAX) = 3000).
  { rewrite feedrate_hundredths.
    replace (Qmake _ 100) with (Qmake 300000 100) by (vm_compute; reflexivity).
    unfold Q2R. simpl. lra. }
  unfold decideFeedrate. simpl. rewrite Hf.
  unfold MAX_JOG_FEEDRATE.
  replace (sqrt _) with (sqrt ((3000 * 3000) * 2)) by (f_equal; lra).
  rewrite sqrt_mult, sqrt_square by lra. reflexivity.
Qed.

Lemma feedrate_zero : Q2R (feedrate 0) = 0.
Proof.
  rewrite feedrate_hundredths.
  change ((600000 * Z.abs 0 + 32767) / 65534)%Z with 0%Z.
  unfold Q2R. simpl. lra.
Qed.

(** The least feedrate of a value other than 0 is 0.09. *)
Lemma feedrate_least (v : Z) : v <> 0%Z -> 9 / 100 <= Q2R (feedrate v).
Proof.
  intros Hv. replace (9 / 100) with (Q2R (Qmake 9 100))
    by (unfold Q2R; simpl; lra).
  apply Qle_Rle. rewrite feedrate_hundredths. unfold Qle. simpl.
  assert (9 <= (600000 * Z.abs v + 32767) / 65534)%Z
    by (apply Z.div_le_lower_bound; lia).
  lia.
Qed.

(** The norm is at least its first component. *)
Lemma norm_at_least (a b : R) : 0 <= a -> a <= sqrt (a ^ 2 + b ^ 2).
Proof.
  intros Ha. rewrite <- (sqrt_square a) at 1 by exact Ha.
  apply sqrt_le_1; nra.
Qed.

(** A stick that is active only at a value other than 0 gives a feedrate of
    at least 0.09 as soon as one of the three is active. *)
Lemma decideFeedrate_least (x y z : AxisState.t) :
  (AxisState.active x = true -> AxisState.value x <> 0%Z) ->
  (AxisState.active y = true -> AxisState.value y <> 0%Z) ->
  (AxisState.active z = true -> AxisState.value z <> 0%Z) ->
  AxisState.active x || AxisState.active y || AxisState.active z = true ->
  9 / 100 <= decideFeedrate x y z.
Proof.
  intros Hx Hy Hz Hact.
  pose proof (feedrate_nonneg (AxisState.value x)) as Hx0.
  pose proof (feedrate_nonneg (AxisState.value y)) as Hy0.
  pose proof (norm_at_least _ (Q2R (feedrate (AxisState.value y))) Hx0) as Hnx.
  pose proof (norm_at_least _ (Q2R (feedrate (AxisState.value x))) Hy0) as Hny.
  rewrite Rplus_comm in Hny.
  unfold decideFeedrate. cbv zeta.
  set (planar := sqrt (Q2R (feedrate (AxisState.value x)) ^ 2
                       + Q2R (feedrate (AxisState.value y)) ^ 2)) in *.
  assert (Hplanar : planar <> 0 -> 9 / 100 <= planar).
  { intros Hne.
    destruct (Z.eq_dec (AxisState.value x) 0%Z) as [Hvx | Hvx].
    - destruct (Z.eq_dec (AxisState.value y) 0%Z) as [Hvy | Hvy].
      + exfalso. apply Hne. unfold planar. rewrite Hvx, Hvy.
        apply norm_zero. split; exact feedrate_zero.
      + apply feedrate_least in Hvy. lra.
    - apply feedrate_least in Hvx. lra. }
  destruct (AxisState.active z).
  - specialize (Hz eq_refl). apply feedrate_least in Hz.
    destruct (Req_dec_T planar 0) as [H0 | H0]; [exact Hz |].
    apply Rmin_glb; auto.
  - apply Hplanar. unfold planar. rewrite norm_zero. intros [Hx1 Hy1].
    destruct (AxisState.active x).
    + specialize (Hx eq_refl). apply feedrate_least in Hx. lra.
    + destruct (AxisState.active y); [| discriminate].
      specialize (Hy eq_refl). apply feedrate_least in Hy. lra.
Qed.

End JogFeedrate.

(** Full deflection to the right and forward, the depth stick pulled half
    way. *)
Lemma decideFeedrate_bounded_witness :
  let x := AxisState.update 32767 in
  let y := AxisState.update (- 32767) in
  let z := AxisState.update 16000 in
  (0 <= Pendant.decideFeedrate x y z <= IZR Pendant.MAX_JOG_FEEDRATE * sqrt 2)%R
  /\ (AxisState.active z = true ->
      (Pendant.decideFeedrate x y z
       <= Q2R (Pendant.feedrate (AxisState.value z))
       <= IZR Pendant.MAX_JOG_FEEDRATE)%R).
Proof.
  intros x y z.
  apply (decideFeedrate_bounded x y z); vm_compute; discriminate.
Defined.

Section PendantStickJogs.

Import Pendant.

Ltac sound_open :=
  match goal with HP : stick_jogs_sound ?s |- _ =>
    destruct s; unfold stick_jogs_sound, sticks_settled in *; simpl in HP;
    destruct HP as [Hsettled Hout]
  end.

Ltac sound_solved :=
  simpl; split;
  [ intros n; unfold insert, fn_insert; try case_decide; simpl; auto
  | repeat (apply Forall_app; split); auto; repeat constructor ].

Ltac sound_kept :=
  intros s s' HP; sound_open; handler_cases; intros [= <-]; sound_solved.

Ltac sound_kept_plain :=
  intros; sound_open; handler_cases; sound_solved.

Lemma settled_nonzero (a : AxisState.t) :
  AxisState.active a = negb (AxisState.value a =? 0) ->
  AxisState.active a = true -> AxisState.value a <> 0.
Proof.
  intros -> H. apply negb_true_iff, Z.eqb_neq in H. exact H.
Qed.

Lemma sound_stickMovement (s : State) :
  stick_jogs_sound s -> stick_jogs_sound (stickMovement s).
Proof.
  intros HP. sound_open. handler_cases; sound_solved;
    simpl; auto using settled_nonzero.
Qed.

Lemma sound_step (i : Input) : keeps stick_jogs_sound (fun s => step s i).
Proof.
  apply step_keeps.
  - sound_kept_plain.
  - intros v. repeat apply conj; sound_kept.
  - intros v. repeat apply conj; sound_kept.
  - intros s HP. split; [| split; [| split; [| split; [| split]]]];
      try apply sound_stickMovement; try exact HP;
      revert HP; clear; sound_kept_plain.
  - intros target s t q s' HP _.
    destruct (Timers.action t) as [[] |]; revert s s' HP; sound_kept.
  - sound_kept_plain.
Qed.

(** What the pendant has sent as a stick jog was sound when it was sent. *)
Lemma sent_stick_jog_sound (inputs : list Input) (s : State)
    (x y z : AxisState.t) :
  run initial inputs = Ok s ->
  JogSticks x y z ∈ jogs_sent s ->
  stick_jog_sound (SocketGcode (JogSticks x y z)).
Proof.
  intros Hr Hin.
  assert (HP : stick_jogs_sound s).
  { apply (run_keeps stick_jogs_sound sound_step inputs initial s);
      [| exact Hr].
    split; [intros n; reflexivity | constructor]. }
  destruct HP as [_ Hout]. rewrite Forall_forall in Hout.
  unfold jogs_sent in Hin. apply list_elem_of_omap in Hin.
  destruct Hin as (o & Ho & Heq).
  specialize (Hout o Ho).
  destruct o as [| | | [| | |] |]; try discriminate.
  injection Heq as -> -> ->. exact Hout.
Qed.

(** X13.  Every continuous jog the pendant sends names at least one active
    stick and asks for a positive feedrate: no stick jog goes out with an
    empty motion vector or with F0. *)
Theorem stick_jog_feedrate_positive (inputs : list Input) (s : State)
    (x y z : AxisState.t) :
  run initial inputs = Ok s ->
  JogSticks x y z ∈ jogs_sent s ->
  AxisState.active x || AxisState.active y || AxisState.active z = true
  /\ (0 < decideFeedrate x y z)%R.
Proof.
  intros Hr Hin.
  destruct (sent_stick_jog_sound inputs s x y z Hr Hin) as (Hx & Hy & Hz & Hact).
  split; [exact Hact |].
  pose proof (decideFeedrate_least x y z Hx Hy Hz Hact). lra.
Qed.

End PendantStickJogs.

(** LB held, the left stick pushed right, one round of the stick loop. *)
Lemma stick_jog_feedrate_positive_witness :
  let inputs := [Pendant.button_input 6 1; Pendant.axis_input 0 20000;
                 Pendant.StickTick] in
  let s := match Pendant.run Pendant.initial inputs with
           | Ok s => s
           | Throw _ => Pendant.initial
           end in
  let x := AxisState.update 20000 in
  Pendant.run Pendant.initial inputs = Ok s
  /\ Pendant.JogSticks x AxisState.new AxisState.new ∈ Pendant.jogs_sent s
  /\ AxisState.active x || false || false = true
  /\ (0 < Pendant.decideFeedrate x AxisState.new AxisState.new)%R.
Proof.
  intros inputs s x.
  assert (Hr : Pendant.run Pendant.initial inputs = Ok s) by reflexivity.
  assert (Hin : Pendant.JogSticks x AxisState.new AxisState.new
                ∈ Pendant.jogs_sent s) by (vm_compute; left).
  split; [exact Hr |]. split; [exact Hin |].
  exact (stick_jog_feedrate_positive inputs s x AxisState.new AxisState.new
           Hr Hin).
Defined.

(* ===================================================================== *)
(** * The timers of the pendant *)
(* ===================================================================== *)

Section PendantTimers.

Import Pendant.

Ltac split5 := split; [| split; [| split; [| split]]].

Lemma elem_of_filter_tid {A} (i : Z) (t : Timers.Timer A) (ts : list (Timers.Timer A)) :
  t ∈ List.filter (fun t' => negb (Timers.tid t' =? i)) ts
  <-> t ∈ ts /\ Timers.tid t <> i.
Proof.
  rewrite !list_elem_of_In, filter_In, negb_true_iff, Z.eqb_neq. reflexivity.
Qed.

Lemma pop_due_queue {A} target (q q' : Timers.Queue A) t :
  Timers.pop_due target q = Some (t, q') ->
  t ∈ Timers.armed q
  /\ q' = {| Timers.clock := Z.max (Timers.clock q) (Timers.due t);
             Timers.next_id := Timers.next_id q;
             Timers.armed := List.filter (fun t' => negb (Timers.tid t' =? Timers.tid t))
                                         (Timers.armed q) |}.
Proof.
  unfold Timers.pop_due. pose proof (earliest_spec (Timers.armed q)) as He.
  destruct (Timers.earliest (Timers.armed q)) as [t0 |]; [| discriminate].
  destruct He as [Hin _].
  destruct (Z.leb_spec (Timers.due t0) target); [| discriminate].
  intros [= <- <-]. split; [exact Hin | reflexivity].
Qed.

Lemma queue_sound_ext q ids ids' flag :
  (forall b, ids' b = ids b) ->
  queue_sound q ids flag -> queue_sound q ids' flag.
Proof.
  intros He (H1 & H2 & H3 & H4 & H5). split5.
  - exact H1.
  - intros b. rewrite He. apply H2.
  - intros b t Ht Hid. rewrite He in Hid. eauto.
  - exact H4.
  - exact H5.
Qed.

Lemma queue_sound_unflag q ids flag :
  queue_sound q ids flag -> queue_sound q ids false.
Proof.
  intros (H1 & H2 & H3 & H4 & H5). split5; [exact H1 | exact H2 | exact H3 | exact H4 |].
  discriminate.
Qed.

Lemma queue_sound_clock q ids flag c :
  Timers.clock q <= c ->
  queue_sound q ids flag -> queue_sound (Timers.set_clock q c) ids flag.
Proof.
  intros Hc (H1 & H2 & H3 & H4 & H5).
  split5; [exact H1 | exact H2 | exact H3 | exact H4 |].
  intros Hf. destruct (H5 Hf) as (t & Ht & Ha & Hd).
  exists t. simpl. repeat split; auto. lia.
Qed.

(** Arming a timer with a fresh id keeps what the armed timers satisfy. *)
Lemma armed_fresh q (a : TimerAction) (d : Z) ids :
  (forall t, t ∈ Timers.armed q -> Timers.tid t < Timers.next_id q) ->
  (forall t t', t ∈ Timers.armed q -> t' ∈ Timers.armed q ->
                Timers.tid t = Timers.tid t' ->
                Timers.action t = Timers.action t') ->
  let q' := fst (Timers.setTimeout q a d) in
  (forall t, t ∈ Timers.armed q' -> Timers.tid t < Timers.next_id q')
  /\ (forall t t', t ∈ Timers.armed q' -> t' ∈ Timers.armed q' ->
                   Timers.tid t = Timers.tid t' ->
                   Timers.action t = Timers.action t')
  /\ (forall b t, (forall t, t ∈ Timers.armed q -> Timers.tid t = ids b ->
                             Timers.action t = ButtonTimeout b) ->
                  ids b < Timers.next_id q ->
                  t ∈ Timers.armed q' -> Timers.tid t = ids b ->
                  Timers.action t = ButtonTimeout b).
Proof.
  intros H1 H4. simpl. split; [| split].
  - intros t Ht. apply elem_of_app in Ht. destruct Ht as [Ht | Ht].
    + apply H1 in Ht. lia.
    + apply list_elem_of_singleton in Ht. subst t. simpl. lia.
  - intros t t' Ht Ht' Hid.
    apply elem_of_app in Ht, Ht'.
    destruct Ht as [Ht | Ht], Ht' as [Ht' | Ht'];
      try (apply list_elem_of_singleton in Ht; subst t);
      try (apply list_elem_of_singleton in Ht'; subst t'); simpl in *; auto.
    + apply H1 in Ht. lia.
    + apply H1 in Ht'. lia.
  - intros b t H3 H2 Ht Hid. apply elem_of_app in Ht. destruct Ht as [Ht | Ht].
    + auto.
    + apply list_elem_of_singleton in Ht. subst t. simpl in Hid. lia.
Qed.

(** [jog] arms its timer. *)
Lemma queue_sound_arm_jog q ids flag :
  queue_sound q ids flag ->
  queue_sound (fst (Timers.setTimeout q jogPendingTimeout JOG_COMMAND_TIMEOUT))
              ids true.
Proof.
  intros (H1 & H2 & H3 & H4 & H5).
  destruct (armed_fresh q jogPendingTimeout JOG_COMMAND_TIMEOUT ids H1 H4)
    as (H1' & H4' & H3').
  split5.
  - exact H1'.
  - intros b. specialize (H2 b). simpl. lia.
  - intros b t. apply H3'; [intros t0; apply H3 | apply H2].
  - exact H4'.
  - intros _. eexists. split; [apply elem_of_app; right; apply list_elem_of_singleton; reflexivity |].
    simpl. split; [reflexivity |].
    change (Timers.effective_delay JOG_COMMAND_TIMEOUT) with JOG_COMMAND_TIMEOUT.
    lia.
Qed.

(** [press] arms the timer of its button and stores the handle. *)
Lemma queue_sound_arm_button q ids flag b d :
  queue_sound q ids flag ->
  queue_sound (fst (Timers.setTimeout q (ButtonTimeout b) d))
              (<[b := Timers.next_id q]> ids) flag.
Proof.
  intros (H1 & H2 & H3 & H4 & H5).
  destruct (armed_fresh q (ButtonTimeout b) d ids H1 H4) as (H1' & H4' & H3').
  split5.
  - exact H1'.
  - intros b'. unfold insert, fn_insert. simpl.
    case_decide; [lia | specialize (H2 b'); lia].
  - intros b' t Ht. unfold insert, fn_insert. case_decide as Hb.
    + subst b'. intros Hid. simpl in Ht. apply elem_of_app in Ht.
      destruct Ht as [Ht | Ht].
      * apply H1 in Ht. lia.
      * apply list_elem_of_singleton in Ht. subst t. reflexivity.
    + apply H3'; [intros t0; apply H3 | apply H2 | exact Ht].
  - exact H4'.
  - intros Hf. destruct (H5 Hf) as (t & Ht & Ha & Hd).
    exists t. simpl. split; [apply elem_of_app; left; exact Ht | auto].
Qed.

(** [unpress] clears the timer of its button, and no other. *)
Lemma queue_sound_clear q ids flag b :
  queue_sound q ids flag ->
  queue_sound (Timers.clearTimeout q (Timers.TimerHandle (ids b))) ids flag.
Proof.
  intros (H1 & H2 & H3 & H4 & H5). split5; simpl.
  - intros t Ht. apply elem_of_filter_tid in Ht. apply H1. tauto.
  - exact H2.
  - intros b' t Ht. apply elem_of_filter_tid in Ht. apply H3. tauto.
  - intros t t' Ht Ht'. apply elem_of_filter_tid in Ht, Ht'. apply H4; tauto.
  - intros Hf. destruct (H5 Hf) as (t & Ht & Ha & Hd).
    exists t. split; [| auto]. apply elem_of_filter_tid. split; [exact Ht |].
    intros Hid. apply (H3 b t Ht) in Hid. congruence.
Qed.

(** A timer that pops takes no other timer with it; the flag survives the
    pop of a button timer. *)
Lemma queue_sound_pop q ids flag target t q' :
  queue_sound q ids flag ->
  Timers.pop_due target q = Some (t, q') ->
  queue_sound q' ids (match Timers.action t with
                      | jogPendingTimeout => false
                      | ButtonTimeout _ => flag
                      end).
Proof.
  intros (H1 & H2 & H3 & H4 & H5) Hp.
  apply pop_due_queue in Hp. destruct Hp as [Hin ->]. split5; simpl.
  - intros t0 Ht. apply elem_of_filter_tid in Ht. apply H1. tauto.
  - exact H2.
  - intros b' t0 Ht. apply elem_of_filter_tid in Ht. apply H3. tauto.
  - intros t0 t' Ht Ht'. apply elem_of_filter_tid in Ht, Ht'. apply H4; tauto.
  - destruct (Timers.action t) as [b |] eqn:Hact; [| discriminate].
    intros Hf. destruct (H5 Hf) as (t0 & Ht & Ha & Hd).
    exists t0. split; [| split; [exact Ha | lia]].
    apply elem_of_filter_tid. split; [exact Ht |].
    intros Hid. apply (H4 t0 t Ht Hin) in Hid. congruence.
Qed.

(** What leaves the queue, the handles and the flag alone. *)
Lemma timers_sound_frame (s s' : State) :
  queue s' = queue s ->
  (forall b, ButtonState.timeout_id (buttons s' b)
             = ButtonState.timeout_id (buttons s b)) ->
  (jog_pending s' = true -> jog_pending s = true) ->
  timers_sound s -> timers_sound s'.
Proof.
  unfold timers_sound. intros -> Hb Hf HP.
  apply queue_sound_ext with (ids := fun b => ButtonState.timeout_id (buttons s b));
    [exact Hb |].
  destruct (jog_pending s'); [rewrite Hf in HP by reflexivity; exact HP |].
  exact (queue_sound_unflag _ _ _ HP).
Qed.

Lemma emit_timers_sound o s : timers_sound s -> timers_sound (emit o s).
Proof. destruct s. exact (fun H => H). Qed.

Lemma jog_timers_sound cmd s : timers_sound s -> timers_sound (jog cmd s).
Proof.
  destruct s. unfold jog, timers_sound. simpl.
  destruct jog_pending0; simpl; [exact (fun H => H) |].
  apply queue_sound_arm_jog.
Qed.

Lemma press_timers_sound b s : timers_sound s -> timers_sound (press b s).
Proof.
  destruct s. unfold press, ButtonState.press, timers_sound. simpl.
  destruct (ButtonState.pending (buttons0 b)); simpl; intros HP.
  - eapply queue_sound_ext; [| exact HP].
    intros b'. simpl. rewrite set_button_same. reflexivity.
  - eapply queue_sound_ext; [| apply queue_sound_arm_button; exact HP].
    intros b'. unfold insert, fn_insert. simpl. case_decide; reflexivity.
Qed.

Lemma invoke_timers_sound b c : keeps timers_sound (invoke b c).
Proof.
  intros s s' HP. unfold invoke. destruct (binding b) as [a direction].
  destruct c; unfold jogShort, jogLong, cancelJog;
    repeat case_match; try discriminate; intros [= <-];
    auto using jog_timers_sound, emit_timers_sound.
Qed.

Lemma unpress_timers_sound b : keeps timers_sound (unpress b).
Proof.
  intros s s' HP. unfold unpress, ButtonState.unpress.
  destruct (ButtonState.pending (buttons s b)) eqn:Hpend;
    [destruct (ButtonState.long_pressed (buttons s b)) eqn:Hlong |]; simpl.
  - apply invoke_timers_sound. revert HP. apply timers_sound_frame;
      destruct s; simpl; auto.
    intros b'. unfold insert, fn_insert. case_decide; subst; reflexivity.
  - apply invoke_timers_sound.
    destruct s. unfold timers_sound in *. simpl in *.
    eapply queue_sound_ext;
      [| exact (queue_sound_clear _ _ _ b HP)].
    intros b'. simpl. unfold insert, fn_insert. case_decide; subst; reflexivity.
  - intros [= <-]. revert HP. apply timers_sound_frame; destruct s; simpl; auto.
    intros b'. rewrite set_button_same. reflexivity.
Qed.

Lemma onTimeout_timers_sound b : keeps timers_sound (onTimeout b).
Proof.
  intros s s' HP. unfold onTimeout, ButtonState.onTimeout.
  apply invoke_timers_sound. revert HP. apply timers_sound_frame;
    destruct s; simpl; auto.
  intros b'. unfold insert, fn_insert. case_decide; subst; reflexivity.
Qed.

Lemma onA_timers_sound v : keeps timers_sound (onA v).
Proof.
  intros s s' HP. unfold onA.
  repeat case_match; try (intros [= <-]);
    auto using press_timers_sound, emit_timers_sound.
  apply unpress_timers_sound. exact HP.
Qed.

Lemma onY_timers_sound v : keeps timers_sound (onY v).
Proof.
  intros s s' HP. unfold onY.
  repeat case_match; try (intros [= <-]);
    auto using press_timers_sound, emit_timers_sound.
  apply unpress_timers_sound. exact HP.
Qed.

Lemma onPADX_timers_sound v : keeps timers_sound (onPADX v).
Proof.
  intros s s' HP. unfold onPADX.
  repeat case_match; try (intros [= <-]);
    auto using press_timers_sound; try (destruct s; exact HP).
  destruct (unpress pad_x_left s) as [s1 | err] eqn:Hs1; simpl;
    [| discriminate].
  apply unpress_timers_sound.
  exact (unpress_timers_sound _ _ _ HP Hs1).
Qed.

Lemma onPADY_timers_sound v : keeps timers_sound (onPADY v).
Proof.
  intros s s' HP. unfold onPADY.
  repeat case_match; try (intros [= <-]);
    auto using press_timers_sound; try (destruct s; exact HP).
  destruct (unpress pad_y_up s) as [s1 | err] eqn:Hs1; simpl;
    [| discriminate].
  apply unpress_timers_sound.
  exact (unpress_timers_sound _ _ _ HP Hs1).
Qed.

Ltac timers_left_alone :=
  first [ apply onA_timers_sound | apply onY_timers_sound
        | apply onPADX_timers_sound | apply onPADY_timers_sound
        | intros s s' HP; revert HP; destruct s; handler_cases;
          intros HP [= <-]; exact HP
        | intros;
          match goal with HP : timers_sound ?s |- _ =>
            revert HP; destruct s; handler_cases;
            first [ exact (fun H => H) | apply queue_sound_unflag ]
          end ].

Lemma timers_sound_step (i : Input) : keeps timers_sound (fun s => step s i).
Proof.
  apply step_keeps.
  - intros l s. apply emit_timers_sound.
  - intros v.
    split; [| split; [| split; [| split; [| split; [| split; [| split;
      [| split; [| split]]]]]]]]; timers_left_alone.
  - intros v.
    split; [| split; [| split; [| split; [| split; [| split; [| split]]]]]];
      timers_left_alone.
  - intros s HP. split; [| split; [| split; [| split; [| split]]]];
      try timers_left_alone.
    unfold stickMovement. repeat case_match; auto using jog_timers_sound.
  - intros target s t q s' HP Hp.
    pose proof (queue_sound_pop _ _ _ _ _ _ HP Hp) as HP'.
    destruct (Timers.action t) as [b |]; simpl.
    + apply onTimeout_timers_sound. destruct s. exact HP'.
    + intros [= <-]. destruct s. exact HP'.
  - intros s c HP Hc. destruct s. simpl in *.
    apply queue_sound_clock; assumption.
Qed.

(** X14.  The throttle cannot stay shut: in every state the pendant
    reaches, while [jog_pending] is set a [jogPendingTimeout] timer is
    armed and due within [JOG_COMMAND_TIMEOUT] of the clock.  Neither a
    button released nor a timer popping ever takes it away. *)
Theorem jog_pending_has_timer (inputs : list Input) (s : State) :
  run initial inputs = Ok s ->
  jog_pending s = true ->
  exists t, t ∈ Timers.armed (queue s)
            /\ Timers.action t = jogPendingTimeout
            /\ Timers.due t <= Timers.clock (queue s) + JOG_COMMAND_TIMEOUT.
Proof.
  intros Hr.
  assert (HP : timers_sound s).
  { apply (run_keeps timers_sound timers_sound_step inputs initial s);
      [| exact Hr].
    split5; simpl; try (intros; lia); try discriminate;
      intros; exfalso; eapply not_elem_of_nil; eauto. }
  destruct HP as (_ & _ & _ & _ & H5). exact H5.
Qed.

End PendantTimers.

(** A short press of A with LB held: the jog is sent and its timer armed. *)
Lemma jog_pending_has_timer_witness :
  let inputs := [Pendant.button_input 6 1; Pendant.button_input 0 1;
                 Pendant.button_input 0 0] in
  let s := match Pendant.run Pendant.initial inputs with
           | Ok s => s
           | Throw _ => Pendant.initial
           end in
  Pendant.run Pendant.initial inputs = Ok s
  /\ Pendant.jog_pending s = true
  /\ exists t, t ∈ Timers.armed (Pendant.queue s)
               /\ Timers.action t = Pendant.jogPendingTimeout
               /\ Timers.due t
                  <= Timers.clock (Pendant.queue s) + Pendant.JOG_COMMAND_TIMEOUT.
Proof.
  intros inputs s.
  assert (Hr : Pendant.run Pendant.initial inputs = Ok s) by reflexivity.
  assert (Hf : Pendant.jog_pending s = true) by reflexivity.
  split; [exact Hr |]. split; [exact Hf |].
  exact (jog_pending_has_timer inputs s Hr Hf).
Defined.

Section MotionVector.

Import Pendant.

Local Open Scope R_scope.

Lemma Int_part_floor (r : R) : IZR (Int_part r) <= r < IZR (Int_part r) + 1.
Proof. destruct (base_Int_part r). lra. Qed.

Lemma Int_part_at_least (k : Z) (r : R) : IZR k <= r -> (k <= Int_part r)%Z.
Proof.
  intros Hk. destruct (Int_part_floor r) as [_ Hr].
  assert (H : IZR k < IZR (Int_part r + 1)) by (rewrite plus_IZR; lra).
  apply lt_IZR in H. lia.
Qed.

(** [jogDistance] is a fifth of a percent of the feedrate, rounded to four
    decimals. *)
Lemma jogDistance_rounds (f : R) :
  0 <= f ->
  jogDistance f = IZR (Int_part (20 * f + / 2)) / 10000
  /\ Rabs (jogDistance f - f / 500) <= 1 / 20000.
Proof.
  intros Hf. unfold jogDistance, toFixedR, JOG_COMMAND_INTERVAL. cbv zeta.
  change (IZR (10 ^ Z.of_nat 4)) with 10000.
  set (x := f / 60 * (100 / 1000) * (12 / 10)).
  assert (Hx : x = f / 500) by (unfold x; field).
  assert (Hx0 : 0 <= x) by (rewrite Hx; lra).
  destruct (Rle_dec 0 x) as [_ | Hn]; [| contradiction].
  rewrite (Rabs_right x) by lra.
  replace (x * 10000 + / 2) with (20 * f + / 2) by (rewrite Hx; field).
  split; [reflexivity |].
  destruct (Int_part_floor (20 * f + / 2)) as [Hlo Hhi].
  apply Rabs_le. lra.
Qed.

(** The product of the sign of a value other than 0 and a positive
    distance has that distance as its magnitude and the sign of the
    value. *)
Lemma signed_distance (v : Z) (d : R) :
  v <> 0%Z -> 0 < d ->
  Rabs (IZR (Z.sgn v) * d) = d /\ (0 < IZR (Z.sgn v) * d <-> (0 < v)%Z).
Proof.
  intros Hv Hd. destruct (Z.lt_trichotomy v 0) as [Hlt | [Heq | Hgt]];
    [| contradiction |].
  - rewrite (Z.sgn_neg v Hlt).
    replace (IZR (-1) * d) with (- d) by lra.
    rewrite Rabs_Ropp, Rabs_right by lra. split; [reflexivity |].
    split; [lra | lia].
  - rewrite (Z.sgn_pos v) by lia.
    replace (1 * d) with d by lra.
    rewrite Rabs_right by lra. split; [reflexivity |].
    split; [lia | lra].
Qed.

(** X15.  Every continuous jog the pendant sends moves each axis it names:
    its motion vector is not empty, every component has the jog distance as
    its magnitude and the sign of its stick, and the jog distance is at
    least 0.0002 and within 0.00005 of a five-hundredth of the feedrate. *)
Theorem stick_jog_moves_named_axes (inputs : list Input) (s : State)
    (x y z : AxisState.t) :
  run initial inputs = Ok s ->
  JogSticks x y z ∈ jogs_sent s ->
  let f := decideFeedrate x y z in
  let d := jogDistance f in
  2 / 10000 <= d
  /\ Rabs (d - f / 500) <= 1 / 20000
  /\ motionVector x y z f <> []
  /\ forall a c, (a, c) ∈ motionVector x y z f ->
                 Rabs c = d
                 /\ (0 < c <-> (0 < AxisState.value (stick_of x y z a))%Z).
Proof.
  intros Hr Hin f d.
  destruct (sent_stick_jog_sound inputs s x y z Hr Hin) as (Hx & Hy & Hz & Hact).
  pose proof (decideFeedrate_least x y z Hx Hy Hz Hact) as Hf. fold f in Hf.
  destruct (jogDistance_rounds f ltac:(lra)) as [Hd Herr]. fold d in Hd, Herr.
  assert (Hd2 : 2 / 10000 <= d).
  { rewrite Hd.
    assert (2 <= Int_part (20 * f + / 2))%Z
      by (apply Int_part_at_least; lra).
    apply IZR_le in H. lra. }
  split; [exact Hd2 |]. split; [exact Herr |]. split.
  - unfold motionVector. cbv zeta.
    destruct (AxisState.active x); [discriminate |].
    destruct (AxisState.active y); [discriminate |].
    destruct (AxisState.active z); [discriminate | discriminate Hact].
  - intros a c. unfold motionVector. cbv zeta. fold d.
    rewrite !elem_of_app. unfold AxisState.sign.
    intros [H | [H | H]];
      [ destruct (AxisState.active x); [| inversion H]
      | destruct (AxisState.active y); [| inversion H]
      | destruct (AxisState.active z); [| inversion H] ];
      apply list_elem_of_singleton in H; injection H as -> ->; simpl;
      apply signed_distance; auto; lra.
Qed.

End MotionVector.

(** LB held, the left stick pushed right, one round of the stick loop. *)
Lemma stick_jog_moves_named_axes_witness :
  let inputs := [Pendant.button_input 6 1; Pendant.axis_input 0 20000;
                 Pendant.StickTick] in
  let s := match Pendant.run Pendant.initial inputs with
           | Ok s => s
           | Throw _ => Pendant.initial
           end in
  let x := AxisState.update 20000 in
  let y := AxisState.new in
  let z := AxisState.new in
  let f := Pendant.decideFeedrate x y z in
  let d := Pendant.jogDistance f in
  Pendant.run Pendant.initial inputs = Ok s
  /\ Pendant.JogSticks x y z ∈ Pendant.jogs_sent s
  /\ (2 / 10000 <= d)%R
  /\ (Rabs (d - f / 500) <= 1 / 20000)%R
  /\ Pendant.motionVector x y z f <> []
  /\ forall a c, (a, c) ∈ Pendant.motionVector x y z f ->
                 Rabs c = d
                 /\ ((0 < c)%R
                     <-> 0 < AxisState.value (Pendant.stick_of x y z a)).
Proof.
  intros inputs s x y z f d.
  assert (Hr : Pendant.run Pendant.initial inputs = Ok s) by reflexivity.
  assert (Hin : Pendant.JogSticks x y z ∈ Pendant.jogs_sent s)
    by (vm_compute; left).
  split; [exact Hr |]. split; [exact Hin |].
  exact (stick_jog_moves_named_axes inputs s x y z Hr Hin).
Defined.

(* ===================================================================== *)
(** * From the device to the sticks *)
(* ===================================================================== *)

Section DeviceToSticks.

Import Pendant.

Lemma readInt16LE_range (buffer : Joystick.Buffer) (offset : nat) (v : Z) :
  Joystick.readInt16LE buffer offset = Some v -> - 2 ^ 15 <= v < 2 ^ 15.
Proof.
  unfold Joystick.readInt16LE, Joystick.byte_at.
  destruct (buffer !! offset) as [b |]; simpl; [| discriminate].
  destruct (buffer !! (offset + 1)%nat) as [b' |]; simpl; [| discriminate].
  intros [= <-].
  pose proof (unsigned_range b). pose proof (unsigned_range b').
  rewrite sign_extension by lia. apply int16_range. lia.
Qed.

Lemma parse_value_range (joy_id : Z) (buffer : Joystick.Buffer) (e : Joystick.Event) :
  Joystick.parse joy_id buffer = Some e ->
  - 2 ^ 15 <= Joystick.value e < 2 ^ 15.
Proof.
  unfold Joystick.parse.
  destruct (Joystick.readUInt32LE buffer 0) as [t |]; simpl; [| discriminate].
  destruct (Joystick.readInt16LE buffer 4) as [v |] eqn:Hv; simpl;
    [| discriminate].
  destruct (Joystick.byte_at buffer 7) as [n |]; simpl; [| discriminate].
  destruct (Joystick.byte_at buffer 6) as [ty |]; simpl; [| discriminate].
  intros [= <-]. simpl. exact (readInt16LE_range _ _ _ Hv).
Qed.

(** What [onRead] forwards for an axis is a filtered value. *)
Lemma onRead_axis_filtered st buffer st' e :
  Joystick.onRead JOYSTICK_ID JOYSTICK_DEADZONE JOYSTICK_SENSITIVITY st None buffer
  = Some (st', Some (Joystick.EmitEvent (Some Joystick.axis) e)) ->
  filtered (Joystick.value e).
Proof.
  unfold Joystick.onRead.
  destruct (Joystick.parse JOYSTICK_ID buffer) as [e0 |] eqn:Hp; simpl;
    [| discriminate].
  apply parse_value_range in Hp.
  destruct (Joystick.type e0) as [[|] |] eqn:Ht.
  - unfold Joystick.on_event. rewrite Ht. discriminate.
  - rewrite on_event_axis by exact Ht. simpl.
    destruct (fst (Joystick.emitted_stage _ _ _)); [discriminate |].
    intros [= _ _ <-].
    destruct (deadzone_stage_fields JOYSTICK_DEADZONE e0) as (_ & _ & ->).
    pose proof (clamped_outside JOYSTICK_DEADZONE (Joystick.value e0) eq_refl)
      as Hout.
    split; [exact Hout |].
    unfold Joystick.clamped.
    destruct (truthy JOYSTICK_DEADZONE && _); lia.
  - unfold Joystick.on_event. rewrite Ht. discriminate.
Qed.

Ltac axes_open :=
  match goal with HP : axes_filtered ?s |- _ =>
    destruct s; unfold axes_filtered in *; simpl in HP;
    destruct HP as (Hsticks & Hlt & Hrt)
  end.

Lemma filtered_opp (v : Z) : filtered v -> filtered (- v).
Proof. unfold filtered. rewrite Z.abs_opp. lia. Qed.

Ltac axes_solved :=
  simpl; split; [| split]; auto;
  intros n; unfold insert, fn_insert; try case_decide; simpl;
  auto using filtered_opp.

Ltac axes_kept :=
  intros s s' HP; axes_open; handler_cases; intros [= <-]; axes_solved.

Ltac axes_kept_plain :=
  intros; axes_open; handler_cases; axes_solved.

Lemma axes_filtered_log l s :
  axes_filtered s -> axes_filtered (emit (ConsoleLog l) s).
Proof. axes_kept_plain. Qed.

(** The button handlers leave the sticks and the triggers alone. *)
Lemma button_handlers_keep_axes (v : Z) :
  keeps axes_filtered (onA v) /\ keeps axes_filtered (plain onB v)
  /\ keeps axes_filtered (plain onXXX v) /\ keeps axes_filtered (plain onX v)
  /\ keeps axes_filtered (onY v) /\ keeps axes_filtered (plain onLB v)
  /\ keeps axes_filtered (plain onRB v) /\ keeps axes_filtered (plain onStart v)
  /\ keeps axes_filtered (plain onL3 v) /\ keeps axes_filtered (plain onR3 v).
Proof.
  split; [| split; [| split; [| split; [| split; [| split; [| split;
    [| split; [| split]]]]]]]]; axes_kept.
Qed.

(** The axis handlers store the value they are given, or its negation. *)
Lemma axis_handlers_keep_axes (v : Z) :
  filtered v ->
  keeps axes_filtered (plain onLSX v) /\ keeps axes_filtered (plain onLSY v)
  /\ keeps axes_filtered (plain onRSX v) /\ keeps axes_filtered (plain onRSY v)
  /\ keeps axes_filtered (plain onRT v) /\ keeps axes_filtered (plain onLT v)
  /\ keeps axes_filtered (onPADX v) /\ keeps axes_filtered (onPADY v).
Proof.
  intros Hv. pose proof (filtered_opp v Hv) as Hv'.
  split; [| split; [| split; [| split; [| split; [| split; [| split]]]]]];
    axes_kept.
Qed.

Lemma emit_keeps_axes (o : Joystick.Emitted) (s s' : State) :
  (forall e, o = Joystick.EmitEvent (Some Joystick.axis) e ->
             filtered (Joystick.value e)) ->
  axes_filtered s -> step s (JoystickEmit o) = Ok s' -> axes_filtered s'.
Proof.
  intros Ho HP. destruct o as [err | [[|] |] e]; simpl.
  - intros [= <-]. revert HP. clear. axes_kept_plain.
  - unfold on_joy_button.
    destruct (BUTTONS !! Joystick.number e) as [c |] eqn:Hc;
      [| destruct (Joystick.init e); discriminate].
    destruct (Joystick.init e).
    + intros [= <-]. apply axes_filtered_log. exact HP.
    + apply (BUTTONS_keep axes_filtered button_handlers_keep_axes _ _ _ Hc).
      exact HP.
  - unfold on_joy_axis.
    destruct (AXES !! Joystick.number e) as [c |] eqn:Hc;
      [| destruct (Joystick.init e); discriminate].
    destruct (Joystick.init e).
    + intros [= <-]. apply axes_filtered_log. exact HP.
    + destruct (axis_handlers_keep_axes (Joystick.value e) (Ho e eq_refl))
        as (HLSX & HLSY & HRSX & HRSY & HRT & HLT & HPX & HPY).
      apply axes_filtered_log with (l := LogControl (id c) (Joystick.value e)) in HP.
      revert HP. generalize (emit (ConsoleLog (LogControl (id c) (Joystick.value e))) s).
      intros s0 HP. revert s0 s' HP. unfold AXES in Hc. simpl in Hc.
      repeat (apply lookup_insert_Some in Hc;
              destruct Hc as [[_ <-] | [_ Hc]]; [assumption |]).
      rewrite lookup_empty in Hc. discriminate.
  - intros [= <-]. exact HP.
Qed.

Lemma run_records_keep_axes (buffers : list Joystick.Buffer) : forall js js',
  axes_filtered (snd js) ->
  run_records js buffers = Ok js' ->
  axes_filtered (snd js').
Proof.
  induction buffers as [| buffer buffers IH]; intros js js' HP; simpl.
  - intros [= <-]. exact HP.
  - destruct (on_record js buffer) as [js1 | err] eqn:Hrec; simpl;
      [| discriminate].
    apply IH. revert Hrec. unfold on_record.
    destruct (Joystick.onRead _ _ _ _ _ _) as [[f [o |]] |] eqn:Hread;
      [| intros [= <-]; exact HP | discriminate].
    destruct (step (snd js) (JoystickEmit o)) as [s1 | err] eqn:Hstep; simpl;
      [| discriminate].
    intros [= <-]. simpl.
    apply (emit_keeps_axes o (snd js) s1); [| exact HP | exact Hstep].
    intros e ->. exact (onRead_axis_filtered _ _ _ _ Hread).
Qed.

(** X16.  Fed by the device through the joystick, the pendant never holds
    a stick or trigger value strictly inside the deadzone other than 0,
    nor one beyond a 16-bit reading or its negation; a stick is active
    exactly at a value other than 0, and then its feedrate lies between
    68.67 and 3000.09. *)
Theorem device_values_reach_sticks_filtered (buffers : list Joystick.Buffer)
    (f : Joystick.FilterState) (s : State) :
  run_records (Joystick.initial, initial) buffers = Ok (f, s) ->
  (forall n,
      let v := AxisState.value (sticks s n) in
      (v = 0 \/ JOYSTICK_DEADZONE <= Z.abs v <= 2 ^ 15)
      /\ AxisState.active (sticks s n) = negb (v =? 0)
      /\ (AxisState.active (sticks s n) = true ->
          (Qmake 6867 100 <= feedrate v <= Qmake 300009 100)%Q))
  /\ (lt s = 0 \/ JOYSTICK_DEADZONE <= Z.abs (lt s) <= 2 ^ 15)
  /\ (rt s = 0 \/ JOYSTICK_DEADZONE <= Z.abs (rt s) <= 2 ^ 15).
Proof.
  intros Hr.
  assert (HP : axes_filtered s).
  { apply (run_records_keep_axes buffers (Joystick.initial, initial) (f, s));
      [| exact Hr].
    unfold axes_filtered, filtered. simpl. repeat split; auto; lia. }
  destruct HP as (Hsticks & Hlt & Hrt). unfold filtered in *.
  split; [| split; [lia | lia]].
  intros n. cbv zeta. destruct (Hsticks n) as [[Hv Hmax] Hact].
  set (v := AxisState.value (sticks s n)) in *.
  split; [lia |]. split; [exact Hact |].
  intros Ha. rewrite Hact in Ha. apply negb_true_iff, Z.eqb_neq in Ha.
  rewrite feedrate_hundredths. unfold Qle. simpl.
  unfold JOYSTICK_DEADZONE in Hv.
  assert (6867 <= (600000 * Z.abs v + 32767) / 65534)
    by (apply Z.div_le_lower_bound; lia).
  assert ((600000 * Z.abs v + 32767) / 65534 < 300010)
    by (apply Z.div_lt_upper_bound; lia).
  lia.
Qed.

End DeviceToSticks.

(** Two records for the left stick: 20000 to the right, then 300, which
    is inside the deadzone. *)
Lemma device_values_reach_sticks_filtered_witness :
  let buffers := [[x00; x00; x00; x00; x20; x4e; x02; x00];
                  [x10; x00; x00; x00; x2c; x01; x02; x00]]%byte in
  let js := match Pendant.run_records (Joystick.initial, Pendant.initial)
                                      buffers with
            | Ok js => js
            | Throw _ => (Joystick.initial, Pendant.initial)
            end in
  Pendant.run_records (Joystick.initial, Pendant.initial) buffers
  = Ok (fst js, snd js)
  /\ (forall n,
         let v := AxisState.value (Pendant.sticks (snd js) n) in
         (v = 0 \/ Pendant.JOYSTICK_DEADZONE <= Z.abs v <= 2 ^ 15)
         /\ AxisState.active (Pendant.sticks (snd js) n) = negb (v =? 0)
         /\ (AxisState.active (Pendant.sticks (snd js) n) = true ->
             (Qmake 6867 100 <= Pendant.feedrate v <= Qmake 300009 100)%Q))
  /\ (Pendant.lt (snd js) = 0
      \/ Pendant.JOYSTICK_DEADZONE <= Z.abs (Pendant.lt (snd js)) <= 2 ^ 15)
  /\ (Pendant.rt (snd js) = 0
      \/ Pendant.JOYSTICK_DEADZONE <= Z.abs (Pendant.rt (snd js)) <= 2 ^ 15).
Proof.
  intros buffers js.
  assert (Hr : Pendant.run_records (Joystick.initial, Pendant.initial) buffers
               = Ok (fst js, snd js)) by (vm_compute; reflexivity).
  split; [exact Hr |].
  exact (device_values_reach_sticks_filtered buffers (fst js) (snd js) Hr).
Defined.
